(** * qinfer.perf_testing: the performance-testing harness

    A shallow embedding of [src/qinfer/perf_testing.py] (Python 2) and the
    properties of it that the specification states.

    Conventions of the embedding:
    - Python [float]s and NumPy [float64]s are exact rationals ([Q]); Python
      and NumPy integers are [Z].  Rounding and overflow are not modelled.
    - Exceptions are values of [exn]; a computation that may raise has a
      result in [exn + A].
    - Calls that leave the module (the clock, the model, the prior, the
      heuristic, the SMC updater, the dispatch capability, the task monitor)
      and the accesses to the shared fields of the progress thread are nodes
      of a program tree ([prog]); what they answer is chosen by whoever runs
      the tree.
    - Asynchronous [BaseException]s (KeyboardInterrupt, SystemExit) are not
      modelled: every [exn] is an instance of Python's [Exception]. *)

From Stdlib Require Import ZArith QArith Lia Sorted.
From stdpp Require Import base tactics option list strings.

Local Open Scope string_scope.
Local Open Scope list_scope.
Local Open Scope Z_scope.

(** ** Exceptions *)

Inductive exn : Type :=
| NameError (name : string)
| UnboundLocalError (name : string)
| ValueError (msg : string)
| IndexError (msg : string)
| TypeError (msg : string)
| AttributeError (msg : string)
| Exception (msg : string).

Definition result (A : Type) : Type := (exn + A)%type.

(** ** NumPy: scalar types, arrays of dimension at most two *)

Module np.

(** The two scalar types that [PERFORMANCE_DTYPE] uses. *)
Inductive dtype : Type := float | int.

(** A scalar stored in a field of a structured array. *)
Inductive scalar : Type :=
| F (q : Q)
| I (z : Z).

(** C-style conversion of a float to an integer: towards zero. *)
Definition trunc (q : Q) : Z := Z.quot (Qnum q) (Z.pos (Qden q)).

(** Conversion on assignment into a field of type [d]. *)
Definition astype (d : dtype) (v : scalar) : scalar :=
  match d, v with
  | float, I z => F (inject_Z z)
  | int, F q => I (trunc q)
  | _, _ => v
  end.

Definition zero (d : dtype) : scalar :=
  match d with float => F 0 | int => I 0 end.

(** Arrays: a 0-d array (or a plain Python number), a vector of shape
    [(n,)], a matrix of shape [(m, n)] stored by rows. *)
Inductive ndarray (A : Type) : Type :=
| Scalar (x : A)
| Vec (xs : list A)
| Mat (ncols : nat) (rows : list (list A)).
Arguments Scalar {A} x.
Arguments Vec {A} xs.
Arguments Mat {A} ncols rows.

Section Arrays.
Context {A : Type}.

(** Every row of a matrix has [ncols] entries. *)
Definition wf (a : ndarray A) : bool :=
  match a with
  | Mat n rows => forallb (fun r => Nat.eqb (length r) n) rows
  | _ => true
  end.

Definition ndim (a : ndarray A) : nat :=
  match a with Scalar _ => 0 | Vec _ => 1 | Mat _ _ => 2 end%nat.

(** [a.shape], as a list. *)
Definition shape (a : ndarray A) : list nat :=
  match a with
  | Scalar _ => []
  | Vec xs => [length xs]
  | Mat n rows => [length rows; n]
  end.

Definition size (a : ndarray A) : nat := foldr Nat.mul 1%nat (shape a).

(** The array seen as a matrix: missing leading axes have length one. *)
Definition rows2d (a : ndarray A) : list (list A) :=
  match a with
  | Scalar x => [[x]]
  | Vec xs => [xs]
  | Mat _ rows => rows
  end.

Definition dims2d (a : ndarray A) : nat * nat :=
  match a with
  | Scalar _ => (1, 1)
  | Vec xs => (1, length xs)
  | Mat n rows => (length rows, n)
  end%nat.

(** Back from a matrix of shape [(r, c)] to an array of [d] axes. *)
Definition of2d (d c : nat) (rows : list (list A)) : result (ndarray A) :=
  match d, rows with
  | O, [[x]] => inr (Scalar x)
  | S O, [xs] => inr (Vec xs)
  | S (S _), _ => inr (Mat c rows)
  | _, _ => inl (ValueError "shape mismatch")
  end.

(** Conversion of an array to a single scalar, as assignment into a
    scalar field does: only arrays of exactly one element convert. *)
Definition item (a : ndarray A) : result A :=
  match a with
  | Scalar x => inr x
  | Vec [x] => inr x
  | Mat 1 [[x]] => inr x
  | _ => inl (ValueError "setting an array element with a sequence.")
  end.

(** [a.ravel()]: the elements, row by row. *)
Definition ravel (a : ndarray A) : list A := concat (rows2d a).

(** Broadcasting of one axis: equal lengths, or one of them is 1. *)
Definition bdim (x y : nat) : option nat :=
  if Nat.eqb x y then Some x
  else if Nat.eqb x 1 then Some y
  else if Nat.eqb y 1 then Some x
  else None.

(** Stretch an axis of length one to length [n]. *)
Definition stretch {X} (n : nat) (l : list X) : list X :=
  match l with
  | [x] => repeat x n
  | _ => l
  end.
End Arrays.

Definition nd_map {A B} (f : A -> B) (a : ndarray A) : ndarray B :=
  match a with
  | Scalar x => Scalar (f x)
  | Vec xs => Vec (map f xs)
  | Mat n rows => Mat n (map (map f) rows)
  end.

Fixpoint zip_with2 {A B C} (f : A -> B -> C) (l : list A) (k : list B) : list C :=
  match l, k with
  | x :: l', y :: k' => f x y :: zip_with2 f l' k'
  | _, _ => []
  end.

(** Element-wise binary operation with broadcasting ([a - b], [a * b]). *)
Definition broadcast2 {A} (f : A -> A -> A) (a b : ndarray A) : result (ndarray A) :=
  if wf a && wf b then
    let '(ra, ca) := dims2d a in
    let '(rb, cb) := dims2d b in
    match bdim ra rb, bdim ca cb with
    | Some r, Some c =>
        let a' := stretch r (map (stretch c) (rows2d a)) in
        let b' := stretch r (map (stretch c) (rows2d b)) in
        of2d (Nat.max (ndim a) (ndim b)) c (zip_with2 (zip_with2 f) a' b')
    | _, _ => inl (ValueError "operands could not be broadcast together")
    end
  else inl (ValueError "ragged array").

(** [a - b] *)
Definition subtract (a b : ndarray Q) : result (ndarray Q) := broadcast2 Qminus a b.

(** [a ** 2] *)
Definition square (a : ndarray Q) : ndarray Q := nd_map (fun x => Qpower x 2) a.

(** Sum of products of two sequences of the same length. *)
Definition inner (xs ys : list Q) : Q :=
  foldr Qplus 0%Q (zip_with2 Qmult xs ys).

(** Column [j] of a matrix given by rows. *)
Definition column (j : nat) (rows : list (list Q)) : list Q :=
  map (fun r => nth j r 0%Q) rows.

(** [np.dot(a, b)] *)
Definition dot (a b : ndarray Q) : result (ndarray Q) :=
  if wf a && wf b then
    match a, b with
    | Scalar _, _ | _, Scalar _ => broadcast2 Qmult a b
    | Vec xs, Vec ys =>
        if Nat.eqb (length xs) (length ys) then inr (Scalar (inner xs ys))
        else inl (ValueError "shapes not aligned")
    | Mat n rows, Vec ys =>
        if Nat.eqb n (length ys) then inr (Vec (map (fun r => inner r ys) rows))
        else inl (ValueError "shapes not aligned")
    | Vec xs, Mat c rows =>
        if Nat.eqb (length xs) (length rows)
        then inr (Vec (map (fun j => inner xs (column j rows)) (seq 0 c)))
        else inl (ValueError "shapes not aligned")
    | Mat n rows, Mat c rows' =>
        if Nat.eqb n (length rows')
        then inr (Mat c (map (fun r => map (fun j => inner r (column j rows')) (seq 0 c)) rows))
        else inl (ValueError "shapes not aligned")
    end
  else inl (ValueError "ragged array").

End np.

Import np.

(** ** Structured arrays ([np.zeros(shape, dtype=[(name, type), ...])]) *)

Definition fields : Type := list (string * dtype).

(** One element of a structured array: the fields in declaration order. *)
Definition row : Type := list (string * scalar).

(** One-dimensional structured array. *)
Record recarray : Type := mk_recarray {
  ra_dtype : fields;
  ra_rows : list row
}.

(** Two-dimensional structured array of shape [(length ra2_rows, ra2_ncols)]. *)
Record recarray2 : Type := mk_recarray2 {
  ra2_dtype : fields;
  ra2_ncols : nat;
  ra2_rows : list (list row)
}.

Definition zero_row (dt : fields) : row := map (fun f => (f.1, zero f.2)) dt.

Definition names_of (dt : fields) : list string := map fst dt.

(** A structured dtype cannot name a field twice. *)
Definition valid_dtype (dt : fields) : bool := bool_decide (NoDup (names_of dt)).

(** [np.zeros((n,), dtype=dt)] *)
Definition zeros (n : Z) (dt : fields) : result recarray :=
  if n <? 0 then inl (ValueError "negative dimensions are not allowed")
  else if valid_dtype dt
       then inr (mk_recarray dt (repeat (zero_row dt) (Z.to_nat n)))
       else inl (ValueError "field occurs more than once").

(** [np.zeros((m, n), dtype=dt)] *)
Definition zeros2 (m n : Z) (dt : fields) : result recarray2 :=
  if (m <? 0) || (n <? 0) then inl (ValueError "negative dimensions are not allowed")
  else if valid_dtype dt
       then inr (mk_recarray2 dt (Z.to_nat n)
                   (repeat (repeat (zero_row dt) (Z.to_nat n)) (Z.to_nat m)))
       else inl (ValueError "field occurs more than once").

Fixpoint assoc {V} (name : string) (l : list (string * V)) : option V :=
  match l with
  | [] => None
  | (n, v) :: l' => if String.eqb n name then Some v else assoc name l'
  end.

(** The row with field [name] replaced. *)
Definition set_field (name : string) (x : scalar) (r : row) : row :=
  map (fun f => if String.eqb f.1 name then (f.1, x) else f) r.

(** [a[idx][name] = v]: the value must convert to one scalar, which is cast
    to the type of the field. *)
Definition setitem (a : recarray) (idx : nat) (name : string) (v : ndarray scalar)
  : result recarray :=
  match ra_rows a !! idx with
  | None => inl (IndexError "index out of bounds")
  | Some r =>
      match assoc name (ra_dtype a) with
      | None => inl (ValueError "no field of name")
      | Some d =>
          match item v with
          | inl e => inl e
          | inr x =>
              inr (mk_recarray (ra_dtype a)
                     (<[idx := set_field name (astype d x) r]> (ra_rows a)))
          end
      end
  end.

(** Assignment of one structured element to another of a different dtype,
    as NumPy did it up to version 1.12: field by field, by name; a field the
    source lacks becomes zero. *)
Definition cast_row (dst : fields) (src : row) : row :=
  map (fun f => (f.1, match assoc f.1 src with
                      | Some x => astype f.2 x
                      | None => zero f.2
                      end)) dst.

(** [a[idx, :] = b] for a one-dimensional [b]: [b] must have as many
    elements as [a] has columns, or exactly one. *)
Definition setrow (a : recarray2) (idx : nat) (b : recarray) : result recarray2 :=
  if bool_decide (idx < length (ra2_rows a))%nat then
    let n := ra2_ncols a in
    let src := ra_rows b in
    if Nat.eqb (length src) n || Nat.eqb (length src) 1 then
      inr (mk_recarray2 (ra2_dtype a) n
             (<[idx := map (cast_row (ra2_dtype a)) (stretch n src)]> (ra2_rows a)))
    else inl (ValueError "could not broadcast input array")
  else inl (IndexError "index out of bounds").

(** ** Foreign objects *)

(** References to objects whose classes live outside this module. *)
Definition Distribution : Type := nat.
Definition HeuristicClass : Type := nat.
Definition Heuristic : Type := nat.
Definition Updater : Type := nat.
Definition ApplyCapability : Type := nat.
Definition AsyncResult : Type := nat.
Definition TskmonClient : Type := nat.
Definition Task : Type := nat.

(** A model, as far as the harness reads it: its identity, the name of its
    class ([type(model).__name__]) and the two attributes [expparams_dtype]
    and [Q]. *)
Module Model.
Record t : Type := mk {
  id : nat;
  type_name : string;
  expparams_dtype : fields;
  Q : ndarray QArith_base.Q
}.
End Model.

(** An experiment-parameter record, as returned by the heuristic:
    [expparams[name]] is an array. *)
Definition Expparams : Type := list (string * ndarray scalar).

(** [threading.Event()]: there is one, its flag lives in the shared memory. *)
Inductive Event : Type := the_event.

(** ** [class WebProgressThread]: the object *)

Module WebProgressThread.
(** The fields set by [__init__].  The fields [done], [dirty] and
    [progress], which the harness writes and [run] reads concurrently, live
    in the shared memory. *)
Record t : Type := mk { _task : Task; _wake_event : Event }.

Definition __init__ (task : Task) (wake_event : Event) : t := mk task wake_event.

(** The attributes that are shared between the harness and [run]. *)
Record attrs : Type := mk_attrs { done : bool; dirty : bool; progress : Z }.

(** The class attributes [done = False], [dirty = False], [progress = 0]. *)
Definition class_attributes : attrs := mk_attrs false false 0.
End WebProgressThread.

(** The positional arguments bound by [partial(perf_test, ...)]. *)
Record trial_args : Type := mk_trial_args {
  ta_model : Model.t;
  ta_n_particles : Z;
  ta_prior : Distribution;
  ta_n_exp : Z;
  ta_heuristic_class : HeuristicClass;
  ta_true_model : option Model.t;
  ta_true_prior : option Distribution
}.

(** ** Programs: trees of calls *)

Inductive call : Type :=
(* the clock *)
| Time                                                    (* time.time() *)
(* collaborators of a trial *)
| Sample (d : Distribution)                               (* d.sample() *)
| NewUpdater (model : Model.t) (n_particles : Z) (prior : Distribution)
                                                          (* SMCUpdater(model, n_particles, prior) *)
| NewHeuristic (cls : HeuristicClass) (u : Updater)       (* heuristic_class(updater) *)
| CallHeuristic (h : Heuristic)                           (* heuristic() *)
| Simulate (m : Model.t) (mps : ndarray Q) (ep : Expparams)
                                                          (* m.simulate_experiment(mps, ep) *)
| Update (u : Updater) (datum : ndarray scalar) (ep : Expparams)
                                                          (* u.update(datum, ep) *)
| EstMean (u : Updater)                                   (* u.est_mean() *)
| ResampleCount (u : Updater)                             (* u.resample_count *)
(* collaborators of the multi-trial harness *)
| Apply (a : ApplyCapability) (fn : trial_args)           (* apply(trial_fn) *)
| Get (r : AsyncResult)                                   (* result.get() *)
| NewTask (c : TskmonClient) (description status : string) (max_progress : Z)
                                                          (* c.new_task(...) *)
| TaskUpdate (t : Task) (progress : Z)                    (* t.update(progress=...) *)
| TaskDelete (t : Task)                                   (* t.delete() *)
| Print (e : exn)                                         (* print ex *)
| PrintMsg (msg : string) (e : option exn)                (* print "...", ex *)
(* the progress thread and its wake-up event *)
| ThreadStart (th : WebProgressThread.t)                  (* thread.start() *)
| SetProgress (v : Z)                                     (* thread.progress = v *)
| SetDirty (b : bool)                                     (* thread.dirty = b *)
| SetDone (b : bool)                                      (* thread.done = b *)
| GetProgress                                             (* self.progress *)
| GetDirty                                                (* self.dirty *)
| GetDone                                                 (* self.done *)
| EventSet                                                (* wake_event.set() *)
| EventClear                                              (* wake_event.clear() *)
| EventWait.                                              (* wake_event.wait() *)

(** What a call answers when it does not raise. *)
Definition resp (c : call) : Type :=
  match c with
  | Time => Q
  | Sample _ => ndarray Q
  | NewUpdater _ _ _ => Updater
  | NewHeuristic _ _ => Heuristic
  | CallHeuristic _ => Expparams
  | Simulate _ _ _ => ndarray scalar
  | Update _ _ _ => unit
  | EstMean _ => ndarray Q
  | ResampleCount _ => Z
  | Apply _ _ => AsyncResult
  | Get _ => recarray
  | NewTask _ _ _ _ => Task
  | TaskUpdate _ _ => unit
  | TaskDelete _ => unit
  | Print _ | PrintMsg _ _ => unit
  | ThreadStart _ => unit
  | SetProgress _ | SetDirty _ | SetDone _ => unit
  | GetProgress => Z
  | GetDirty | GetDone => bool
  | EventSet | EventClear | EventWait => unit
  end.

Inductive prog (A : Type) : Type :=
| Ret (a : A)
| Raise (e : exn)
| Vis (c : call) (k : result (resp c) -> prog A).
Arguments Ret {A} a.
Arguments Raise {A} e.
Arguments Vis {A} c k.

Fixpoint bind {A B} (p : prog A) (f : A -> prog B) : prog B :=
  match p with
  | Ret a => f a
  | Raise e => Raise e
  | Vis c k => Vis c (fun r => bind (k r) f)
  end.

(** [try: p except Exception as ex: h ex] *)
Fixpoint try_except {A} (p : prog A) (h : exn -> prog A) : prog A :=
  match p with
  | Ret a => Ret a
  | Raise e => h e
  | Vis c k => Vis c (fun r => try_except (k r) h)
  end.

(** A call: its answer, or the exception it raised. *)
Definition do (c : call) : prog (resp c) :=
  Vis c (fun r => match r with inl e => Raise e | inr x => Ret x end).

(** A computation of NumPy, which returns or raises at once. *)
Definition lift {A} (r : result A) : prog A :=
  match r with inl e => Raise e | inr a => Ret a end.

Declare Scope prog_scope.
Delimit Scope prog_scope with prog.
Bind Scope prog_scope with prog.
Notation "x <- p ;; q" := (bind p (fun x => q))
  (at level 100, p at next level, right associativity) : prog_scope.
Notation "p ;; q" := (bind p (fun _ => q))
  (at level 100, right associativity) : prog_scope.

(** [for x in xs: s = body(x, s)] *)
Fixpoint for_each {X S} (xs : list X) (body : X -> S -> prog S) (s : S) : prog S :=
  match xs with
  | [] => Ret s
  | x :: xs' => bind (body x s) (for_each xs' body)
  end.

(** [xrange(n)] *)
Definition xrange (n : Z) : list nat := seq 0 (Z.to_nat n).

(** ** Running a program *)

(** One call answered, or raised, by its environment. *)
Inductive event : Type :=
| Ev (c : call) (r : result (resp c)).

(** The collaborators: every call is answered from, and may change, a state
    of the outside world. *)
Definition handler (W : Type) : Type := forall c : call, W -> result (resp c) * W.

(** Sequential execution: the calls made, the outcome, the final world. *)
Fixpoint run {A W} (h : handler W) (p : prog A) (w : W) : list event * result A * W :=
  match p with
  | Ret a => ([], inr a, w)
  | Raise e => ([], inl e, w)
  | Vis c k =>
      let '(r, w1) := h c w in
      let '(tr, res, w2) := run h (k r) w1 in
      (Ev c r :: tr, res, w2)
  end.

(** ** [class Timer] *)

Module Timer.
Record t : Type := mk { _tic : Q; _toc : option Q }.

(** The class attributes [_tic = 0] and [_toc = None]. *)
Definition class_attributes : t := mk 0 None.

Definition __init__ (self : t) : prog t :=
  (tic <- do Time ;;
   Ret (mk tic (_toc self)))%prog.

(** [Timer()] *)
Definition new : prog t := __init__ class_attributes.

Definition stop (self : t) : prog t :=
  (toc <- do Time ;;
   Ret (mk (_tic self) (Some toc)))%prog.

Definition delta_t (self : t) : prog Q :=
  (now <- match _toc self with
          | Some toc => Ret toc
          | None => do Time
          end ;;
   Ret (now - _tic self)%Q)%prog.
End Timer.

(** [with timing() as t: block].  The generator behind the context manager
    is [t = Timer(); yield t; t.stop()], with no [try]: when the block
    raises, [t.stop()] is not reached and the exception propagates. *)
Definition timing (block : Timer.t -> prog unit) : prog Timer.t :=
  (t <- Timer.new ;;
   block t ;;
   Timer.stop t)%prog.

(** ** [perf_test] *)

Definition PERFORMANCE_DTYPE : fields := [
  ("loss", float);
  ("resample_count", int);
  ("elapsed_time", float);
  ("outcome", int)
].

(** [expparams[name]] *)
Definition getfield (ep : Expparams) (name : string) : result (ndarray scalar) :=
  match assoc name ep with
  | Some v => inr v
  | None => inl (ValueError "no field of name")
  end.

(** The body of the loop over [idx_exp]. *)
Definition perf_test_body (model true_model : Model.t) (true_mps : ndarray Q)
    (updater : Updater) (heuristic : Heuristic)
    (idx_exp : nat) (performance : recarray) : prog recarray :=
  (expparams <- do (CallHeuristic heuristic) ;;
   datum <- do (Simulate true_model true_mps expparams) ;;
   t <- timing (fun _ => do (Update updater datum expparams)) ;;
   mean <- do (EstMean updater) ;;
   delta <- lift (subtract mean true_mps) ;;
   elapsed <- Timer.delta_t t ;;
   performance <- lift (setitem performance idx_exp "elapsed_time" (Scalar (F elapsed))) ;;
   loss <- lift (dot (square delta) (Model.Q model)) ;;
   performance <- lift (setitem performance idx_exp "loss" (nd_map F loss)) ;;
   count <- do (ResampleCount updater) ;;
   performance <- lift (setitem performance idx_exp "resample_count" (Scalar (I count))) ;;
   performance <- lift (setitem performance idx_exp "outcome" datum) ;;
   for_each (map fst (Model.expparams_dtype model))
     (fun param_name performance =>
        v <- lift (getfield expparams param_name) ;;
        lift (setitem performance idx_exp param_name v))
     performance)%prog.

Definition perf_test (model : Model.t) (n_particles : Z) (prior : Distribution)
    (n_exp : Z) (heuristic_class : HeuristicClass)
    (true_model : option Model.t) (true_prior : option Distribution)
    (true_mps : option (ndarray Q)) : prog recarray :=
  (let true_model := default model true_model in
   let true_prior := default prior true_prior in
   true_mps <- match true_mps with
               | None => do (Sample true_prior)
               | Some mps => Ret mps
               end ;;
   performance <- lift (zeros n_exp (PERFORMANCE_DTYPE ++ Model.expparams_dtype model)) ;;
   updater <- do (NewUpdater model n_particles prior) ;;
   heuristic <- do (NewHeuristic heuristic_class updater) ;;
   for_each (xrange n_exp)
     (perf_test_body model true_model true_mps updater heuristic)
     performance)%prog.

(** ** Name resolution *)

(** The names bound at module level once [perf_testing.py] is loaded. *)
Definition module_globals : list string := [
  "__name__"; "__doc__"; "__file__"; "__package__"; "__builtins__";
  "division"; "__all__"; "contextmanager"; "partial"; "threading"; "time";
  "np"; "SMCUpdater"; "Timer"; "WebProgressThread"; "timing";
  "PERFORMANCE_DTYPE"; "perf_test"; "apply_serial"; "perf_test_multiple"
].

(** The built-in names of Python 2.7. *)
Definition builtins : list string := [
  "abs"; "all"; "any"; "apply"; "basestring"; "bin"; "bool"; "buffer";
  "bytearray"; "bytes"; "callable"; "chr"; "classmethod"; "cmp"; "coerce";
  "compile"; "complex"; "copyright"; "credits"; "delattr"; "dict"; "dir";
  "divmod"; "enumerate"; "eval"; "execfile"; "exit"; "file"; "filter";
  "float"; "format"; "frozenset"; "getattr"; "globals"; "hasattr"; "hash";
  "help"; "hex"; "id"; "input"; "int"; "intern"; "isinstance"; "issubclass";
  "iter"; "len"; "license"; "list"; "locals"; "long"; "map"; "max";
  "memoryview"; "min"; "next"; "object"; "oct"; "open"; "ord"; "pow";
  "print"; "property"; "quit"; "range"; "raw_input"; "reduce"; "reload";
  "repr"; "reversed"; "round"; "set"; "setattr"; "slice"; "sorted";
  "staticmethod"; "str"; "sum"; "super"; "tuple"; "type"; "unichr";
  "unicode"; "vars"; "xrange"; "zip"; "__import__"; "True"; "False"; "None";
  "Ellipsis"; "NotImplemented"; "__debug__";
  "ArithmeticError"; "AssertionError"; "AttributeError"; "BaseException";
  "BufferError"; "BytesWarning"; "DeprecationWarning"; "EOFError";
  "EnvironmentError"; "Exception"; "FloatingPointError"; "FutureWarning";
  "GeneratorExit"; "IOError"; "ImportError"; "ImportWarning";
  "IndentationError"; "IndexError"; "KeyError"; "KeyboardInterrupt";
  "LookupError"; "MemoryError"; "NameError"; "NotImplementedError";
  "OSError"; "OverflowError"; "PendingDeprecationWarning"; "ReferenceError";
  "RuntimeError"; "RuntimeWarning"; "StandardError"; "StopIteration";
  "SyntaxError"; "SyntaxWarning"; "SystemError"; "SystemExit"; "TabError";
  "TypeError"; "UnboundLocalError"; "UnicodeDecodeError";
  "UnicodeEncodeError"; "UnicodeError"; "UnicodeTranslateError";
  "UnicodeWarning"; "UserWarning"; "ValueError"; "Warning";
  "ZeroDivisionError"
].

(** The values that [apply_serial] handles. *)
Inductive pyobj : Type :=
| Partial (fn : trial_args)   (* partial(perf_test, model, ..., true_prior) *)
| Global (name : string).     (* the object bound to a global or built-in name *)

(** A name that is not local to the function: looked up in the globals of
    the module, then in the built-ins. *)
Definition load_global (name : string) : prog pyobj :=
  if bool_decide (name ∈ module_globals) then Ret (Global name)
  else if bool_decide (name ∈ builtins) then Ret (Global name)
  else Raise (NameError name).

(** A local variable of a function: not yet assigned, or holding a value,
    [None] being Python's [None]. *)
Inductive local (X : Type) : Type :=
| Unbound
| Bound (v : option X).
Arguments Unbound {X}.
Arguments Bound {X} v.

Definition load_fast {X} (name : string) (l : local X) : prog (option X) :=
  match l with
  | Unbound => Raise (UnboundLocalError name)
  | Bound v => Ret v
  end.

(** The receiver of a method call or attribute assignment: [None] has
    neither. *)
Definition receiver {X} (v : option X) : prog X :=
  match v with
  | Some x => Ret x
  | None => Raise (AttributeError "'NoneType' object has no attribute")
  end.

(** ** [class apply_serial] *)

(** The call [self._fn] of [get], for the callables at hand: the partial application
    of [perf_test] takes the remaining parameter [true_mps] from its
    default. *)
Definition invoke (f : pyobj) (args : list pyobj) (kwargs : list (string * pyobj))
  : prog recarray :=
  match f, args, kwargs with
  | Partial ta, [], [] =>
      perf_test (ta_model ta) (ta_n_particles ta) (ta_prior ta) (ta_n_exp ta)
        (ta_heuristic_class ta) (ta_true_model ta) (ta_true_prior ta) None
  | _, _, _ => Raise (TypeError "bad call")
  end.

Module apply_serial.
Record t : Type := mk {
  _fn : option pyobj;
  _args : list pyobj;
  _kwargs : list (string * pyobj);
  _value : option recarray;
  _done : bool
}.

(** The class attributes [_value = None] and [_done = False]; the instance
    attributes are not set before [__init__]. *)
Definition class_attributes : t := mk None [] [] None false.

(** The parameters of [__init__] are [self], [args] and [kwargs] (the
    starred ones): [fn] is not a parameter. *)
Definition __init__ (self : t) (args : list pyobj) (kwargs : list (string * pyobj))
  : prog t :=
  (fn <- load_global "fn" ;;
   Ret (mk (Some fn) args kwargs (_value self) (_done self)))%prog.

(** Instantiation of the class. *)
Definition new (args : list pyobj) (kwargs : list (string * pyobj)) : prog t :=
  __init__ class_attributes args kwargs.

Definition get (self : t) : prog (option recarray * t) :=
  (self <- (if negb (_done self) then
              fn <- receiver (_fn self) ;;
              value <- invoke fn (_args self) (_kwargs self) ;;
              Ret (mk (_fn self) (_args self) (_kwargs self) (Some value) true)
            else Ret self) ;;
   Ret (_value self, self))%prog.
End apply_serial.

(** ** [WebProgressThread.run] *)

Inductive loop_ctl : Type := Continue | Return.

(** One turn of the [while True] loop of [run]. *)
Definition run_iteration (self : WebProgressThread.t) : prog loop_ctl :=
  (done <- do GetDone ;;
   if (done : bool) then Ret Return
   else
     dirty <- do GetDirty ;;
     (if (dirty : bool) then
        try_except
          (progress <- do GetProgress ;;
           do (TaskUpdate (WebProgressThread._task self) progress) ;;
           do (SetDirty false) ;;
           do EventClear)
          (fun ex => do (Print ex))
      else Ret tt) ;;
     do EventWait ;;
     Ret Continue)%prog.

(** ** [perf_test_multiple] *)

(** The [apply] argument: the class [apply_serial] (the default), or a
    capability from outside. *)
Inductive apply_arg : Type :=
| apply_serial_class
| apply_capability (a : ApplyCapability).

(** What [apply(trial_fn)] returns. *)
Inductive apply_result : Type :=
| SerialResult (s : apply_serial.t)
| AsyncResultOf (r : AsyncResult).

(** [apply(trial_fn)] *)
Definition call_apply (apply : apply_arg) (trial_fn : trial_args) : prog apply_result :=
  match apply with
  | apply_serial_class =>
      (s <- apply_serial.new [Partial trial_fn] [] ;; Ret (SerialResult s))%prog
  | apply_capability a =>
      (r <- do (Apply a trial_fn) ;; Ret (AsyncResultOf r))%prog
  end.

(** [result.get()] *)
Definition call_get (result : apply_result) : prog recarray :=
  match result with
  | SerialResult s =>
      (r <- apply_serial.get s ;;
       match r.1 with
       | Some value => Ret value
       | None => Raise (TypeError "None is not an array")
       end)%prog
  | AsyncResultOf r => do (Get r)
  end.

(** The three locals that only the [if tskmon_client is not None] branch
    assigns. *)
Record tskmon_locals : Type := mk_locals {
  task : local Task;
  thread : local WebProgressThread.t;
  wake_event : local Event
}.

Definition enumerate {X} (l : list X) : list (nat * X) := zip (seq 0 (length l)) l.

Definition perf_test_multiple (n_trials : Z)
    (model : Model.t) (n_particles : Z) (prior : Distribution)
    (n_exp : Z) (heuristic_class : HeuristicClass)
    (true_model : option Model.t) (true_prior : option Distribution)
    (apply : apply_arg) (tskmon_client : option TskmonClient) : prog recarray2 :=
  (let trial_fn :=
     mk_trial_args model n_particles prior n_exp heuristic_class true_model true_prior in
   performance <- lift (zeros2 n_trials n_exp PERFORMANCE_DTYPE) ;;
   locals <- match tskmon_client with
             | Some client =>
                 try_except
                   (let name := Model.type_name model in
                    task <- do (NewTask client "QInfer Performance Testing"
                                  ("Testing " ++ name ++ "...") n_trials) ;;
                    let wake_event := the_event in
                    let thread := WebProgressThread.__init__ task wake_event in
                    do (ThreadStart thread) ;;
                    Ret (mk_locals (Bound (Some task)) (Bound (Some thread))
                           (Bound (Some wake_event))))
                   (fun ex =>
                      do (PrintMsg "Failed to start tskmon task: " (Some ex)) ;;
                      Ret (mk_locals (Bound None) (Bound None) (Bound None)))
             | None => Ret (mk_locals Unbound Unbound Unbound)
             end ;;
   results <- for_each (xrange n_trials)
                (fun idx results =>
                   r <- call_apply apply trial_fn ;; Ret (results ++ [r]))
                [] ;;
   performance <- for_each (enumerate results)
                    (fun '(idx, result) performance =>
                       trial <- call_get result ;;
                       performance <- lift (setrow performance idx trial) ;;
                       th <- load_fast "thread" (thread locals) ;;
                       match th with
                       | Some _ =>
                           do (SetProgress (Z.of_nat idx + 1)) ;;
                           do (SetDirty true) ;;
                           ev <- load_fast "wake_event" (wake_event locals) ;;
                           receiver ev ;;
                           do EventSet ;;
                           Ret performance
                       | None => Ret performance
                       end)
                    performance ;;
   tk <- load_fast "task" (task locals) ;;
   match tk with
   | Some tk =>
       try_except
         (th <- load_fast "thread" (thread locals) ;;
          receiver th ;;
          do (SetDone true) ;;
          ev <- load_fast "wake_event" (wake_event locals) ;;
          receiver ev ;;
          do EventSet ;;
          do (TaskDelete tk))
         (fun _ => do (PrintMsg "Exception cleaning up tskmon task." None))
   | None => Ret tt
   end ;;
   Ret performance)%prog.

(** ** The harness and the progress thread, interleaved *)

(** The memory that the two threads share: the attributes of the thread
    object and the flag of the wake-up event. *)
Record memory : Type := mk_memory {
  m_attrs : WebProgressThread.attrs;
  m_flag : bool
}.

Definition initial_memory : memory :=
  mk_memory WebProgressThread.class_attributes false.

Definition set_progress (v : Z) (m : memory) : memory :=
  let a := m_attrs m in
  mk_memory (WebProgressThread.mk_attrs (WebProgressThread.done a)
               (WebProgressThread.dirty a) v) (m_flag m).

Definition set_dirty (b : bool) (m : memory) : memory :=
  let a := m_attrs m in
  mk_memory (WebProgressThread.mk_attrs (WebProgressThread.done a) b
               (WebProgressThread.progress a)) (m_flag m).

Definition set_done (b : bool) (m : memory) : memory :=
  let a := m_attrs m in
  mk_memory (WebProgressThread.mk_attrs b (WebProgressThread.dirty a)
               (WebProgressThread.progress a)) (m_flag m).

Definition set_flag (b : bool) (m : memory) : memory := mk_memory (m_attrs m) b.

(** A call that the memory answers, a call that has to wait, or a call that
    goes to the collaborators. *)
Inductive access_result (X : Type) : Type :=
| Answered (x : X) (m : memory)
| Blocked
| External.
Arguments Answered {X} x m.
Arguments Blocked {X}.
Arguments External {X}.

(** Attribute accesses are single steps; [wait] returns once the flag of the
    event is set; printing always succeeds. *)
Definition access (c : call) (m : memory) : access_result (resp c) :=
  match c return access_result (resp c) with
  | SetProgress v => Answered tt (set_progress v m)
  | SetDirty b => Answered tt (set_dirty b m)
  | SetDone b => Answered tt (set_done b m)
  | GetProgress => Answered (WebProgressThread.progress (m_attrs m)) m
  | GetDirty => Answered (WebProgressThread.dirty (m_attrs m)) m
  | GetDone => Answered (WebProgressThread.done (m_attrs m)) m
  | EventSet => Answered tt (set_flag true m)
  | EventClear => Answered tt (set_flag false m)
  | EventWait => if m_flag m then Answered tt m else Blocked
  | Print _ | PrintMsg _ _ => Answered tt m
  | _ => External
  end.

Definition exec {W} (h : handler W) (c : call) (m : memory) (w : W)
  : option (result (resp c) * memory * W) :=
  match access c m with
  | Answered x m' => Some (inr x, m', w)
  | Blocked => None
  | External => let '(r, w') := h c w in Some (r, m, w')
  end.

Inductive tid : Type := MainThread | ProgressThread.

Inductive thread_state : Type :=
| NotStarted
| Running (self : WebProgressThread.t) (p : prog loop_ctl)
| Finished
| Died (e : exn).

Record config (A W : Type) : Type := mk_config {
  c_main : prog A;
  c_thread : thread_state;
  c_mem : memory;
  c_world : W;
  c_log : list (tid * event)
}.
Arguments mk_config {A W}.
Arguments c_main {A W}.
Arguments c_thread {A W}.
Arguments c_mem {A W}.
Arguments c_world {A W}.
Arguments c_log {A W}.

(** [thread.start()], when it succeeds, starts [run]. *)
Definition spawn (c : call) (ok : bool) (t : thread_state) : thread_state :=
  match c, ok, t with
  | ThreadStart th, true, NotStarted => Running th (run_iteration th)
  | _, _, _ => t
  end.

Definition is_inr {X Y} (r : X + Y) : bool :=
  match r with inr _ => true | inl _ => false end.

(** One step of the thread [who]; [None] when it cannot move. *)
Definition step {A W} (h : handler W) (who : tid) (cfg : config A W)
  : option (config A W) :=
  match who with
  | MainThread =>
      match c_main cfg with
      | Vis c k =>
          match exec h c (c_mem cfg) (c_world cfg) with
          | Some (r, m, w) =>
              Some (mk_config (k r) (spawn c (is_inr r) (c_thread cfg)) m w
                      (c_log cfg ++ [(MainThread, Ev c r)]))
          | None => None
          end
      | _ => None
      end
  | ProgressThread =>
      match c_thread cfg with
      | Running self (Vis c k) =>
          match exec h c (c_mem cfg) (c_world cfg) with
          | Some (r, m, w) =>
              Some (mk_config (c_main cfg) (Running self (k r)) m w
                      (c_log cfg ++ [(ProgressThread, Ev c r)]))
          | None => None
          end
      | Running self (Ret Continue) =>
          Some (mk_config (c_main cfg) (Running self (run_iteration self))
                  (c_mem cfg) (c_world cfg) (c_log cfg))
      | Running self (Ret Return) =>
          Some (mk_config (c_main cfg) Finished (c_mem cfg) (c_world cfg) (c_log cfg))
      | Running self (Raise e) =>
          Some (mk_config (c_main cfg) (Died e) (c_mem cfg) (c_world cfg) (c_log cfg))
      | _ => None
      end
  end.

(** The threads move as the schedule says; a thread that cannot move when
    it is its turn is skipped. *)
Fixpoint run_schedule {A W} (h : handler W) (sched : list tid) (cfg : config A W)
  : config A W :=
  match sched with
  | [] => cfg
  | who :: sched' =>
      match step h who cfg with
      | Some cfg' => run_schedule h sched' cfg'
      | None => run_schedule h sched' cfg
      end
  end.

Definition initial {A W} (p : prog A) (w : W) : config A W :=
  mk_config p NotStarted initial_memory w [].

(** The calls of the harness, and those of the progress thread. *)
Definition main_events (log : list (tid * event)) : list event :=
  flat_map (fun te => match te.1 with MainThread => [te.2] | ProgressThread => [] end) log.

Definition thread_events (log : list (tid * event)) : list event :=
  flat_map (fun te => match te.1 with ProgressThread => [te.2] | MainThread => [] end) log.

(** What an event means for the reporting of progress. *)
Inductive kind : Type :=
| Collected                              (* result.get() returned *)
| Write (v : Z)                          (* thread.progress = v *)
| Dirty (b : bool)                       (* thread.dirty = b *)
| Push (v : Z) (failure : option exn)    (* task.update(progress=v) *)
| Printed (e : exn)                      (* print ex *)
| Other.

Definition kind_of (e : event) : kind :=
  match e with
  | Ev c r =>
      match c return result (resp c) -> kind with
      | Get _ => fun r => match r with inr _ => Collected | inl _ => Other end
      | SetProgress v => fun _ => Write v
      | SetDirty b => fun _ => Dirty b
      | TaskUpdate _ v =>
          fun r => Push v match r with inl e => Some e | inr _ => None end
      | Print e => fun _ => Printed e
      | _ => fun _ => Other
      end r
  end.



(** Those among them for which [task.update] returned. *)
Definition deliveries (tr : list event) : list Z :=
  flat_map (fun e => match kind_of e with Push v None => [v] | _ => [] end) tr.



(** Those that the task accepted. *)
Definition delivered (log : list (tid * event)) : list Z :=
  deliveries (thread_events log).

(** A monitor of the calls of the harness: how many trials were collected,
    how many times the progress was written, whether the last call was the
    collection of a trial, whether [dirty] was ever set, and whether, so
    far, every write of the progress came right after the collection of a
    trial and wrote the number of trials collected, and [dirty] was set
    only after a write. *)
Record monitor : Type := mk_monitor {
  collected : nat;
  wrote : nat;
  fresh : bool;
  dirtied : bool;
  good : bool
}.

Definition observe (m : monitor) (e : event) : monitor :=
  match kind_of e with
  | Collected => mk_monitor (S (collected m)) (wrote m) true (dirtied m) (good m)
  | Write v =>
      mk_monitor (collected m) (S (wrote m)) false (dirtied m)
        (good m && fresh m && (v =? Z.of_nat (collected m))
         && (v =? Z.of_nat (S (wrote m))))
  | Dirty true =>
      mk_monitor (collected m) (wrote m) false true
        (good m && Nat.leb 1 (wrote m))
  | _ => mk_monitor (collected m) (wrote m) false (dirtied m) (good m)
  end.






(** ** A program logic on call trees *)

(** [wp inv p tr post epost]: started after the calls [tr], the program [p]
    keeps [inv] true of the calls made so far, whatever the calls answer;
    when it returns [a] the calls made satisfy [post _ a], when it raises
    [e] they satisfy [epost _ e]. *)
Fixpoint wp {A} (inv : list event -> Prop) (p : prog A) (tr : list event)
    (post : list event -> A -> Prop) (epost : list event -> exn -> Prop) : Prop :=
  inv tr /\
  match p with
  | Ret a => post tr a
  | Raise e => epost tr e
  | Vis c k => forall r, wp inv (k r) (tr ++ [Ev c r]) post epost
  end.

Definition no_inv : list event -> Prop := fun _ => True.
Definition any_exn : list event -> exn -> Prop := fun _ _ => True.

(** ** What one experiment of a trial observes, and the record it should leave *)

(** The answers of the collaborators during one experiment. *)
Record observation : Type := mk_observation {
  o_expparams : Expparams;       (* what the heuristic chose *)
  o_datum : ndarray scalar;      (* what the simulation returned *)
  o_tic : Q;                     (* the clock before the update *)
  o_toc : Q;                     (* the clock after the update *)
  o_mean : ndarray Q;            (* the posterior mean after the update *)
  o_count : Z                    (* the resample count after the update *)
}.

(** The calls of one experiment, in order. *)
Definition iteration_events (true_model : Model.t) (true_mps : ndarray Q)
    (updater : Updater) (heuristic : Heuristic) (o : observation) : list event := [
  Ev (CallHeuristic heuristic) (inr (o_expparams o));
  Ev (Simulate true_model true_mps (o_expparams o)) (inr (o_datum o));
  Ev Time (inr (o_tic o));
  Ev (Update updater (o_datum o) (o_expparams o)) (inr tt);
  Ev Time (inr (o_toc o));
  Ev (EstMean updater) (inr (o_mean o));
  Ev (ResampleCount updater) (inr (o_count o))
].

(** The calls before the first experiment. *)
Definition setup_events (model : Model.t) (n_particles : Z) (prior : Distribution)
    (heuristic_class : HeuristicClass) (true_prior : Distribution)
    (given : option (ndarray Q)) (true_mps : ndarray Q)
    (updater : Updater) (heuristic : Heuristic) : list event :=
  match given with
  | None => [Ev (Sample true_prior) (inr true_mps)]
  | Some _ => []
  end ++ [
  Ev (NewUpdater model n_particles prior) (inr updater);
  Ev (NewHeuristic heuristic_class updater) (inr heuristic)
].

(** The loss that the harness computes: [np.dot(delta**2, model.Q)],
    converted to one float. *)
Definition loss_of (model : Model.t) (true_mps mean : ndarray Q) : result Q :=
  match subtract mean true_mps with
  | inl e => inl e
  | inr delta =>
      match dot (square delta) (Model.Q model) with
      | inl e => inl e
      | inr l => item l
      end
  end.

(** The experiment-parameter fields of a record. *)
Fixpoint params_of (dt : fields) (ep : Expparams) : result row :=
  match dt with
  | [] => inr []
  | (name, d) :: dt' =>
      match getfield ep name with
      | inl e => inl e
      | inr v =>
          match item v, params_of dt' ep with
          | inr x, inr r => inr ((name, astype d x) :: r)
          | inl e, _ | _, inl e => inl e
          end
      end
  end.

(** The performance record of one experiment. *)
Definition record_of (model : Model.t) (true_mps : ndarray Q) (o : observation)
  : result row :=
  match loss_of model true_mps (o_mean o), item (o_datum o),
        params_of (Model.expparams_dtype model) (o_expparams o) with
  | inr l, inr d, inr ps =>
      inr ([("loss", F l);
            ("resample_count", I (o_count o));
            ("elapsed_time", F (o_toc o - o_tic o)%Q);
            ("outcome", astype int d)] ++ ps)
  | inl e, _, _ | _, inl e, _ | _, _, inl e => inl e
  end.

(** ** The quadratic loss, as the specification words it *)

(** [x^T M y] for a square matrix given by rows. *)
Definition bilinear (x : list Q) (M : list (list Q)) (y : list Q) : Q :=
  inner x (map (fun r => inner r y) M).

(** [v^T M v] *)
Definition quadratic_form (v : list Q) (M : list (list Q)) : Q := bilinear v M v.

(** The diagonal matrix with diagonal [q]. *)
Fixpoint diag (q : list Q) : list (list Q) :=
  match q with
  | [] => []
  | x :: q' => (x :: repeat 0%Q (length q')) :: map (cons 0%Q) (diag q')
  end.

(** What a trial that returns has done: the calls, in order, and the array
    returned. *)
Definition trial_outcome (model : Model.t) (n_particles : Z) (prior : Distribution)
    (n_exp : Z) (heuristic_class : HeuristicClass)
    (true_model : option Model.t) (true_prior : option Distribution)
    (given : option (ndarray Q)) (tr : list event) (perf : recarray) : Prop :=
  exists true_mps updater heuristic (os : list observation) (rs : list row),
    (forall mps, given = Some mps -> true_mps = mps) /\
    tr = setup_events model n_particles prior heuristic_class
           (default prior true_prior) given true_mps updater heuristic
         ++ flat_map (iteration_events (default model true_model) true_mps
                        updater heuristic) os /\
    length os = Z.to_nat n_exp /\
    Forall2 (fun o r => record_of model true_mps o = inr r) os rs /\
    perf = mk_recarray (PERFORMANCE_DTYPE ++ Model.expparams_dtype model) rs.

(** ** A concrete set of collaborators, for examples *)

(** The world is a counter: the clock returns it and advances by one, an
    update advances it by one. *)
Definition demo_with (mean : ndarray Q) : handler nat := fun c w =>
  match c return result (resp c) * nat with
  | Time => (inr (inject_Z (Z.of_nat w)), S w)
  | Sample _ => (inr (Mat 1 [[1 # 2]]%Q), w)
  | NewUpdater _ _ _ => (inr 7%nat, w)
  | NewHeuristic _ _ => (inr 8%nat, w)
  | CallHeuristic _ => (inr [("t", Vec [F 3])], w)
  | Simulate _ _ _ => (inr (Mat 1 [[I 1]]), w)
  | Update _ _ _ => (inr tt, S w)
  | EstMean _ => (inr mean, w)
  | ResampleCount _ => (inr 2, w)
  | Apply _ _ => (inr 0%nat, w)
  | Get _ =>
      (inr (mk_recarray (PERFORMANCE_DTYPE ++ [("t", float)])
              [[("loss", F (1 # 16)); ("resample_count", I 2);
                ("elapsed_time", F 2); ("outcome", I 1); ("t", F 3)]]), w)
  | NewTask _ _ _ _ => (inr 5%nat, w)
  | TaskUpdate _ _ => (inr tt, w)
  | TaskDelete _ => (inr tt, w)
  | Print _ | PrintMsg _ _ => (inr tt, w)
  | ThreadStart _ => (inr tt, w)
  | SetProgress _ | SetDirty _ | SetDone _ => (inr tt, w)
  | GetProgress => (inr 0, w)
  | GetDirty | GetDone => (inr false, w)
  | EventSet | EventClear | EventWait => (inr tt, w)
  end.

Definition demo : handler nat := demo_with (Vec [1 # 4]%Q).

(** A model of one parameter with one experiment parameter [t]; [Q] is the
    vector of loss weights. *)
Definition demo_model : Model.t := Model.mk 0 "DemoModel" [("t", float)] (Vec [1%Q]).

(** A model of two parameters whose [Q] is a 2 x 2 matrix, the identity. *)
Definition matrix_model : Model.t :=
  Model.mk 1 "MatrixModel" [("t", float)] (Mat 2 [[1; 0]; [0; 1]]%Q).

(** The array is a matrix of more than one row: [a.shape[0] > 1] for a
    two-dimensional [a]. *)
Definition many_rows {A} (a : ndarray A) : Prop :=
  match a with
  | Mat _ rows => (2 <= length rows)%nat
  | _ => False
  end.

(** The call returned, it did not raise. *)
Definition returned (e : event) : Prop :=
  match e with
  | Ev _ (inr _) => True
  | Ev _ (inl _) => False
  end.

(** The true parameters of a trial: those given or, failing that, those
    that the first call, [true_prior.sample()], answered. *)
Definition sampled (e : event) : option (ndarray Q) :=
  match e with
  | Ev c r =>
      match c return result (resp c) -> option (ndarray Q) with
      | Sample _ => fun r => match r with inr mps => Some mps | inl _ => None end
      | _ => fun _ => None
      end r
  end.

Definition true_mps_of (given : option (ndarray Q)) (tr : list event)
  : option (ndarray Q) :=
  match given with
  | Some mps => Some mps
  | None => match tr with e :: _ => sampled e | [] => None end
  end.

(** The calls of [tr] were answered by the collaborators [h], which went
    from world [w] to world [w']. *)
Fixpoint answered_by {W} (h : handler W) (tr : list event) (w w' : W) : Prop :=
  match tr with
  | [] => w' = w
  | Ev c r :: tr' => exists w1, h c w = (r, w1) /\ answered_by h tr' w1 w'
  end.

(** The event, with the true parameters blanked out of a call of
    [simulate_experiment]. *)
Definition hide_true_mps (e : event) : event :=
  match e with
  | Ev c r =>
      match c return result (resp c) -> event with
      | Simulate m _ ep => fun r => Ev (Simulate m (Scalar 0%Q) ep) r
      | c' => fun r => Ev c' r
      end r
  end.

(** A multi-trial array as [np.zeros((n_trials, n_exp), dtype=dt)] shapes
    it: [m] rows of [n] elements, each with exactly the fields of [dt]. *)
Definition shaped (dt : fields) (m n : nat) (a : recarray2) : Prop :=
  ra2_dtype a = dt /\ ra2_ncols a = n /\ length (ra2_rows a) = m /\
  Forall (fun trial => length trial = n /\
                       Forall (fun r : row => map fst r = names_of dt) trial)
    (ra2_rows a).


(** Calls that are neither the collection of a trial nor a write of the
    progress or of [dirty]. *)
Definition quiet (c : call) : bool :=
  match c with
  | Get _ | SetProgress _ | SetDirty _ => false
  | _ => true
  end.

Definition is_async (r : apply_result) : Prop :=
  match r with
  | AsyncResultOf _ => True
  | SerialResult _ => False
  end.




(** ** Programs that handle no exception *)

(** The exception that a call raised, if it raised. *)
Definition raised (ev : event) : option exn :=
  match ev with
  | Ev _ (inl e) => Some e
  | Ev _ (inr _) => None
  end.

(** The program has no [try]: when a call raises, the program raises the
    same exception at once. *)
Fixpoint propagates {A} (p : prog A) : Prop :=
  match p with
  | Vis c k => (forall e, k (inl e) = Raise e) /\ forall x, propagates (k (inr x))
  | _ => True
  end.

(** Collaborators as [demo], but every [update] of the updater raises. *)
Definition failing_update : handler nat := fun c w =>
  match c return result (resp c) * nat with
  | Update _ _ _ => (inl (Exception "update failed"), w)
  | c' => demo c' w
  end.

(** ** A handle of [apply_serial], had one been constructed *)

(** The handle that [apply_serial(trial_fn)] was meant to construct: the
    function in [_fn], no further argument, nothing computed yet. *)
Definition serial_handle (fn : trial_args) : apply_serial.t :=
  apply_serial.mk (Some (Partial fn)) [] [] None false.

Definition demo_trial : trial_args :=
  mk_trial_args demo_model 100 1%nat 1 3%nat None None.

(** ** The phases of [perf_test_multiple] *)

(** The call of an event. *)
Definition call_of (ev : event) : call :=
  match ev with Ev c _ => c end.

(** Every call that the program can make satisfies [P]. *)
Fixpoint calls_only {A} (P : call -> Prop) (p : prog A) : Prop :=
  match p with
  | Vis c k => P c /\ forall r, calls_only P (k r)
  | _ => True
  end.

(** The [try] statement that creates the task and starts the progress
    thread, with its [except Exception as ex] clause. *)
Definition start_progress (client : TskmonClient) (model : Model.t) (n_trials : Z)
  : prog tskmon_locals :=
  try_except
    (let name := Model.type_name model in
     task <- do (NewTask client "QInfer Performance Testing"
                   ("Testing " ++ name ++ "...") n_trials) ;;
     let wake_event := the_event in
     let thread := WebProgressThread.__init__ task wake_event in
     do (ThreadStart thread) ;;
     Ret (mk_locals (Bound (Some task)) (Bound (Some thread))
            (Bound (Some wake_event))))%prog
    (fun ex =>
       do (PrintMsg "Failed to start tskmon task: " (Some ex)) ;;
       Ret (mk_locals (Bound None) (Bound None) (Bound None)))%prog.

(** [results = [apply(trial_fn) for idx in xrange(n_trials)]] *)
Definition dispatch (apply : apply_arg) (trial_fn : trial_args) (n_trials : Z)
  : prog (list apply_result) :=
  for_each (xrange n_trials)
    (fun idx results =>
       r <- call_apply apply trial_fn ;; Ret (results ++ [r]))%prog
    [].

(** The body of the loop over [enumerate(results)]. *)
Definition collect_trial (locals : tskmon_locals)
  : nat * apply_result -> recarray2 -> prog recarray2 :=
  fun '(idx, result) performance =>
    (trial <- call_get result ;;
     performance <- lift (setrow performance idx trial) ;;
     th <- load_fast "thread" (thread locals) ;;
     match th with
     | Some _ =>
         do (SetProgress (Z.of_nat idx + 1)) ;;
         do (SetDirty true) ;;
         ev <- load_fast "wake_event" (wake_event locals) ;;
         receiver ev ;;
         do EventSet ;;
         Ret performance
     | None => Ret performance
     end)%prog.

Definition collect (locals : tskmon_locals) (results : list apply_result)
    (performance : recarray2) : prog recarray2 :=
  for_each (enumerate results) (collect_trial locals) performance.

(** The statement [if task is not None: try: ... except: print ...], once
    [task] has been read. *)
Definition clean_up (locals : tskmon_locals) (tk : option Task) : prog unit :=
  match tk with
  | Some tk =>
      try_except
        (th <- load_fast "thread" (thread locals) ;;
         receiver th ;;
         do (SetDone true) ;;
         ev <- load_fast "wake_event" (wake_event locals) ;;
         receiver ev ;;
         do EventSet ;;
         do (TaskDelete tk))%prog
        (fun _ => do (PrintMsg "Exception cleaning up tskmon task." None))
  | None => Ret tt
  end.

(** The locals once the task was created and the thread started. *)
Definition started_locals (tk : Task) : tskmon_locals :=
  mk_locals (Bound (Some tk)) (Bound (Some (WebProgressThread.mk tk the_event)))
    (Bound (Some the_event)).

(** The locals once the [except] clause has run. *)
Definition failed_locals : tskmon_locals :=
  mk_locals (Bound None) (Bound None) (Bound None).

(** The calls that dispatch the trials, when they return. *)
Definition dispatch_events (a : ApplyCapability) (fn : trial_args)
    (rs : list AsyncResult) : list event :=
  map (fun r => Ev (Apply a fn) (inr r)) rs.

(** The calls that collect the trials and report the progress, from trial
    [idx] on, when they return. *)
Fixpoint collect_events (idx : nat) (rs : list AsyncResult) (trials : list recarray)
  : list event :=
  match rs, trials with
  | r :: rs', t :: trials' =>
      [Ev (Get r) (inr t);
       Ev (SetProgress (Z.of_nat idx + 1)) (inr tt);
       Ev (SetDirty true) (inr tt);
       Ev EventSet (inr tt)] ++ collect_events (S idx) rs' trials'
  | _, _ => []
  end.

(** One trial as [performance[idx, :] = trial] stores it in an array of
    dtype [dt] with [n] columns. *)
Definition stored (dt : fields) (n : nat) (trial : recarray) : list row :=
  map (cast_row dt) (stretch n (ra_rows trial)).

(** The rows of the array after the trials were stored from [idx] on. *)
Fixpoint store_trials (dt : fields) (n idx : nat) (trials : list recarray)
    (rows : list (list row)) : list (list row) :=
  match trials with
  | [] => rows
  | t :: trials' => store_trials dt n (S idx) trials' (<[idx := stored dt n t]> rows)
  end.

(** The trial has as many records as the array has columns, or one. *)
Definition fits (n : nat) (trial : recarray) : Prop :=
  length (ra_rows trial) = n \/ length (ra_rows trial) = 1%nat.

(** ** The calls of each phase of [perf_test_multiple] *)

Inductive phase : Type := Starting | Dispatching | Collecting | Cleaning.

(** The calls that each phase can make. *)
Definition in_phase (ph : phase) (c : call) : Prop :=
  match ph, c with
  | Starting, (NewTask _ _ _ _ | ThreadStart _ | PrintMsg _ _) => True
  | Dispatching, Apply _ _ => True
  | Collecting, (Get _ | SetProgress _ | SetDirty _ | EventSet) => True
  | Cleaning, (SetDone _ | EventSet | TaskDelete _ | PrintMsg _ _) => True
  | _, _ => False
  end.

(** [tskmon_client.new_task(...)] and [thread.start()] *)
Definition is_start_call (c : call) : Prop :=
  match c with
  | NewTask _ _ _ _ | ThreadStart _ => True
  | _ => False
  end.

(** [apply(trial_fn)] and [result.get()] *)
Definition is_trial_call (c : call) : Prop :=
  match c with
  | Apply _ _ | Get _ => True
  | _ => False
  end.

(** [thread.done = True] and [task.delete()] *)
Definition is_cleanup_call (c : call) : Prop :=
  match c with
  | SetDone _ | TaskDelete _ => True
  | _ => False
  end.

(** The trial that a [get] returned has as many records as the array has
    columns, or one. *)
Definition get_fits (n : nat) (ev : event) : Prop :=
  match ev with
  | Ev c r =>
      match c return result (resp c) -> Prop with
      | Get _ => fun r => match r with inr trial => fits n trial | inl _ => True end
      | _ => fun _ => True
      end r
  end.

(** Collaborators as [demo], but the collection of a trial raises. *)
Definition failing_get : handler nat := fun c w =>
  match c return result (resp c) * nat with
  | Get _ => (inl (Exception "trial failed"), w)
  | c' => demo c' w
  end.

(** Collaborators as [demo], but the task monitor refuses a new task. *)
Definition failing_new_task : handler nat := fun c w =>
  match c return result (resp c) * nat with
  | NewTask _ _ _ _ => (inl (Exception "no connection"), w)
  | c' => demo c' w
  end.

(** Collaborators as [demo], but the task cannot be deleted. *)
Definition failing_delete : handler nat := fun c w =>
  match c return result (resp c) * nat with
  | TaskDelete _ => (inl (Exception "no connection"), w)
  | c' => demo c' w
  end.

(** What [perf_test_multiple] does after the [if tskmon_client is not None]
    statement. *)
Definition after_start (apply : apply_arg) (trial_fn : trial_args) (n_trials : Z)
    (performance : recarray2) (locals : tskmon_locals) : prog recarray2 :=
  (results <- dispatch apply trial_fn n_trials ;;
   performance <- collect locals results performance ;;
   tk <- load_fast "task" (task locals) ;;
   clean_up locals tk ;;
   Ret performance)%prog.

(** ** Counting the calls of the harness *)

(** The number of events of [tr] that satisfy [P]. *)
Fixpoint tally (P : event -> bool) (tr : list event) : nat :=
  match tr with
  | [] => 0
  | e :: tr' => (if P e then 1 else 0) + tally P tr'
  end.

(** [result.get()] returned. *)
Definition is_collect (e : event) : bool :=
  match kind_of e with Collected => true | _ => false end.

(** [thread.dirty = True] *)
Definition is_report (e : event) : bool :=
  match kind_of e with Dirty true => true | _ => false end.

(** [thread.done = True] *)
Definition is_done_set (e : event) : bool :=
  match call_of e with SetDone true => true | _ => false end.

Definition gets (tr : list event) : nat := tally is_collect tr.
Definition reports (tr : list event) : nat := tally is_report tr.
Definition dones (tr : list event) : nat := tally is_done_set tr.

(** What the harness keeps true of its calls, for [n] trials: it sets
    [dirty] at most once per trial collected, collects at most [n] trials,
    and sets [done] only when it has collected them all. *)
Definition trials_inv (n : nat) (tr : list event) : Prop :=
  (reports tr <= gets tr)%nat /\ (gets tr <= n)%nat /\
  ((1 <= dones tr)%nat -> gets tr = n).

(** The harness has collected [g] trials, set [dirty] at most [r] times,
    and not set [done]. *)
Definition stage (g r : nat) (tr : list event) : Prop :=
  gets tr = g /\ (reports tr <= r)%nat /\ dones tr = 0%nat.

(** ** What the progress thread holds *)

(** Where the thread stands between reading [dirty] and resetting it:
    it has not seen [dirty] set since it last reset it; it has seen it and
    has not yet passed the progress on; it has passed it on and not yet
    reset [dirty]. *)
Inductive token : Type := Idle | Holding | Delivered.

(** The program of the thread, standing at [s]: it reads [done], [dirty]
    and [progress], calls [task.update] only when it has seen [dirty] set,
    resets [dirty] only after [task.update] returned, and writes nothing
    else but the flag of the event; it returns only when it has read
    [done] as true. *)
Fixpoint thread_at (s : token) (p : prog loop_ctl) : Prop :=
  match p with
  | Ret Continue => s = Idle
  | Ret Return => False
  | Raise _ => True
  | Vis c k =>
      match c return (result (resp c) -> prog loop_ctl) -> Prop with
      | GetDone => fun k =>
          s = Idle /\ k (inr true) = Ret Return /\ thread_at Idle (k (inr false))
      | GetDirty => fun k =>
          s = Idle /\ thread_at Holding (k (inr true)) /\ thread_at Idle (k (inr false))
      | GetProgress => fun k => s = Holding /\ forall v, thread_at Holding (k (inr v))
      | TaskUpdate _ _ => fun k =>
          s = Holding /\ thread_at Delivered (k (inr tt)) /\
          forall e, thread_at Idle (k (inl e))
      | SetDirty b => fun k =>
          b = false /\ s = Delivered /\ thread_at Idle (k (inr tt))
      | EventClear | EventWait | Print _ => fun k =>
          s = Idle /\ thread_at Idle (k (inr tt))
      | _ => fun _ => False
      end k
  end.

(** What the thread may still deliver: [d] updates were accepted, [dirty]
    was set [r] times and is now [dirty]. *)
Definition credit (s : token) (d r : nat) (dirty : bool) : Prop :=
  match s with
  | Idle => (d + (if dirty then 1 else 0) <= r)%nat
  | Holding => (d + 1 <= r)%nat
  | Delivered => (d <= r)%nat
  end.

Definition thread_credit (d r n_done : nat) (dirty : bool) (t : thread_state) : Prop :=
  match t with
  | NotStarted => credit Idle d r dirty
  | Running _ (Ret Return) | Finished => (1 <= n_done)%nat /\ credit Idle d r dirty
  | Running _ p => exists s, thread_at s p /\ credit s d r dirty
  | Died _ => (d <= r)%nat
  end.
Arguments thread_credit : simpl never.

(** The invariant of the harness and the thread running together. *)
Definition credit_inv {A W} (cfg : config A W) : Prop :=
  let tr := main_events (c_log cfg) in
  let a := m_attrs (c_mem cfg) in
  (WebProgressThread.done a = true -> (1 <= dones tr)%nat) /\
  thread_credit (length (delivered (c_log cfg))) (reports tr) (dones tr)
    (WebProgressThread.dirty a) (c_thread cfg).

(** The harness runs to its end, then the thread runs. *)
Definition orderly_schedule : list tid :=
  repeat MainThread 10 ++ repeat ProgressThread 2.

(** * Properties *)

(** ** The program logic *)

Section Logic.
Context (inv : list event -> Prop).

Lemma wp_inv {A} (p : prog A) tr post epost :
  wp inv p tr post epost -> inv tr.
Proof. destruct p; simpl; tauto. Qed.

Lemma wp_mono {A} (p : prog A) tr (post post' : list event -> A -> Prop)
    (epost epost' : list event -> exn -> Prop) :
  (forall tr' a, post tr' a -> post' tr' a) ->
  (forall tr' e, epost tr' e -> epost' tr' e) ->
  wp inv p tr post epost -> wp inv p tr post' epost'.
Proof.
  intros Hp He. revert tr.
  induction p as [a|e|c k IH]; simpl; intros tr [Hi H]; split; auto.
Qed.

Lemma wp_bind {A B} (p : prog A) (f : A -> prog B) tr post epost :
  wp inv p tr (fun tr' a => wp inv (f a) tr' post epost) epost ->
  wp inv (bind p f) tr post epost.
Proof.
  revert tr. induction p as [a|e|c k IH]; simpl; intros tr [Hi H].
  - exact H.
  - auto.
  - split; auto.
Qed.

Lemma wp_try_except {A} (p : prog A) (h : exn -> prog A) tr post epost :
  wp inv p tr post (fun tr' e => wp inv (h e) tr' post epost) ->
  wp inv (try_except p h) tr post epost.
Proof.
  revert tr. induction p as [a|e|c k IH]; simpl; intros tr [Hi H].
  - auto.
  - exact H.
  - split; auto.
Qed.

Lemma wp_ret {A} (a : A) tr (post : list event -> A -> Prop) epost :
  inv tr -> post tr a -> wp inv (Ret a) tr post epost.
Proof. simpl; auto. Qed.

Lemma wp_raise {A} e tr (post : list event -> A -> Prop) (epost : list event -> exn -> Prop) :
  inv tr -> epost tr e -> wp inv (@Raise A e) tr post epost.
Proof. simpl; auto. Qed.

Lemma wp_do (c : call) tr (post : list event -> resp c -> Prop) epost :
  inv tr ->
  (forall r, inv (tr ++ [Ev c r])) ->
  (forall x, post (tr ++ [Ev c (inr x)]) x) ->
  (forall e, epost (tr ++ [Ev c (inl e)]) e) ->
  wp inv (do c) tr post epost.
Proof.
  intros Hi Hn Hp He. simpl. split; [exact Hi|].
  intros [e|x]; simpl; auto.
Qed.

Lemma wp_lift {A} (r : result A) tr (post : list event -> A -> Prop) epost :
  inv tr ->
  (forall a, r = inr a -> post tr a) ->
  (forall e, r = inl e -> epost tr e) ->
  wp inv (lift r) tr post epost.
Proof. intros Hi Hp He. destruct r; simpl; auto. Qed.

(** The calls made are never forgotten. *)
Lemma wp_extends {A} (p : prog A) tr post epost :
  wp inv p tr post epost ->
  wp inv p tr
    (fun tr' a => post tr' a /\ exists rest, tr' = tr ++ rest)
    (fun tr' e => epost tr' e /\ exists rest, tr' = tr ++ rest).
Proof.
  revert tr. induction p as [a|e|c k IH]; simpl; intros tr [Hi H];
    (split; [exact Hi|]).
  - split; [exact H|]. exists []. by rewrite app_nil_r.
  - split; [exact H|]. exists []. by rewrite app_nil_r.
  - intros r. eapply wp_mono; [| |apply IH, H].
    + intros tr' a [Hp [rest ->]]. split; [exact Hp|].
      exists (Ev c r :: rest). by rewrite <- app_assoc.
    + intros tr' e [Hp [rest ->]]. split; [exact Hp|].
      exists (Ev c r :: rest). by rewrite <- app_assoc.
Qed.

(** A loop, with an invariant [J] of the elements that remain, the calls
    made and the loop state. *)
Lemma wp_for_each {X S} (J : list X -> list event -> S -> Prop)
    (body : X -> S -> prog S) epost :
  (forall tr s, J [] tr s -> inv tr) ->
  (forall x xs tr s, J (x :: xs) tr s ->
     wp inv (body x s) tr (fun tr' s' => J xs tr' s') epost) ->
  forall xs tr s, J xs tr s ->
  wp inv (for_each xs body s) tr (fun tr' s' => J [] tr' s') epost.
Proof.
  intros Hinv Hbody xs. induction xs as [|x xs IH]; intros tr s HJ; simpl.
  - split; [eauto | exact HJ].
  - fold (bind (body x s) (for_each xs body)). apply wp_bind.
    eapply wp_mono; [| |apply Hbody, HJ]; simpl; auto.
Qed.
End Logic.

(** What the logic says of an execution. *)
Lemma wp_run {A W} inv (h : handler W) (p : prog A) tr0 post epost :
  wp inv p tr0 post epost ->
  forall w tr res w', run h p w = (tr, res, w') ->
  match res with
  | inr a => post (tr0 ++ tr) a
  | inl e => epost (tr0 ++ tr) e
  end.
Proof.
  revert tr0. induction p as [a|e|c k IH]; simpl; intros tr0 [Hi H] w tr res w'.
  - intros [= <- <- <-]. by rewrite app_nil_r.
  - intros [= <- <- <-]. by rewrite app_nil_r.
  - destruct (h c w) as [r w1]. destruct (run h (k r) w1) as [[tr1 res1] w2] eqn:E.
    intros [= <- <- <-]. specialize (IH r _ (H r) _ _ _ _ E).
    by rewrite <- app_assoc in IH.
Qed.

(** Executions of composed programs. *)
Section RunLemmas.
Context {W : Type} (h : handler W).

Lemma run_bind {A B} (p : prog A) (f : A -> prog B) w :
  run h (bind p f) w =
    match run h p w with
    | (tr1, inl e, w1) => (tr1, inl e, w1)
    | (tr1, inr a, w1) =>
        let '(tr2, r, w2) := run h (f a) w1 in (tr1 ++ tr2, r, w2)
    end.
Proof.
  revert w. induction p as [a|e|c k IH]; intros w; simpl.
  - destruct (run h (f a) w) as [[tr r] w2]. reflexivity.
  - reflexivity.
  - destruct (h c w) as [r w1]. rewrite IH.
    destruct (run h (k r) w1) as [[tr1 [e|a]] w2]; [reflexivity|].
    destruct (run h (f a) w2) as [[tr2 r2] w3]. reflexivity.
Qed.

Lemma run_bind_inr {A B} (p : prog A) (f : A -> prog B) w tr b w' :
  run h (bind p f) w = (tr, inr b, w') ->
  exists tr1 a w1 tr2,
    run h p w = (tr1, inr a, w1) /\ run h (f a) w1 = (tr2, inr b, w') /\
    tr = tr1 ++ tr2.
Proof.
  rewrite run_bind. destruct (run h p w) as [[tr1 [e|a]] w1]; [discriminate|].
  destruct (run h (f a) w1) as [[tr2 r] w2] eqn:E. intros [= <- -> <-].
  by exists tr1, a, w1, tr2.
Qed.

Lemma run_do_inr (c : call) w tr x w' :
  run h (do c) w = (tr, inr x, w') -> h c w = (inr x, w') /\ tr = [Ev c (inr x)].
Proof.
  unfold do. simpl. destruct (h c w) as [[e|y] w1]; simpl; [discriminate|].
  by intros [= <- <- <-].
Qed.

Lemma run_lift_inr {A} (r : result A) w tr a w' :
  run h (lift r) w = (tr, inr a, w') -> r = inr a /\ tr = [] /\ w' = w.
Proof. destruct r; simpl; [discriminate|]. by intros [= <- <- <-]. Qed.

Lemma run_ret_inr {A} (x : A) w tr a w' :
  run h (Ret x) w = (tr, inr a, w') -> x = a /\ tr = [] /\ w' = w.
Proof. simpl. by intros [= <- <- <-]. Qed.
End RunLemmas.

(** ** Structured arrays *)

Lemma eqb_string_true (a b : string) : String.eqb a b = true <-> a = b.
Proof. apply String.eqb_eq. Qed.

Lemma eqb_string_false (a b : string) : String.eqb a b = false <-> a <> b.
Proof. apply String.eqb_neq. Qed.

Lemma assoc_app_notin {V} name (l k : list (string * V)) :
  name ∉ map fst l -> assoc name (l ++ k) = assoc name k.
Proof.
  induction l as [|[n v] l IH]; simpl; intros Hn; [reflexivity|].
  rewrite not_elem_of_cons in Hn. destruct Hn as [Hne Hn].
  destruct (String.eqb n name) eqn:E.
  - apply eqb_string_true in E. congruence.
  - auto.
Qed.

Lemma assoc_head {V} name (v : V) (l : list (string * V)) :
  assoc name ((name, v) :: l) = Some v.
Proof. simpl. by rewrite String.eqb_refl. Qed.

Lemma set_field_notin name x (r : row) :
  name ∉ map fst r -> set_field name x r = r.
Proof.
  unfold set_field. induction r as [|[n v] r IH]; simpl; intros Hn; [reflexivity|].
  rewrite not_elem_of_cons in Hn. destruct Hn as [Hne Hn].
  destruct (String.eqb n name) eqn:E.
  - apply eqb_string_true in E. congruence.
  - by rewrite IH.
Qed.

Lemma set_field_app name x (r s : row) :
  set_field name x (r ++ s) = set_field name x r ++ set_field name x s.
Proof. apply map_app. Qed.

Lemma set_field_head name x y (r : row) :
  name ∉ map fst r -> set_field name x ((name, y) :: r) = (name, x) :: r.
Proof.
  intros Hn. unfold set_field at 1. simpl. rewrite String.eqb_refl.
  f_equal. by apply set_field_notin.
Qed.

Lemma names_zero_row dt : map fst (zero_row dt) = names_of dt.
Proof. unfold zero_row, names_of. rewrite map_map. by apply map_ext. Qed.

Lemma valid_dtype_NoDup dt : valid_dtype dt = true -> NoDup (names_of dt).
Proof. unfold valid_dtype. intros H. by apply bool_decide_eq_true in H. Qed.

Lemma zeros_inr n dt a :
  zeros n dt = inr a ->
  0 <= n /\ NoDup (names_of dt) /\
  a = mk_recarray dt (repeat (zero_row dt) (Z.to_nat n)).
Proof.
  unfold zeros. destruct (n <? 0) eqn:En; [discriminate|].
  destruct (valid_dtype dt) eqn:Ev; [|discriminate].
  intros [= <-]. apply Z.ltb_ge in En. auto using valid_dtype_NoDup.
Qed.

Lemma item_nd_map {A B} (f : A -> B) (a : ndarray A) y :
  item (nd_map f a) = inr y -> exists x, item a = inr x /\ y = f x.
Proof.
  destruct a as [x|xs|n rows]; simpl.
  - intros [= <-]; eauto.
  - destruct xs as [|x [|? ?]]; simpl; try discriminate. intros [= <-]; eauto.
  - destruct n as [|[|n]]; try discriminate.
    destruct rows as [|[|x [|? ?]] [|? ?]]; simpl; try discriminate.
    intros [= <-]; eauto.
Qed.

(** [a[idx][name] = v], on an array whose element [idx] is [cur]. *)
Lemma setitem_inr a idx name v a' rows0 cur :
  ra_rows a = <[idx := cur]> rows0 -> (idx < length rows0)%nat ->
  setitem a idx name v = inr a' ->
  exists d x, assoc name (ra_dtype a) = Some d /\ item v = inr x /\
    a' = mk_recarray (ra_dtype a) (<[idx := set_field name (astype d x) cur]> rows0).
Proof.
  intros Hrows Hlt. unfold setitem. rewrite Hrows.
  rewrite list_lookup_insert_eq by done.
  destruct (assoc name (ra_dtype a)) as [d|]; [|discriminate].
  destruct (item v) as [e|x]; [discriminate|].
  intros [= <-]. exists d, x. repeat split.
  by rewrite list_insert_insert_eq.
Qed.

Lemma params_of_snoc done_ ep ps name d v x :
  params_of done_ ep = inr ps -> getfield ep name = inr v -> item v = inr x ->
  params_of (done_ ++ [(name, d)]) ep = inr (ps ++ [(name, astype d x)]).
Proof.
  revert ps. induction done_ as [|[n0 d0] l IH]; simpl; intros ps Hps Hg Hi.
  - injection Hps as <-. by rewrite Hg, Hi.
  - destruct (getfield ep n0) as [e|v0]; [discriminate|].
    destruct (item v0) as [e|x0]; [discriminate|].
    destruct (params_of l ep) as [e|r]; [discriminate|].
    injection Hps as <-. by rewrite (IH r eq_refl Hg Hi).
Qed.

Lemma params_of_names dt ep ps :
  params_of dt ep = inr ps -> map fst ps = names_of dt.
Proof.
  revert ps. induction dt as [|[n d] dt IH]; simpl; intros ps.
  - by intros [= <-].
  - destruct (getfield ep n) as [e|v]; [discriminate|].
    destruct (item v) as [e|x]; [discriminate|].
    destruct (params_of dt ep) as [e|r]; [discriminate|].
    intros [= <-]. simpl. f_equal. by apply IH.
Qed.

(** ** One experiment of a trial *)

(** Steps of the program logic when no invariant is kept and nothing is
    claimed of a run that raises. *)
Ltac wp_call x :=
  apply wp_bind; apply wp_do; [exact Logic.I | intros; exact Logic.I | intros x | intros; exact Logic.I].
Ltac wp_pure x H :=
  apply wp_bind; apply wp_lift; [exact Logic.I | intros x H | intros; exact Logic.I].

Lemma timer_read_stopped inv tic toc tr (post : list event -> Q -> Prop) epost :
  inv tr -> post tr (toc - tic)%Q ->
  wp inv (Timer.delta_t (Timer.mk tic (Some toc))) tr post epost.
Proof. intros Hi Hp. unfold Timer.delta_t. simpl. auto. Qed.

Lemma timing_wp (block : Timer.t -> prog unit) tr (post : list event -> Timer.t -> Prop) :
  (forall tic,
      wp no_inv (block (Timer.mk tic None)) (tr ++ [Ev Time (inr tic)])
        (fun tr' _ => forall toc, post (tr' ++ [Ev Time (inr toc)]) (Timer.mk tic (Some toc)))
        any_exn) ->
  wp no_inv (timing block) tr post any_exn.
Proof.
  intros H. unfold timing, Timer.new, Timer.__init__.
  apply wp_bind. wp_call tic. apply wp_ret; [exact Logic.I|].
  apply wp_bind. eapply wp_mono; [| |apply H]; cbv beta; [|auto].
  intros tr' _ Hpost. unfold Timer.stop. wp_call toc.
  apply wp_ret; [exact Logic.I|]. apply Hpost.
Qed.

(** The loop that copies the experiment parameters into the record. *)
Lemma params_loop_wp ep idx rows0 dt0 pre eps perf tr :
  ra_dtype perf = dt0 ++ eps ->
  NoDup (names_of (dt0 ++ eps)) ->
  map fst pre = names_of dt0 ->
  ra_rows perf = <[idx := pre ++ zero_row eps]> rows0 ->
  (idx < length rows0)%nat ->
  wp no_inv
    (for_each (map fst eps)
       (fun param_name performance =>
          (v <- lift (getfield ep param_name) ;;
           lift (setitem performance idx param_name v))%prog)
       perf) tr
    (fun tr' perf' => tr' = tr /\ exists ps,
         params_of eps ep = inr ps /\
         perf' = mk_recarray (dt0 ++ eps) (<[idx := pre ++ ps]> rows0))
    any_exn.
Proof.
  intros Hdt Hnd Hpre Hrows Hlt.
  set (J := fun (xs : list string) (tr' : list event) (s : recarray) =>
    tr' = tr /\ exists done_ todo ps,
      eps = done_ ++ todo /\ xs = map fst todo /\
      params_of done_ ep = inr ps /\
      s = mk_recarray (dt0 ++ eps) (<[idx := pre ++ ps ++ zero_row todo]> rows0)).
  eapply wp_mono; [| |apply (wp_for_each no_inv J _ any_exn)].
  - intros tr' s (-> & done_ & todo & ps & Heps & Hxs & Hps & ->). split; [done|].
    symmetry in Hxs. apply map_eq_nil in Hxs. subst todo.
    rewrite app_nil_r in Heps. subst done_. exists ps.
    rewrite app_nil_r. split; [exact Hps | reflexivity].
  - auto.
  - intros; exact Logic.I.
  - intros x xs tr' s (-> & done_ & todo & ps & Heps & Hxs & Hps & ->).
    destruct todo as [|[n d] todo]; [discriminate|].
    simpl in Hxs. injection Hxs as -> ->.
    assert (Hnames : names_of (dt0 ++ eps)
                     = names_of (dt0 ++ done_) ++ n :: names_of todo).
    { rewrite Heps. unfold names_of. rewrite !map_app. simpl.
      by rewrite <- app_assoc. }
    rewrite Hnames in Hnd. apply NoDup_app in Hnd as (Hnd1 & Hnd2 & Hnd3).
    apply NoDup_cons in Hnd3 as [Hn3 _].
    assert (Hn12 : n ∉ names_of (dt0 ++ done_)).
    { intros Hin. apply (Hnd2 n Hin). left. }
    wp_pure v Hv.
    apply wp_lift; [exact Logic.I | | intros; exact Logic.I].
    intros s' Hs'.
    eapply setitem_inr in Hs' as (d' & y & Hd' & Hy & ->); [|reflexivity|done].
    simpl in Hd'. rewrite Heps in Hd'.
    rewrite (app_assoc dt0 done_) in Hd'.
    rewrite assoc_app_notin in Hd' by exact Hn12.
    rewrite assoc_head in Hd'. injection Hd' as <-.
    split; [done|].
    exists (done_ ++ [(n, d)]), todo, (ps ++ [(n, astype d y)]).
    split; [by rewrite <- app_assoc|]. split; [done|].
    split; [by apply params_of_snoc with v|].
    simpl. f_equal. f_equal.
    rewrite (app_assoc pre ps), set_field_app.
    rewrite set_field_notin.
    2:{ rewrite map_app, Hpre, (params_of_names _ _ _ Hps).
        unfold names_of in Hn12. by rewrite map_app in Hn12. }
    simpl zero_row. rewrite set_field_head.
    2:{ rewrite names_zero_row. exact Hn3. }
    rewrite <- !app_assoc. reflexivity.
  - split; [done|]. exists [], eps, []. repeat split.
    destruct perf as [dt rows]. simpl in Hdt, Hrows. by subst.
Qed.

Lemma fixed_names_fresh (eps : fields) name :
  NoDup (names_of (PERFORMANCE_DTYPE ++ eps)) ->
  name ∈ names_of PERFORMANCE_DTYPE -> name ∉ map fst (zero_row eps).
Proof.
  unfold names_of at 1. rewrite map_app. intros Hnd Hin.
  apply NoDup_app in Hnd as (_ & Hnd & _).
  rewrite names_zero_row. by apply Hnd.
Qed.

(** One experiment: the calls it makes, in order, and the record it
    writes into element [idx]. *)
Lemma perf_test_body_wp model true_model true_mps updater heuristic idx perf tr rows0 :
  ra_dtype perf = PERFORMANCE_DTYPE ++ Model.expparams_dtype model ->
  NoDup (names_of (ra_dtype perf)) ->
  ra_rows perf = <[idx := zero_row (ra_dtype perf)]> rows0 ->
  (idx < length rows0)%nat ->
  wp no_inv (perf_test_body model true_model true_mps updater heuristic idx perf) tr
    (fun tr' perf' => exists o r,
        tr' = tr ++ iteration_events true_model true_mps updater heuristic o /\
        record_of model true_mps o = inr r /\
        perf' = mk_recarray (ra_dtype perf) (<[idx := r]> rows0))
    any_exn.
Proof.
  intros Hdt Hnd Hrows Hlt. unfold perf_test_body.
  destruct perf as [dt rows]. simpl in Hdt, Hnd, Hrows. subst dt rows.
  set (eps := Model.expparams_dtype model) in *.
  assert (Hfresh := fixed_names_fresh eps).
  wp_call ep. wp_call datum.
  apply wp_bind. apply timing_wp. intros tic.
  apply wp_do; [exact Logic.I | intros; exact Logic.I | intros [] toc | intros; exact Logic.I].
  wp_call mean. wp_pure delta Hdelta.
  apply wp_bind. apply timer_read_stopped; [exact Logic.I|].
  wp_pure perf1 H1.
  eapply setitem_inr in H1 as (d1 & x1 & Hd1 & Hx1 & ->); [|reflexivity|done].
  simpl in Hd1, Hx1. injection Hd1 as <-. injection Hx1 as <-.
  wp_pure loss Hloss.
  wp_pure perf2 H2.
  eapply setitem_inr in H2 as (d2 & x2 & Hd2 & Hx2 & ->); [|reflexivity|done].
  simpl in Hd2. injection Hd2 as <-.
  apply item_nd_map in Hx2 as (l & Hl & ->).
  wp_call count.
  wp_pure perf3 H3.
  eapply setitem_inr in H3 as (d3 & x3 & Hd3 & Hx3 & ->); [|reflexivity|done].
  simpl in Hd3, Hx3. injection Hd3 as <-. injection Hx3 as <-.
  wp_pure perf4 H4.
  eapply setitem_inr in H4 as (d4 & x4 & Hd4 & Hx4 & ->); [|reflexivity|done].
  simpl in Hd4. injection Hd4 as <-.
  eapply wp_mono; [| |eapply (params_loop_wp ep idx rows0 PERFORMANCE_DTYPE
    [("loss", F l); ("resample_count", I count);
     ("elapsed_time", F (toc - tic)%Q); ("outcome", astype int x4)])].
  - intros tr' perf' (-> & ps & Hps & ->).
    exists (mk_observation ep datum tic toc mean count), (
      [("loss", F l); ("resample_count", I count);
       ("elapsed_time", F (toc - tic)%Q); ("outcome", astype int x4)] ++ ps).
    split; [by rewrite <- !app_assoc|]. split; [|reflexivity].
    unfold record_of, loss_of.
    cbn [o_mean o_datum o_expparams o_tic o_toc o_count]. fold eps.
    by rewrite Hdelta, Hloss, Hl, Hx4, Hps.
  - auto.
  - reflexivity.
  - exact Hnd.
  - reflexivity.
  - simpl. f_equal.
    rewrite (set_field_notin "elapsed_time"), (set_field_notin "loss"),
      (set_field_notin "resample_count"), (set_field_notin "outcome");
      first reflexivity; (apply Hfresh; [exact Hnd | simpl; repeat constructor]).
  - done.
Qed.

(** ** A whole trial *)

Lemma trial_loop_wp model true_model true_mps updater heuristic dt n tr0 :
  dt = PERFORMANCE_DTYPE ++ Model.expparams_dtype model ->
  NoDup (names_of dt) ->
  wp no_inv
    (for_each (seq 0 n)
       (perf_test_body model true_model true_mps updater heuristic)
       (mk_recarray dt (repeat (zero_row dt) n))) tr0
    (fun tr perf => exists os rs,
        tr = tr0 ++ flat_map (iteration_events true_model true_mps updater heuristic) os /\
        length os = n /\
        Forall2 (fun o r => record_of model true_mps o = inr r) os rs /\
        perf = mk_recarray dt rs)
    any_exn.
Proof.
  intros Hdt Hnd.
  set (ev := iteration_events true_model true_mps updater heuristic).
  set (J := fun (xs : list nat) (tr : list event) (s : recarray) =>
    exists os rs,
      xs = seq (length rs) (n - length rs) /\ (length rs <= n)%nat /\
      tr = tr0 ++ flat_map ev os /\
      Forall2 (fun o r => record_of model true_mps o = inr r) os rs /\
      s = mk_recarray dt (rs ++ repeat (zero_row dt) (n - length rs))).
  eapply wp_mono; [| |apply (wp_for_each no_inv J _ any_exn)].
  - intros tr s (os & rs & Hxs & Hle & -> & HF & ->).
    symmetry in Hxs. apply (f_equal length) in Hxs.
    rewrite length_seq in Hxs. simpl in Hxs.
    exists os, rs. split; [done|].
    split; [rewrite (Forall2_length _ _ _ HF); lia|]. split; [done|].
    replace (n - length rs)%nat with 0%nat by lia. simpl. by rewrite app_nil_r.
  - auto.
  - intros; exact Logic.I.
  - intros idx xs tr s (os & rs & Hxs & Hle & -> & HF & ->).
    destruct (n - length rs)%nat as [|k] eqn:Hk; [discriminate|].
    simpl in Hxs. injection Hxs as -> ->.
    eapply wp_mono; [| |eapply (perf_test_body_wp _ _ _ _ _ (length rs) _ _
                          (rs ++ repeat (zero_row dt) (S k)))].
    + intros tr' s' (o & r & -> & Hr & ->). simpl.
      exists (os ++ [o]), (rs ++ [r]). rewrite !length_app. simpl.
      split; [f_equal; lia|]. split; [lia|].
      split; [rewrite flat_map_app, app_assoc; f_equal; apply app_nil_r|].
      split; [apply Forall2_app; [done|by constructor]|].
      f_equal. rewrite insert_app_r_alt by lia.
      rewrite Nat.sub_diag. simpl. rewrite <- app_assoc. simpl.
      do 3 f_equal. lia.
    + auto.
    + exact Hdt.
    + exact Hnd.
    + simpl. rewrite insert_app_r_alt by lia. by rewrite Nat.sub_diag.
    + rewrite length_app, repeat_length. lia.
  - exists [], []. simpl. rewrite Nat.sub_0_r, app_nil_r. repeat split; auto. lia.
Qed.

Lemma perf_test_wp model n_particles prior n_exp heuristic_class
    true_model true_prior given :
  wp no_inv
    (perf_test model n_particles prior n_exp heuristic_class
       true_model true_prior given) []
    (trial_outcome model n_particles prior n_exp heuristic_class
       true_model true_prior given)
    any_exn.
Proof.
  unfold perf_test.
  apply wp_bind.
  assert (Hgiven : forall tr (post : list event -> ndarray Q -> Prop),
    (forall mps, (forall m, given = Some m -> mps = m) ->
       post (tr ++ match given with
                   | None => [Ev (Sample (default prior true_prior)) (inr mps)]
                   | Some _ => []
                   end) mps) ->
    wp no_inv match given with
              | None => do (Sample (default prior true_prior))
              | Some mps => Ret mps
              end tr post any_exn).
  { intros tr post H. destruct given as [m|].
    - apply wp_ret; [exact Logic.I|]. specialize (H m). rewrite app_nil_r in H.
      apply H. by intros ? [= <-].
    - apply wp_do; [exact Logic.I | intros; exact Logic.I | | intros; exact Logic.I].
      intros mps. apply H. discriminate. }
  apply Hgiven. intros true_mps Hmps.
  wp_pure perf0 Hperf0. apply zeros_inr in Hperf0 as (Hn & Hnd & ->).
  wp_call updater. wp_call heuristic.
  eapply wp_mono; [| |apply trial_loop_wp; [reflexivity | exact Hnd]].
  - intros tr perf (os & rs & -> & Hlen & HF & ->).
    exists true_mps, updater, heuristic, os, rs.
    split; [exact Hmps|]. split; [|done].
    unfold setup_events. simpl. by rewrite <- !app_assoc.
  - auto.
Qed.

Lemma perf_test_run {W} (h : handler W) w model n_particles prior n_exp
    heuristic_class true_model true_prior given tr perf w' :
  run h (perf_test model n_particles prior n_exp heuristic_class
           true_model true_prior given) w = (tr, inr perf, w') ->
  trial_outcome model n_particles prior n_exp heuristic_class
    true_model true_prior given tr perf.
Proof.
  intros Hrun.
  exact (wp_run _ h _ [] _ _ (perf_test_wp _ _ _ _ _ _ _ _) _ _ _ _ Hrun).
Qed.

Lemma record_of_inr model true_mps o r :
  record_of model true_mps o = inr r ->
  exists l d ps,
    loss_of model true_mps (o_mean o) = inr l /\
    item (o_datum o) = inr d /\
    params_of (Model.expparams_dtype model) (o_expparams o) = inr ps /\
    r = [("loss", F l); ("resample_count", I (o_count o));
         ("elapsed_time", F (o_toc o - o_tic o)%Q); ("outcome", astype int d)] ++ ps.
Proof.
  unfold record_of.
  destruct (loss_of model true_mps (o_mean o)) as [e|l]; [discriminate|].
  destruct (item (o_datum o)) as [e|d]; [discriminate|].
  destruct (params_of _ _) as [e|ps]; [discriminate|].
  intros [= <-]. by exists l, d, ps.
Qed.

(** Each experiment-parameter field of a record is the value that the
    heuristic chose for that field, cast to the type of the field. *)
Lemma params_of_fields dt ep ps :
  params_of dt ep = inr ps ->
  Forall2 (fun f p => exists v x,
             getfield ep f.1 = inr v /\ item v = inr x /\ p = (f.1, astype f.2 x))
    dt ps.
Proof.
  revert ps. induction dt as [|[n d] dt IH]; simpl; intros ps.
  - intros [= <-]. constructor.
  - destruct (getfield ep n) as [e|v] eqn:Hv; [discriminate|].
    destruct (item v) as [e|x] eqn:Hx; [discriminate|].
    destruct (params_of dt ep) as [e|r]; [discriminate|].
    intros [= <-]. constructor; [|by apply IH].
    by exists v, x.
Qed.

(** ** The claims about a single trial *)

(** C6.  For every experiment index [i] below [n_exp], element [i] of the
    array that [perf_test] returns holds exactly: the loss; the resample
    count that the updater reported after update [i]; the time that elapsed
    between the two clock readings around update [i]; the outcome of
    experiment [i] as an integer; and one field per entry of the model's
    [expparams_dtype], holding the experiment parameter that the heuristic
    chose for experiment [i]. *)
Theorem perf_test_records {W} (h : handler W) w model n_particles prior n_exp
    heuristic_class true_model true_prior given tr perf w' :
  run h (perf_test model n_particles prior n_exp heuristic_class
           true_model true_prior given) w = (tr, inr perf, w') ->
  exists true_mps updater heuristic os,
    (forall mps, given = Some mps -> true_mps = mps) /\
    tr = setup_events model n_particles prior heuristic_class
           (default prior true_prior) given true_mps updater heuristic
         ++ flat_map (iteration_events (default model true_model) true_mps
                        updater heuristic) os /\
    length os = Z.to_nat n_exp /\
    length (ra_rows perf) = Z.to_nat n_exp /\
    ra_dtype perf = PERFORMANCE_DTYPE ++ Model.expparams_dtype model /\
    forall i o, os !! i = Some o ->
      exists l d ps,
        ra_rows perf !! i =
          Some ([("loss", F l);
                 ("resample_count", I (o_count o));
                 ("elapsed_time", F (o_toc o - o_tic o)%Q);
                 ("outcome", astype int d)] ++ ps) /\
        loss_of model true_mps (o_mean o) = inr l /\
        item (o_datum o) = inr d /\
        Forall2 (fun f p => exists v x,
                   getfield (o_expparams o) f.1 = inr v /\ item v = inr x /\
                   p = (f.1, astype f.2 x))
          (Model.expparams_dtype model) ps.
Proof.
  intros Hrun. apply perf_test_run in Hrun
    as (true_mps & updater & heuristic & os & rs & Hmps & Htr & Hlen & HF & ->).
  exists true_mps, updater, heuristic, os. repeat split; try done.
  - simpl. by rewrite <- (Forall2_length _ _ _ HF).
  - intros i o Ho. simpl.
    destruct (Forall2_lookup_l _ _ _ _ _ HF Ho) as (r & Hr & Hrec).
    apply record_of_inr in Hrec as (l & d & ps & Hl & Hd & Hps & ->).
    exists l, d, ps. repeat split; try done. by apply params_of_fields.
Qed.

Lemma perf_test_records_witness :
  exists tr perf w',
    run demo (perf_test demo_model 100 1%nat 2 3%nat None None None) 0%nat
      = (tr, inr perf, w') /\
    length (ra_rows perf) = 2%nat /\
    ra_dtype perf = PERFORMANCE_DTYPE ++ [("t", float)].
Proof.
  eexists _, _, _. split; [vm_compute; reflexivity|].
  destruct (perf_test_records demo 0%nat demo_model 100 1%nat 2 3%nat
              None None None _ _ _ eq_refl)
    as (_ & _ & _ & _ & _ & _ & _ & Hlen & Hdt & _).
  exact (conj Hlen Hdt).
Defined.

(** C7.  In every experiment of a trial that runs to its end the calls
    come in this order: the heuristic is called, with no argument, and
    answers the experiment parameters; [simulate_experiment] of the true
    model is called with the true parameters and these experiment
    parameters and answers the outcome; [update] of the updater is called
    with this outcome and these experiment parameters, between two readings
    of the clock; only then the posterior mean and the resample count are
    read, from which the record is computed.  The updater is constructed
    once, before the first experiment, from the model, the number of
    particles and the prior, and the heuristic once, from that updater. *)
Theorem perf_test_call_order {W} (h : handler W) w model n_particles prior n_exp
    heuristic_class true_model true_prior given tr perf w' :
  run h (perf_test model n_particles prior n_exp heuristic_class
           true_model true_prior given) w = (tr, inr perf, w') ->
  exists true_mps updater heuristic os,
    (forall mps, given = Some mps -> true_mps = mps) /\
    length os = Z.to_nat n_exp /\
    tr = match given with
         | None => [Ev (Sample (default prior true_prior)) (inr true_mps)]
         | Some _ => []
         end
         ++ [Ev (NewUpdater model n_particles prior) (inr updater);
             Ev (NewHeuristic heuristic_class updater) (inr heuristic)]
         ++ flat_map (fun o =>
              [Ev (CallHeuristic heuristic) (inr (o_expparams o));
               Ev (Simulate (default model true_model) true_mps (o_expparams o))
                  (inr (o_datum o));
               Ev Time (inr (o_tic o));
               Ev (Update updater (o_datum o) (o_expparams o)) (inr tt);
               Ev Time (inr (o_toc o));
               Ev (EstMean updater) (inr (o_mean o));
               Ev (ResampleCount updater) (inr (o_count o))]) os.
Proof.
  intros Hrun. apply perf_test_run in Hrun
    as (true_mps & updater & heuristic & os & rs & Hmps & Htr & Hlen & HF & ->).
  exists true_mps, updater, heuristic, os. repeat split; try done.
  rewrite Htr. unfold setup_events. by rewrite <- app_assoc.
Qed.

Lemma perf_test_call_order_witness :
  exists tr perf w',
    run demo (perf_test demo_model 100 1%nat 2 3%nat None None None) 0%nat
      = (tr, inr perf, w') /\
    exists os : list observation, length os = 2%nat.
Proof.
  eexists _, _, _. split; [vm_compute; reflexivity|].
  destruct (perf_test_call_order demo 0%nat demo_model 100 1%nat 2 3%nat
              None None None _ _ _ eq_refl)
    as (_ & _ & _ & os & _ & Hlen & _).
  exists os. exact Hlen.
Defined.

(** ** The timer *)

Lemma timer_new_run {W} (h : handler W) w tr t w' :
  run h Timer.new w = (tr, inr t, w') ->
  exists tic, tr = [Ev Time (inr tic)] /\ t = Timer.mk tic None.
Proof.
  unfold Timer.new, Timer.__init__. simpl.
  destruct (h Time w) as [[e|tic] w1]; simpl; [discriminate|].
  intros [= <- <- <-]. by exists tic.
Qed.

Lemma timer_stop_run {W} (h : handler W) self w tr t w' :
  run h (Timer.stop self) w = (tr, inr t, w') ->
  exists toc, tr = [Ev Time (inr toc)] /\ t = Timer.mk (Timer._tic self) (Some toc).
Proof.
  unfold Timer.stop. simpl.
  destruct (h Time w) as [[e|toc] w1]; simpl; [discriminate|].
  intros [= <- <- <-]. by exists toc.
Qed.

Lemma timer_read_frozen {W} (h : handler W) tic toc w :
  run h (Timer.delta_t (Timer.mk tic (Some toc))) w = ([], inr (toc - tic)%Q, w).
Proof. reflexivity. Qed.

Lemma timing_run {W} (h : handler W) block w tr t w' :
  run h (timing block) w = (tr, inr t, w') ->
  exists tic toc trb w1 w2,
    h Time w = (inr tic, w1) /\
    run h (block (Timer.mk tic None)) w1 = (trb, inr tt, w2) /\
    h Time w2 = (inr toc, w') /\
    tr = Ev Time (inr tic) :: trb ++ [Ev Time (inr toc)] /\
    t = Timer.mk tic (Some toc).
Proof.
  unfold timing, Timer.new, Timer.__init__, Timer.stop.
  rewrite !run_bind. simpl.
  destruct (h Time w) as [[e|tic] w1] eqn:Htic; simpl; [discriminate|].
  rewrite run_bind.
  destruct (run h (block _) w1) as [[trb [e|[]]] w2] eqn:Hb; [discriminate|].
  simpl. destruct (h Time w2) as [[e|toc] w3] eqn:Htoc; simpl; [discriminate|].
  intros [= <- <- <-].
  exists tic, toc, trb, w1, w2. by repeat split.
Qed.

(** C10.  Timer readings are stable after stopping.  (1) A timer created at
    clock reading [tic] and stopped at clock reading [toc] reads
    [toc - tic]; reading it does not consult the clock, so every later read
    returns the same value, whatever the clock says by then.  (2) A [with
    timing() as t] block that is left normally has called [stop]: [t] was
    created at the clock reading just before the block and stopped at the
    one just after it.  (3) The [elapsed_time] that a trial records for an
    experiment is the difference of the two clock readings around its
    update.  (4) A block that raises leaves the [with] statement by its
    exception and [stop] is not called: the clock is not read after the
    block, and the timer that the block was given still runs, every read
    of it consults the clock and returns the reading of that moment minus
    the one of its creation. *)
Theorem timer_frozen_after_stop :
  (forall (W : Type) (h : handler W) w0 w1 w2 w3 tr0 tr1 t0 t1,
      run h Timer.new w0 = (tr0, inr t0, w1) ->
      run h (Timer.stop t0) w2 = (tr1, inr t1, w3) ->
      exists tic toc,
        tr0 = [Ev Time (inr tic)] /\ tr1 = [Ev Time (inr toc)] /\
        forall (W' : Type) (h' : handler W') w',
          run h' (Timer.delta_t t1) w' = ([], inr (toc - tic)%Q, w')) /\
  (forall (W : Type) (h : handler W) block w tr t w',
      run h (timing block) w = (tr, inr t, w') ->
      exists tic toc trb w1 w2,
        tr = Ev Time (inr tic) :: trb ++ [Ev Time (inr toc)] /\
        run h (block (Timer.mk tic None)) w1 = (trb, inr tt, w2) /\
        forall (W' : Type) (h' : handler W') w'',
          run h' (Timer.delta_t t) w'' = ([], inr (toc - tic)%Q, w'')) /\
  (forall (W : Type) (h : handler W) w model n_particles prior n_exp heuristic_class
          true_model true_prior given tr perf w',
      run h (perf_test model n_particles prior n_exp heuristic_class
               true_model true_prior given) w = (tr, inr perf, w') ->
      exists true_mps updater heuristic os,
        tr = setup_events model n_particles prior heuristic_class
               (default prior true_prior) given true_mps updater heuristic
             ++ flat_map (iteration_events (default model true_model) true_mps
                            updater heuristic) os /\
        forall i o, os !! i = Some o ->
          exists r, ra_rows perf !! i = Some r /\
            assoc "elapsed_time" r = Some (F (o_toc o - o_tic o)%Q)) /\
  (forall (W : Type) (h : handler W) block w tic w1 trb e w2,
      h Time w = (inr tic, w1) ->
      run h (block (Timer.mk tic None)) w1 = (trb, inl e, w2) ->
      run h (timing block) w = (Ev Time (inr tic) :: trb, inl e, w2) /\
      forall (W' : Type) (h' : handler W') w' now w'',
        h' Time w' = (inr now, w'') ->
        run h' (Timer.delta_t (Timer.mk tic None)) w'
        = ([Ev Time (inr now)], inr (now - tic)%Q, w'')).
Proof.
  split; [|split; [|split]].
  - intros W h w0 w1 w2 w3 tr0 tr1 t0 t1 Hnew Hstop.
    apply timer_new_run in Hnew as (tic & -> & ->).
    apply timer_stop_run in Hstop as (toc & -> & ->).
    exists tic, toc. split; [done|]. split; [done|].
    intros W' h' w'. apply timer_read_frozen.
  - intros W h block w tr t w' Hrun.
    apply timing_run in Hrun as (tic & toc & trb & w1 & w2 & _ & Hb & _ & -> & ->).
    exists tic, toc, trb, w1, w2. split; [done|]. split; [done|].
    intros W' h' w''. apply timer_read_frozen.
  - intros W h w model n_particles prior n_exp heuristic_class
      true_model true_prior given tr perf w' Hrun.
    apply perf_test_run in Hrun
      as (true_mps & updater & heuristic & os & rs & Hmps & Htr & Hlen & HF & ->).
    exists true_mps, updater, heuristic, os. split; [done|].
    intros i o Ho. simpl.
    destruct (Forall2_lookup_l _ _ _ _ _ HF Ho) as (r & Hr & Hrec).
    apply record_of_inr in Hrec as (l & d & ps & _ & _ & _ & ->).
    eexists. split; [exact Hr|]. reflexivity.
  - intros W h block w tic w1 trb e w2 Htic Hb. split.
    + unfold timing, Timer.new, Timer.__init__.
      rewrite !run_bind. simpl. rewrite Htic. simpl.
      rewrite run_bind. by rewrite Hb.
    + intros W' h' w' now w'' Hnow. unfold Timer.delta_t. simpl.
      by rewrite Hnow.
Qed.

Lemma timer_frozen_after_stop_witness :
  exists tr0 tr1 t0 t1,
    run demo Timer.new 3%nat = (tr0, inr t0, 4%nat) /\
    run demo (Timer.stop t0) 9%nat = (tr1, inr t1, 10%nat) /\
    exists tic toc,
      tr0 = [Ev Time (inr tic)] /\ tr1 = [Ev Time (inr toc)] /\
      forall (W' : Type) (h' : handler W') w',
        run h' (Timer.delta_t t1) w' = ([], inr (toc - tic)%Q, w').
Proof.
  eexists _, _, _, _.
  split; [vm_compute; reflexivity|]. split; [vm_compute; reflexivity|].
  destruct timer_frozen_after_stop as (H & _ & _).
  exact (H nat demo 3%nat 4%nat 9%nat 10%nat _ _ _ _ eq_refl eq_refl).
Defined.

(** C10, as stated, fails: [timing()] does not call [stop] when the block
    is left by an exception.  The block raises at once: the clock was read
    once, at the creation of the timer, and not again; and two reads of the
    timer that the block was given differ. *)
Lemma timing_block_raises_unstopped :
  run demo (timing (fun _ => Raise (Exception "block failed"))) 3%nat
  = ([Ev Time (inr 3%Q)], inl (Exception "block failed"), 4%nat) /\
  run demo (t <- Timer.delta_t (Timer.mk 3 None) ;;
            t' <- Timer.delta_t (Timer.mk 3 None) ;;
            Ret (t, t'))%prog 4%nat
  = ([Ev Time (inr 4%Q); Ev Time (inr 5%Q)], inr (4 - 3, 5 - 3)%Q, 6%nat) /\
  ~ (4 - 3 == 5 - 3)%Q.
Proof.
  split; [vm_compute; reflexivity|]. split; [vm_compute; reflexivity|].
  intros H. vm_compute in H. discriminate.
Qed.

(** ** The loss *)

Lemma inner_cons x xs y ys : inner (x :: xs) (y :: ys) = (x * y + inner xs ys)%Q.
Proof. reflexivity. Qed.

Lemma inner_zeros n ys : (inner (repeat 0%Q n) ys == 0)%Q.
Proof.
  revert ys. induction n as [|n IH]; intros [|y ys]; simpl repeat;
    try reflexivity.
  rewrite inner_cons, IH. ring.
Qed.

Lemma inner_map_ext {X} (f g : X -> Q) xs (l : list X) :
  (forall r, f r == g r)%Q -> (inner xs (map f l) == inner xs (map g l))%Q.
Proof.
  intros Hfg. revert l. induction xs as [|x xs IH]; intros [|r l]; simpl map;
    try reflexivity.
  rewrite !inner_cons, IH, (Hfg r). reflexivity.
Qed.

Lemma square_times x : (Qpower x 2 == x * x)%Q.
Proof. simpl. reflexivity. Qed.

(** The quadratic form of a diagonal matrix is the weighted sum of the
    squares. *)
Lemma quadratic_form_diag d q :
  (quadratic_form d (diag q) == inner (map (fun x => Qpower x 2) d) q)%Q.
Proof.
  unfold quadratic_form, bilinear. revert d.
  induction q as [|x q IH]; intros [|d0 d]; try reflexivity.
  cbn [diag map]. rewrite !inner_cons, inner_zeros, map_map.
    rewrite (inner_map_ext (fun r => inner (0%Q :: r) (d0 :: d))
               (fun r => inner r d)).
    2:{ intros r. rewrite inner_cons. ring. }
    rewrite IH, square_times. ring.
Qed.

Lemma wf_row {A} n (r : list A) : wf (Mat n [r]) = true -> length r = n.
Proof.
  simpl. rewrite andb_true_r. apply Nat.eqb_eq.
Qed.

(** [np.dot(delta**2, Q)] for a vector [Q] of weights, when it converts to
    one float: the weighted sum of the squares of the entries of [delta]. *)
Lemma dot_square_weights delta q lo l :
  dot (square delta) (Vec q) = inr lo -> item lo = inr l ->
  length (ravel delta) = length q /\
  (l == inner (map (fun x => Qpower x 2) (ravel delta)) q)%Q.
Proof.
  destruct delta as [x|xs|n rows]; unfold dot, square.
  - destruct q as [|y [|y' q]]; vm_compute wf; cbv iota.
    + intros [= <-]. discriminate.
    + intros [= <-]. intros [= <-]. split; [reflexivity|].
      vm_compute ravel. cbn [map]. rewrite inner_cons. unfold inner. simpl. ring.
    + unfold broadcast2. simpl. intros [= <-]. discriminate.
  - simpl. rewrite length_map.
    destruct (Nat.eqb (length xs) (length q)) eqn:E; [|discriminate].
    apply Nat.eqb_eq in E. intros [= <-] [= <-].
    unfold ravel. simpl. rewrite app_nil_r. split; [done | reflexivity].
  - simpl nd_map. destruct (wf (Mat n (map (map _) rows)) && wf (Vec q)) eqn:Hwf;
      [|discriminate].
    destruct (Nat.eqb n (length q)) eqn:E; [|discriminate].
    apply Nat.eqb_eq in E. intros [= <-].
    destruct rows as [|r [|r' rows]]; simpl; try discriminate.
    intros [= <-]. unfold ravel. simpl. rewrite app_nil_r.
    rewrite andb_true_r in Hwf. apply wf_row in Hwf.
    rewrite length_map in Hwf. split; [congruence | reflexivity].
Qed.

(** ** Arrays of more than one row *)

Lemma zip_with2_length {A B C} (f : A -> B -> C) l k :
  length l = length k -> length (zip_with2 f l k) = length l.
Proof.
  revert k. induction l as [|x l IH]; intros [|y k]; simpl; try done.
  intros [= H]. by rewrite IH.
Qed.

Lemma stretch_length {X} n (l : list X) :
  length l = n \/ length l = 1%nat -> length (stretch n l) = n.
Proof.
  destruct l as [|x [|y l]]; simpl; intros [H|H]; try done.
  - by rewrite repeat_length.
  - by rewrite repeat_length.
Qed.

Lemma bdim_many x y r :
  bdim x y = Some r -> (2 <= x)%nat \/ (2 <= y)%nat ->
  (2 <= r)%nat /\ (x = r \/ x = 1%nat) /\ (y = r \/ y = 1%nat).
Proof.
  unfold bdim.
  destruct (Nat.eqb x y) eqn:E1.
  { apply Nat.eqb_eq in E1. intros [= <-]. lia. }
  destruct (Nat.eqb x 1) eqn:E2.
  { apply Nat.eqb_eq in E2. apply Nat.eqb_neq in E1. intros [= <-]. lia. }
  destruct (Nat.eqb y 1) eqn:E3; [|discriminate].
  apply Nat.eqb_eq in E3. apply Nat.eqb_neq in E1. intros [= <-]. lia.
Qed.

Lemma dims2d_rows {A} (a : ndarray A) : (dims2d a).1 = length (rows2d a).
Proof. by destruct a. Qed.

Lemma many_rows_item {A} (a : ndarray A) :
  many_rows a -> exists msg, item a = inl (ValueError msg).
Proof.
  destruct a as [x|xs|n rows]; simpl; try done.
  intros H. destruct rows as [|r [|r' rows]]; simpl in H; try lia.
  destruct n as [|[|n]]; eauto. destruct r as [|? [|? ?]]; eauto.
Qed.

Lemma many_rows_nd_map {A B} (f : A -> B) (a : ndarray A) :
  many_rows a -> many_rows (nd_map f a).
Proof. destruct a; simpl; try done. by rewrite length_map. Qed.

(** Broadcasting against a matrix of more than one row gives a matrix of
    more than one row, or fails with a [ValueError]. *)
Lemma broadcast2_many {A} (f : A -> A -> A) (a b : ndarray A) :
  many_rows a \/ many_rows b ->
  match broadcast2 f a b with
  | inr d => many_rows d
  | inl e => exists msg, e = ValueError msg
  end.
Proof.
  intros Hmany. unfold broadcast2.
  destruct (wf a && wf b); [|eauto].
  destruct (dims2d a) as [ra ca] eqn:Ea. destruct (dims2d b) as [rb cb] eqn:Eb.
  assert (Hra : ra = length (rows2d a)) by (by rewrite <- dims2d_rows, Ea).
  assert (Hrb : rb = length (rows2d b)) by (by rewrite <- dims2d_rows, Eb).
  destruct (bdim ra rb) as [r|] eqn:Er; [|eauto].
  destruct (bdim ca cb) as [c|]; [|eauto].
  assert (Hmax : exists k, Nat.max (ndim a) (ndim b) = S (S k)).
  { destruct Hmany as [H|H]; [destruct a | destruct b]; try done;
      simpl; [destruct (ndim b) as [|[|[|?]]] | ]; eauto.
    destruct (ndim a) as [|[|[|?]]]; simpl; eauto. }
  destruct Hmax as [k ->]. simpl.
  assert (Hr : (2 <= ra)%nat \/ (2 <= rb)%nat).
  { destruct Hmany as [H|H]; [destruct a | destruct b]; try done;
      simpl in *; injection Ea as <- <- || injection Eb as <- <-; auto. }
  destruct (bdim_many _ _ _ Er Hr) as (Hr2 & Ha & Hb).
  rewrite zip_with2_length; rewrite !stretch_length; rewrite ?length_map; try lia.
Qed.

(** The dot product of a matrix of more than one row has more than one
    element, or fails with a [ValueError]. *)
Lemma dot_many (a b : ndarray Q) :
  many_rows a ->
  match dot a b with
  | inr d => exists msg, item d = inl (ValueError msg)
  | inl e => exists msg, e = ValueError msg
  end.
Proof.
  intros Hmany. destruct a as [x|xs|n rows]; try done. unfold dot.
  destruct (wf (Mat n rows) && wf b); [|eauto].
  destruct b as [y|ys|c rows'].
  - pose proof (broadcast2_many Qmult (Mat n rows) (Scalar y) (or_introl Hmany)) as H.
    destruct (broadcast2 _ _ _); [done|]. by apply many_rows_item.
  - destruct (Nat.eqb n (length ys)); [|eauto].
    simpl in Hmany. destruct rows as [|r [|r' rows]]; simpl in Hmany; try lia.
    simpl. eauto.
  - destruct (Nat.eqb n (length rows')); [|eauto].
    apply many_rows_item. simpl. by rewrite length_map.
Qed.

(** With more than one set of true parameters no loss can be computed. *)
Lemma loss_of_many model true_mps mean :
  many_rows true_mps ->
  exists msg, loss_of model true_mps mean = inl (ValueError msg).
Proof.
  intros Hmany. unfold loss_of, subtract.
  pose proof (broadcast2_many Qminus mean true_mps (or_intror Hmany)) as H.
  destruct (broadcast2 Qminus mean true_mps) as [e|delta].
  { destruct H as [msg ->]. eauto. }
  pose proof (dot_many (square delta) (Model.Q model)
                (many_rows_nd_map _ _ H)) as Hd.
  destruct (dot _ _) as [e|lo]; [destruct Hd as [msg ->]; eauto|].
  exact Hd.
Qed.

(** ** More than one set of true parameters *)

Lemma not_returned_last tr c e (P : Prop) :
  Forall returned (tr ++ [Ev c (inl e)]) -> P.
Proof.
  intros H. apply Forall_app in H as [_ H]. by inversion H.
Qed.

(** One experiment with more than one set of true parameters: it does not
    return; unless a collaborator raises, it raises a [ValueError] after
    the posterior mean has been read. *)
Lemma perf_test_body_many model true_model true_mps updater heuristic perf tr rows0 :
  many_rows true_mps ->
  ra_dtype perf = PERFORMANCE_DTYPE ++ Model.expparams_dtype model ->
  ra_rows perf = <[0%nat := zero_row (ra_dtype perf)]> rows0 ->
  (0 < length rows0)%nat ->
  wp no_inv (perf_test_body model true_model true_mps updater heuristic 0 perf) tr
    (fun _ _ => False)
    (fun tr' e => Forall returned tr' ->
       exists ep datum tic toc mean msg,
         tr' = tr ++ [Ev (CallHeuristic heuristic) (inr ep);
                      Ev (Simulate true_model true_mps ep) (inr datum);
                      Ev Time (inr tic);
                      Ev (Update updater datum ep) (inr tt);
                      Ev Time (inr toc);
                      Ev (EstMean updater) (inr mean)] /\
         e = ValueError msg).
Proof.
  intros Hmany Hdt Hrows Hlt. unfold perf_test_body.
  destruct perf as [dt rows]. simpl in Hdt, Hrows. subst dt rows.
  pose proof (loss_of_many model true_mps) as Hloss.
  unfold loss_of in Hloss.
  apply wp_bind, wp_do; [done|done| |intros e; apply not_returned_last].
  intros ep.
  apply wp_bind, wp_do; [done|done| |intros e; apply not_returned_last].
  intros datum.
  apply wp_bind. unfold timing, Timer.new, Timer.__init__, Timer.stop.
  apply wp_bind, wp_bind, wp_do; [done|done| |intros e; apply not_returned_last].
  intros tic. apply wp_ret; [done|].
  apply wp_bind, wp_do; [done|done| |intros e; apply not_returned_last].
  intros [].
  apply wp_bind, wp_do; [done|done| |intros e; apply not_returned_last].
  intros toc. apply wp_ret; [done|].
  apply wp_bind, wp_do; [done|done| |intros e; apply not_returned_last].
  intros mean. specialize (Hloss mean Hmany). destruct Hloss as [msg Hloss].
  assert (Htrace : forall e, e = ValueError msg ->
    exists ep0 datum0 tic0 toc0 mean0 msg0,
      ((((((tr ++ [Ev (CallHeuristic heuristic) (inr ep)]) ++
           [Ev (Simulate true_model true_mps ep) (inr datum)]) ++
          [Ev Time (inr tic)]) ++ [Ev (Update updater datum ep) (inr tt)]) ++
        [Ev Time (inr toc)]) ++ [Ev (EstMean updater) (inr mean)])
      = tr ++ [Ev (CallHeuristic heuristic) (inr ep0);
               Ev (Simulate true_model true_mps ep0) (inr datum0);
               Ev Time (inr tic0);
               Ev (Update updater datum0 ep0) (inr tt);
               Ev Time (inr toc0);
               Ev (EstMean updater) (inr mean0)] /\
      e = ValueError msg0).
  { intros e ->. exists ep, datum, tic, toc, mean, msg.
    split; [by rewrite <- !app_assoc | done]. }
  apply wp_bind, wp_lift; [done| |].
  2:{ intros e He _. rewrite He in Hloss. apply Htrace. congruence. }
  intros delta Hdelta. rewrite Hdelta in Hloss.
  apply wp_bind, timer_read_stopped; [done|].
  apply wp_bind, wp_lift; [done| |].
  2:{ intros e He. unfold setitem in He. simpl in He.
      rewrite list_lookup_insert_eq in He by done. discriminate. }
  intros perf1 H1.
  eapply setitem_inr in H1 as (d1 & x1 & _ & _ & ->); [|reflexivity|done].
  apply wp_bind, wp_lift; [done| |].
  2:{ intros e He _. rewrite He in Hloss. apply Htrace. congruence. }
  intros lo Hlo. rewrite Hlo in Hloss.
  apply wp_bind, wp_lift; [done| |].
  - intros perf2 H2.
    eapply setitem_inr in H2 as (d2 & x2 & _ & Hx2 & _); [|reflexivity|done].
    apply item_nd_map in Hx2 as (l & Hl & _). congruence.
  - intros e He _. apply Htrace. unfold setitem in He. simpl in He.
    rewrite list_lookup_insert_eq in He by done.
    destruct lo as [x|xs|n rs]; simpl in Hloss; try discriminate.
    + destruct xs as [|x [|y xs]]; simpl in He, Hloss; congruence.
    + destruct n as [|[|n]]; simpl in He, Hloss; try congruence.
      destruct rs as [|[|x [|y r]] [|r' rs]]; simpl in He, Hloss; congruence.
Qed.

Lemma many_rows_dec {A} (a : ndarray A) : {many_rows a} + {~ many_rows a}.
Proof.
  destruct a as [x|xs|n rows]; simpl; try (right; tauto).
  destruct (le_dec 2 (length rows)); [left | right]; done.
Qed.

Lemma zeros_inl n dt e :
  zeros n dt = inl e -> 1 <= n -> valid_dtype dt = true -> False.
Proof.
  unfold zeros. destruct (n <? 0) eqn:E; [apply Z.ltb_lt in E; lia|].
  intros H _ Hv. rewrite Hv in H. discriminate.
Qed.

Lemma perf_test_many_wp model n_particles prior n_exp heuristic_class
    true_model true_prior given :
  1 <= n_exp ->
  wp no_inv
    (perf_test model n_particles prior n_exp heuristic_class
       true_model true_prior given) []
    (fun tr _ => forall true_mps,
         true_mps_of given tr = Some true_mps -> many_rows true_mps -> False)
    (fun tr e => forall true_mps,
         true_mps_of given tr = Some true_mps -> many_rows true_mps ->
         Forall returned tr ->
         valid_dtype (PERFORMANCE_DTYPE ++ Model.expparams_dtype model) = true ->
         exists updater heuristic ep datum tic toc mean msg,
           tr = setup_events model n_particles prior heuristic_class
                  (default prior true_prior) given true_mps updater heuristic
                ++ [Ev (CallHeuristic heuristic) (inr ep);
                    Ev (Simulate (default model true_model) true_mps ep) (inr datum);
                    Ev Time (inr tic);
                    Ev (Update updater datum ep) (inr tt);
                    Ev Time (inr toc);
                    Ev (EstMean updater) (inr mean)] /\
           e = ValueError msg).
Proof.
  intros Hn. unfold perf_test.
  set (tp := default prior true_prior). set (tm := default model true_model).
  (* the true parameters, and the calls made to obtain them *)
  apply wp_bind.
  assert (Hgiven : forall (post : list event -> ndarray Q -> Prop)
                          (epost : list event -> exn -> Prop),
    (given = None -> forall e, epost [Ev (Sample tp) (inl e)] e) ->
    (forall mps tr0,
        tr0 = match given with
              | None => [Ev (Sample tp) (inr mps)]
              | Some _ => []
              end ->
        (forall rest, true_mps_of given (tr0 ++ rest) = Some mps) ->
        post tr0 mps) ->
    wp no_inv match given with
              | None => do (Sample tp)
              | Some mps => Ret mps
              end [] post epost).
  { intros post epost He H. destruct given as [m|].
    - apply wp_ret; [done|]. by apply H.
    - apply wp_do; [done|done| |exact (He eq_refl)]. intros mps. by apply H. }
  apply Hgiven; clear Hgiven.
  { intros -> e mps Hmps. discriminate. }
  intros mps0 tr0 Htr0 Hmps0.
  assert (Hmps : forall rest mps,
             true_mps_of given (tr0 ++ rest) = Some mps -> mps = mps0).
  { intros rest mps H. rewrite Hmps0 in H. congruence. }
  clear Hmps0.
  apply wp_bind, wp_lift; [done| |].
  2:{ intros e He mps _ _ _ Hv. destruct (zeros_inl _ _ _ He Hn Hv). }
  intros perf0 Hperf0. apply zeros_inr in Hperf0 as (_ & Hnd & ->).
  apply wp_bind, wp_do; [done|done| |intros e ? ? ? Hret; exact (not_returned_last _ _ _ _ Hret)].
  intros updater.
  apply wp_bind, wp_do; [done|done| |intros e ? ? ? Hret; exact (not_returned_last _ _ _ _ Hret)].
  intros heuristic.
  destruct (many_rows_dec mps0) as [Hmany|Hfew].
  - unfold xrange. destruct (Z.to_nat n_exp) as [|k] eqn:Hk; [lia|].
    cbn [seq for_each]. apply wp_bind.
    eapply wp_mono; [| |eapply (perf_test_body_many _ _ _ _ _ _ _
                          (repeat (zero_row _) (S k)))].
    + intros tr perf [].
    + cbv beta. intros tr e He mps Hm _ Hret _.
      destruct (He Hret) as (ep & datum & tic & toc & mean & msg & -> & ->).
      rewrite <- !app_assoc in Hm. apply Hmps in Hm as ->.
      exists updater, heuristic, ep, datum, tic, toc, mean, msg.
      split; [|done]. unfold setup_events. rewrite Htr0.
      by rewrite <- !app_assoc.
    + exact Hmany.
    + reflexivity.
    + reflexivity.
    + simpl. lia.
  - eapply wp_mono; [| |apply wp_extends, trial_loop_wp; [reflexivity | exact Hnd]].
    + intros tr perf [_ [rest ->]] mps Hm Hmany.
      rewrite <- !app_assoc in Hm. apply Hmps in Hm as ->. done.
    + intros tr e [_ [rest ->]] mps Hm Hmany.
      rewrite <- !app_assoc in Hm. apply Hmps in Hm as ->. done.
Qed.

(** C3 (amended).  [perf_test] does not validate [true_mps].  When the true
    parameters, given or sampled, form a two-dimensional array of more than
    one row (more than one set of true parameters) and [n_exp >= 1], the
    trial does not return; and unless [np.zeros] refuses the dtype or a
    collaborator raises, the updater and the heuristic are constructed and
    the heuristic call, the simulation and the update of the first
    experiment are performed before a [ValueError] is raised, when the loss
    of the first record is computed or stored. *)
Theorem true_mps_not_validated {W} (h : handler W) w model n_particles prior n_exp
    heuristic_class true_model true_prior given true_mps tr res w' :
  run h (perf_test model n_particles prior n_exp heuristic_class
           true_model true_prior given) w = (tr, res, w') ->
  true_mps_of given tr = Some true_mps ->
  many_rows true_mps ->
  1 <= n_exp ->
  (exists e, res = inl e) /\
  (Forall returned tr ->
   valid_dtype (PERFORMANCE_DTYPE ++ Model.expparams_dtype model) = true ->
   exists updater heuristic ep datum tic toc mean msg,
     tr = setup_events model n_particles prior heuristic_class
            (default prior true_prior) given true_mps updater heuristic
          ++ [Ev (CallHeuristic heuristic) (inr ep);
              Ev (Simulate (default model true_model) true_mps ep) (inr datum);
              Ev Time (inr tic);
              Ev (Update updater datum ep) (inr tt);
              Ev Time (inr toc);
              Ev (EstMean updater) (inr mean)] /\
     res = inl (ValueError msg)).
Proof.
  intros Hrun Hmps Hmany Hn.
  pose proof (wp_run _ h _ [] _ _
                (perf_test_many_wp model n_particles prior n_exp heuristic_class
                   true_model true_prior given Hn) _ _ _ _ Hrun) as H.
  simpl in H. destruct res as [e|perf].
  - split; [eauto|]. intros Hret Hv.
    destruct (H _ Hmps Hmany Hret Hv)
      as (u & hh & ep & datum & tic & toc & mean & msg & -> & ->).
    by exists u, hh, ep, datum, tic, toc, mean, msg.
  - destruct (H _ Hmps Hmany).
Qed.

Lemma true_mps_not_validated_witness :
  exists tr res w',
    run demo (perf_test demo_model 100 1%nat 1 3%nat None None
                (Some (Mat 1 [[1 # 2]; [1 # 3]]%Q))) 0%nat = (tr, res, w') /\
    exists e, res = inl e.
Proof.
  eexists _, _, _. split; [vm_compute; reflexivity|].
  refine (proj1 (true_mps_not_validated demo 0%nat demo_model 100 1%nat 1 3%nat
                   None None (Some (Mat 1 [[1 # 2]; [1 # 3]]%Q)) _ _ _ _
                   eq_refl eq_refl _ _)).
  - simpl. lia.
  - lia.
Defined.

(** C3, as stated, fails: with two sets of true parameters and one
    experiment, the heuristic is called, the experiment is simulated and
    the updater is updated before the error is raised. *)
Lemma no_validation_before_trial :
  run demo (perf_test demo_model 100 1%nat 1 3%nat None None
              (Some (Mat 1 [[1 # 2]; [1 # 3]]%Q))) 0%nat
  = ([Ev (NewUpdater demo_model 100 1%nat) (inr 7%nat);
      Ev (NewHeuristic 3%nat 7%nat) (inr 8%nat);
      Ev (CallHeuristic 8%nat) (inr [("t", Vec [F 3])]);
      Ev (Simulate demo_model (Mat 1 [[1 # 2]; [1 # 3]]%Q) [("t", Vec [F 3])])
         (inr (Mat 1 [[I 1]]));
      Ev Time (inr 0%Q);
      Ev (Update 7%nat (Mat 1 [[I 1]]) [("t", Vec [F 3])]) (inr tt);
      Ev Time (inr 2%Q);
      Ev (EstMean 7%nat) (inr (Vec [1 # 4]%Q))],
     inl (ValueError "setting an array element with a sequence."),
     3%nat).
Proof. vm_compute. reflexivity. Qed.

(** ** The loss, claimed *)

(** C4 (amended).  For every experiment of a trial, the recorded loss is
    [np.dot(delta**2, Q)] with [delta = mean - true], the posterior mean
    after the update minus the true parameters: when the model's [Q] is the
    vector of the loss weights, one per parameter, this is the sum of the
    squared errors weighted by [Q], that is the quadratic form
    [delta^T diag(Q) delta] of the diagonal matrix of these weights. *)
Theorem recorded_loss_diagonal {W} (h : handler W) w model n_particles prior n_exp
    heuristic_class true_model true_prior given q tr perf w' :
  Model.Q model = Vec q ->
  run h (perf_test model n_particles prior n_exp heuristic_class
           true_model true_prior given) w = (tr, inr perf, w') ->
  exists true_mps updater heuristic os,
    (forall mps, given = Some mps -> true_mps = mps) /\
    tr = setup_events model n_particles prior heuristic_class
           (default prior true_prior) given true_mps updater heuristic
         ++ flat_map (iteration_events (default model true_model) true_mps
                        updater heuristic) os /\
    length os = Z.to_nat n_exp /\
    forall i o, os !! i = Some o ->
      exists delta l r,
        subtract (o_mean o) true_mps = inr delta /\
        length (ravel delta) = length q /\
        ra_rows perf !! i = Some r /\
        assoc "loss" r = Some (F l) /\
        (l == inner (map (fun x => Qpower x 2) (ravel delta)) q)%Q /\
        (l == quadratic_form (ravel delta) (diag q))%Q.
Proof.
  intros HQ Hrun. apply perf_test_run in Hrun
    as (true_mps & updater & heuristic & os & rs & Hmps & Htr & Hlen & HF & ->).
  exists true_mps, updater, heuristic, os. repeat split; try done.
  intros i o Ho. simpl.
  destruct (Forall2_lookup_l _ _ _ _ _ HF Ho) as (r & Hr & Hrec).
  apply record_of_inr in Hrec as (l & d & ps & Hl & _ & _ & ->).
  unfold loss_of in Hl. rewrite HQ in Hl.
  destruct (subtract (o_mean o) true_mps) as [e|delta] eqn:Hsub; [discriminate|].
  destruct (dot (square delta) (Vec q)) as [e|lo] eqn:Hdot; [discriminate|].
  destruct (dot_square_weights _ _ _ _ Hdot Hl) as [Hlen' Hsum].
  exists delta, l. eexists.
  split; [reflexivity|]. split; [exact Hlen'|]. split; [exact Hr|].
  split; [reflexivity|]. split; [exact Hsum|].
  by rewrite quadratic_form_diag.
Qed.

Lemma recorded_loss_diagonal_witness :
  exists tr perf w',
    run demo (perf_test demo_model 100 1%nat 2 3%nat None None None) 0%nat
      = (tr, inr perf, w') /\
    exists os : list observation, length os = 2%nat.
Proof.
  eexists _, _, _. split; [vm_compute; reflexivity|].
  destruct (recorded_loss_diagonal demo 0%nat demo_model 100 1%nat 2 3%nat
              None None None [1%Q] _ _ _ eq_refl eq_refl)
    as (_ & _ & _ & os & _ & _ & Hlen & _).
  exists os. exact Hlen.
Defined.

(** C4, as stated, fails: when the model's [Q] is a matrix of
    parameter-count rows and columns, here the 2 x 2 identity, the product
    [np.dot(delta**2, Q)] is not a number and no loss is recorded.  With a
    posterior mean of (1, 0) and true parameters (0, 0) the quadratic form
    is 1; the trial raises. *)
Lemma loss_with_matrix_Q :
  Model.Q matrix_model = Mat 2 [[1; 0]; [0; 1]]%Q /\
  (quadratic_form [1 - 0; 0 - 0] [[1; 0]; [0; 1]] == 1)%Q /\
  run (demo_with (Vec [1; 0]%Q))
      (perf_test matrix_model 100 1%nat 1 3%nat None None
         (Some (Mat 2 [[0; 0]]%Q))) 0%nat
  = ([Ev (NewUpdater matrix_model 100 1%nat) (inr 7%nat);
      Ev (NewHeuristic 3%nat 7%nat) (inr 8%nat);
      Ev (CallHeuristic 8%nat) (inr [("t", Vec [F 3])]);
      Ev (Simulate matrix_model (Mat 2 [[0; 0]]%Q) [("t", Vec [F 3])])
         (inr (Mat 1 [[I 1]]));
      Ev Time (inr 0%Q);
      Ev (Update 7%nat (Mat 1 [[I 1]]) [("t", Vec [F 3])]) (inr tt);
      Ev Time (inr 2%Q);
      Ev (EstMean 7%nat) (inr (Vec [1; 0]%Q))],
     inl (ValueError "setting an array element with a sequence."),
     3%nat).
Proof. split; [reflexivity|]. split; vm_compute; reflexivity. Qed.

(** ** The true parameters and the inference *)

Lemma run_answered_by {A W} (h : handler W) (p : prog A) w tr res w' :
  run h p w = (tr, res, w') -> answered_by h tr w w'.
Proof.
  revert w tr. induction p as [a|e|c k IH]; simpl; intros w tr.
  - by intros [= <- <- <-].
  - by intros [= <- <- <-].
  - destruct (h c w) as [r w1] eqn:Hc.
    destruct (run h (k r) w1) as [[tr1 res1] w2] eqn:E.
    intros [= <- <- <-]. simpl. exists w1. split; [done|]. by eapply IH.
Qed.

Lemma answered_by_app {W} (h : handler W) tr1 tr2 w w' :
  answered_by h (tr1 ++ tr2) w w' <->
  exists w1, answered_by h tr1 w w1 /\ answered_by h tr2 w1 w'.
Proof.
  revert w. induction tr1 as [|[c r] tr1 IH]; intros w; simpl.
  - split; [intros H; by exists w | by intros (w1 & -> & H)].
  - split.
    + intros (w1 & Hc & H). apply IH in H as (w2 & H1 & H2). eauto.
    + intros (w2 & (w1 & Hc & H1) & H2). exists w1. split; [done|].
      apply IH. eauto.
Qed.

(** Two trials that differ in the true parameters only, with collaborators
    whose simulation does not depend on them, observe the same. *)
Lemma same_observations {W} (h : handler W) m mps1 mps2 u hh :
  (forall m a b ep w0, h (Simulate m a ep) w0 = h (Simulate m b ep) w0) ->
  forall os1 os2 w0 w1 w2,
    length os1 = length os2 ->
    answered_by h (flat_map (iteration_events m mps1 u hh) os1) w0 w1 ->
    answered_by h (flat_map (iteration_events m mps2 u hh) os2) w0 w2 ->
    os1 = os2 /\ w1 = w2.
Proof.
  intros Hsim os1. induction os1 as [|o1 os1 IH]; intros [|o2 os2] w0 w1 w2 Hlen;
    try discriminate.
  - simpl. by intros -> ->.
  - injection Hlen as Hlen. simpl flat_map.
    intros (wa & Ha & wb & Hb & wc & Hc & wd & Hd & we & He & wf & Hf & wg & Hg & H1).
    intros (wa' & Ha' & wb' & Hb' & wc' & Hc' & wd' & Hd' & we' & He' & wf' & Hf'
            & wg' & Hg' & H2).
    destruct o1 as [ep1 d1 tic1 toc1 mean1 n1], o2 as [ep2 d2 tic2 toc2 mean2 n2].
    simpl in *.
    rewrite Ha in Ha'. injection Ha' as -> ->.
    rewrite (Hsim m mps1 mps2), Hb' in Hb. injection Hb as -> ->.
    rewrite Hc in Hc'. injection Hc' as -> ->.
    rewrite Hd in Hd'. injection Hd' as ->.
    rewrite He in He'. injection He' as -> ->.
    rewrite Hf in Hf'. injection Hf' as -> ->.
    rewrite Hg in Hg'. injection Hg' as -> ->.
    destruct (IH os2 _ _ _ Hlen H1 H2) as [-> ->]. done.
Qed.

Lemma assoc_cons_ne {V} n name (v : V) (l : list (string * V)) :
  name <> n -> assoc name ((n, v) :: l) = assoc name l.
Proof.
  intros Hne. simpl. destruct (String.eqb n name) eqn:E; [|reflexivity].
  apply String.eqb_eq in E. congruence.
Qed.

Lemma hide_iteration_events m mps1 mps2 u hh os :
  map hide_true_mps (flat_map (iteration_events m mps1 u hh) os)
  = map hide_true_mps (flat_map (iteration_events m mps2 u hh) os).
Proof.
  induction os as [|o os IH]; [reflexivity|].
  simpl. by rewrite IH.
Qed.

(** C8.  The true parameters reach the inference through the simulated
    outcomes only.  Take two trials that differ in the true parameters
    only, run from the same state of collaborators whose simulation answers
    the same whatever true parameters it is passed.  In both the updater is
    constructed from the model, the number of particles and the prior; all
    calls and answers are the same but for the true parameters passed to
    [simulate_experiment]; the collaborators, the updater among them, end in
    the same state; and the records agree in every field but the loss. *)
Theorem true_mps_reach_only_simulation {W} (h : handler W) w
    model n_particles prior n_exp heuristic_class true_model true_prior
    mps1 mps2 tr1 perf1 w1 tr2 perf2 w2 :
  (forall m a b ep w0, h (Simulate m a ep) w0 = h (Simulate m b ep) w0) ->
  run h (perf_test model n_particles prior n_exp heuristic_class
           true_model true_prior (Some mps1)) w = (tr1, inr perf1, w1) ->
  run h (perf_test model n_particles prior n_exp heuristic_class
           true_model true_prior (Some mps2)) w = (tr2, inr perf2, w2) ->
  (exists updater heuristic rest,
      tr1 = Ev (NewUpdater model n_particles prior) (inr updater)
            :: Ev (NewHeuristic heuristic_class updater) (inr heuristic)
            :: rest) /\
  map hide_true_mps tr1 = map hide_true_mps tr2 /\
  w1 = w2 /\
  forall i r1 r2 name,
    ra_rows perf1 !! i = Some r1 -> ra_rows perf2 !! i = Some r2 ->
    name <> "loss" -> assoc name r1 = assoc name r2.
Proof.
  intros Hsim Hrun1 Hrun2.
  pose proof (run_answered_by _ _ _ _ _ _ Hrun1) as Ha1.
  pose proof (run_answered_by _ _ _ _ _ _ Hrun2) as Ha2.
  apply perf_test_run in Hrun1
    as (m1 & u1 & hh1 & os1 & rs1 & Hm1 & -> & Hlen1 & HF1 & ->).
  apply perf_test_run in Hrun2
    as (m2 & u2 & hh2 & os2 & rs2 & Hm2 & -> & Hlen2 & HF2 & ->).
  rewrite (Hm1 _ eq_refl) in *. rewrite (Hm2 _ eq_refl) in *. clear Hm1 Hm2.
  unfold setup_events in *. simpl app in *.
  destruct Ha1 as (wa & Hu1 & wb & Hh1 & Ha1).
  destruct Ha2 as (wa' & Hu2 & wb' & Hh2 & Ha2).
  rewrite Hu1 in Hu2. injection Hu2 as <- <-.
  rewrite Hh1 in Hh2. injection Hh2 as <- <-.
  destruct (same_observations h (default model true_model) mps1 mps2 u1 hh1
              Hsim os1 os2 wb w1 w2)
    as [<- <-]; [congruence|done|done|].
  split; [eauto|]. split.
  { simpl. do 2 f_equal. apply hide_iteration_events. }
  split; [done|].
  intros i r1 r2 name Hr1 Hr2 Hname. simpl in Hr1, Hr2.
  destruct (Forall2_lookup_r _ _ _ _ _ HF1 Hr1) as (o & Ho & Hrec1).
  destruct (Forall2_lookup_r _ _ _ _ _ HF2 Hr2) as (o' & Ho' & Hrec2).
  rewrite Ho in Ho'. injection Ho' as <-.
  apply record_of_inr in Hrec1 as (l1 & d1 & ps1 & _ & Hd1 & Hps1 & ->).
  apply record_of_inr in Hrec2 as (l2 & d2 & ps2 & _ & Hd2 & Hps2 & ->).
  rewrite Hd1 in Hd2. injection Hd2 as <-.
  rewrite Hps1 in Hps2. injection Hps2 as <-.
  cbn [app]. by rewrite !(assoc_cons_ne "loss").
Qed.

Lemma true_mps_reach_only_simulation_witness :
  exists tr1 perf1 w1 tr2 perf2 w2,
    run demo (perf_test demo_model 100 1%nat 2 3%nat None None
                (Some (Vec [1 # 2]%Q))) 0%nat = (tr1, inr perf1, w1) /\
    run demo (perf_test demo_model 100 1%nat 2 3%nat None None
                (Some (Vec [3 # 4]%Q))) 0%nat = (tr2, inr perf2, w2) /\
    w1 = w2.
Proof.
  eexists _, _, _, _, _, _.
  split; [vm_compute; reflexivity|]. split; [vm_compute; reflexivity|].
  refine (proj1 (proj2 (proj2
    (true_mps_reach_only_simulation demo 0%nat demo_model 100 1%nat 2 3%nat
       None None (Vec [1 # 2]%Q) (Vec [3 # 4]%Q) _ _ _ _ _ _ _ eq_refl eq_refl)))).
  intros m a b ep w0. reflexivity.
Defined.

(** ** The multi-trial harness *)

(** Any program satisfies the trivial specification. *)
Lemma wp_any {A} (p : prog A) tr :
  wp no_inv p tr (fun _ _ => True) any_exn.
Proof.
  revert tr. induction p as [a|e|c k IH]; simpl; intros tr; split;
    first [exact Logic.I | intros r; apply IH].
Qed.

Lemma zeros2_inr m n dt a :
  zeros2 m n dt = inr a -> shaped dt (Z.to_nat m) (Z.to_nat n) a.
Proof.
  unfold zeros2. destruct ((m <? 0) || (n <? 0)); [discriminate|].
  destruct (valid_dtype dt); [|discriminate]. intros [= <-].
  repeat split; simpl; [by rewrite repeat_length|].
  apply Forall_forall. intros trial Hin. apply list_elem_of_In, repeat_spec in Hin.
  subst trial. split; [by rewrite repeat_length|].
  apply Forall_forall. intros r Hin. apply list_elem_of_In, repeat_spec in Hin.
  subst r. apply names_zero_row.
Qed.

Lemma names_cast_row dt src : map fst (cast_row dt src) = names_of dt.
Proof. unfold cast_row, names_of. rewrite map_map. by apply map_ext. Qed.

(** [performance[idx, :] = trial] changes neither shape nor fields. *)
Lemma setrow_shaped dt m n a idx b a' :
  shaped dt m n a -> setrow a idx b = inr a' -> shaped dt m n a'.
Proof.
  intros (Hdt & Hn & Hm & HF). unfold setrow.
  destruct (bool_decide (idx < length (ra2_rows a))%nat); [|discriminate].
  destruct (Nat.eqb (length (ra_rows b)) (ra2_ncols a)
            || Nat.eqb (length (ra_rows b)) 1) eqn:E; [|discriminate].
  intros [= <-]. repeat split; simpl; try done.
  - by rewrite length_insert.
  - apply Forall_insert; [done|]. split.
    + rewrite length_map, stretch_length; [done|].
      apply orb_true_iff in E as [E|E]; apply Nat.eqb_eq in E; lia.
    + apply Forall_forall. intros r Hin.
      apply list_elem_of_fmap in Hin as (src & -> & _).
      rewrite Hdt. apply names_cast_row.
Qed.

(** A step of which nothing needs to be known. *)
Ltac wp_skip x :=
  apply wp_bind; eapply wp_mono; [| |apply wp_any];
    [intros ? x _; cbv beta | intros; exact Logic.I].

(** Whatever the arguments, the array that [perf_test_multiple] returns has
    the shape [(n_trials, n_exp)] and the fields of [PERFORMANCE_DTYPE]. *)
Lemma perf_test_multiple_wp n_trials model n_particles prior n_exp
    heuristic_class true_model true_prior apply tskmon_client :
  wp no_inv
    (perf_test_multiple n_trials model n_particles prior n_exp heuristic_class
       true_model true_prior apply tskmon_client) []
    (fun _ perf =>
       shaped PERFORMANCE_DTYPE (Z.to_nat n_trials) (Z.to_nat n_exp) perf)
    any_exn.
Proof.
  unfold perf_test_multiple.
  wp_pure perf0 H0. apply zeros2_inr in H0.
  wp_skip locals. wp_skip results.
  apply wp_bind.
  eapply wp_mono; [| |apply (wp_for_each no_inv
    (fun _ _ s => shaped PERFORMANCE_DTYPE (Z.to_nat n_trials) (Z.to_nat n_exp) s)
    _ any_exn)].
  - intros tr perf Hs. cbv beta. wp_skip tk. wp_skip u.
    apply wp_ret; [exact Logic.I | exact Hs].
  - auto.
  - intros; exact Logic.I.
  - intros [idx result] xs tr s Hs. wp_skip trial.
    wp_pure s' Hs'. apply (setrow_shaped _ _ _ _ _ _ _ Hs) in Hs'.
    apply wp_bind. destruct (thread locals) as [|[th|]]; simpl load_fast.
    + apply wp_raise; done.
    + apply wp_ret; [done|]. wp_call u1. wp_call u2.
      apply wp_bind. destruct (wake_event locals) as [|[ev|]]; simpl load_fast.
      * apply wp_raise; done.
      * apply wp_ret; [done|]. apply wp_bind. apply wp_ret; [done|].
        wp_call u3. apply wp_ret; done.
      * apply wp_ret; [done|]. apply wp_bind. apply wp_raise; done.
    + apply wp_ret; [done|]. apply wp_ret; done.
  - exact H0.
Qed.

(** ** The claims about the multi-trial harness *)

(** C1.  Where the claim and the code part: [apply_serial], the default
    [apply], cannot be instantiated.  Its [__init__] reads the name [fn],
    which is neither a parameter nor a global nor a built-in; whatever the
    arguments, the constructor makes no call and raises [NameError]. *)
Theorem apply_serial_constructor_raises {W} (h : handler W) w args kwargs :
  run h (apply_serial.new args kwargs) w = ([], inl (NameError "fn"), w).
Proof. reflexivity. Qed.

(** The method [get], on a handle that had been constructed, would call the
    function once and keep the value. *)
Lemma apply_serial_get_done self :
  apply_serial._done self = true ->
  apply_serial.get self = Ret (apply_serial._value self, self).
Proof. intros H. unfold apply_serial.get. by rewrite H. Qed.

(** With the default [apply] no trial is ever run: as soon as the first
    trial is dispatched the harness raises [NameError]. *)
Lemma default_apply_raises :
  (run demo (perf_test_multiple 5 demo_model 100 1%nat 2 3%nat None None
               apply_serial_class (Some 9%nat)) 0%nat).1
  = ([Ev (NewTask 9%nat "QInfer Performance Testing" "Testing DemoModel..." 5)
         (inr 5%nat);
      Ev (ThreadStart (WebProgressThread.mk 5%nat the_event)) (inr tt)],
     inl (NameError "fn")).
Proof. vm_compute. reflexivity. Qed.

(** C2.  Where the claim and the code part: with [tskmon_client=None] the
    harness never returns.  The locals [thread] and [task] are assigned
    only when a client is given, and they are read after every trial and
    after the last one. *)
Theorem no_client_never_returns {W} (h : handler W) w n_trials model n_particles
    prior n_exp heuristic_class true_model true_prior apply tr res w' :
  run h (perf_test_multiple n_trials model n_particles prior n_exp
           heuristic_class true_model true_prior apply None) w = (tr, res, w') ->
  exists e, res = inl e.
Proof.
  intros Hrun.
  assert (Hwp : wp no_inv
    (perf_test_multiple n_trials model n_particles prior n_exp
       heuristic_class true_model true_prior apply None) []
    (fun _ _ => False) any_exn).
  { unfold perf_test_multiple.
    wp_pure perf0 H0. apply wp_bind. apply wp_ret; [done|].
    wp_skip results. wp_skip perf. apply wp_bind. simpl. done. }
  pose proof (wp_run _ h _ [] _ _ Hwp _ _ _ _ Hrun) as H.
  destruct res as [e|perf]; [eauto | destruct H].
Qed.

Lemma no_client_never_returns_witness :
  exists tr res w',
    run demo (perf_test_multiple 1 demo_model 100 1%nat 1 3%nat None None
                (apply_capability 0%nat) None) 0%nat = (tr, res, w') /\
    exists e, res = inl e.
Proof.
  eexists _, _, _. split; [vm_compute; reflexivity|].
  exact (no_client_never_returns demo 0%nat 1 demo_model 100 1%nat 1 3%nat
           None None (apply_capability 0%nat) _ _ _ eq_refl).
Defined.

(** With a dispatch capability that works, one trial, and no client: the
    trial is collected and stored, then reading [thread] fails. *)
Lemma no_client_one_trial :
  (run demo (perf_test_multiple 1 demo_model 100 1%nat 1 3%nat None None
               (apply_capability 0%nat) None) 0%nat).1.2
  = inl (UnboundLocalError "thread").
Proof. vm_compute. reflexivity. Qed.

(** With no trial at all and no client, reading [task] fails. *)
Lemma no_client_no_trial :
  (run demo (perf_test_multiple 0 demo_model 100 1%nat 1 3%nat None None
               (apply_capability 0%nat) None) 0%nat).1
  = ([], inl (UnboundLocalError "task")).
Proof. vm_compute. reflexivity. Qed.

(** C5.  Where the claim and the code part: the array that
    [perf_test_multiple] returns has the shape [(n_trials, n_exp)], but it
    is allocated with [PERFORMANCE_DTYPE] alone, so its elements have the
    fields [loss], [resample_count], [elapsed_time] and [outcome] and no
    field for the experiment parameters, which are dropped when a trial is
    stored. *)
Theorem multiple_drops_expparams {W} (h : handler W) w n_trials model n_particles
    prior n_exp heuristic_class true_model true_prior apply tskmon_client
    tr perf w' :
  run h (perf_test_multiple n_trials model n_particles prior n_exp
           heuristic_class true_model true_prior apply tskmon_client) w
    = (tr, inr perf, w') ->
  length (ra2_rows perf) = Z.to_nat n_trials /\
  ra2_ncols perf = Z.to_nat n_exp /\
  ra2_dtype perf = PERFORMANCE_DTYPE /\
  forall trial r, trial ∈ ra2_rows perf -> r ∈ trial ->
    length trial = Z.to_nat n_exp /\
    map fst r = ["loss"; "resample_count"; "elapsed_time"; "outcome"] /\
    forall name, name ∉ names_of PERFORMANCE_DTYPE -> assoc name r = None.
Proof.
  intros Hrun.
  pose proof (wp_run _ h _ [] _ _
                (perf_test_multiple_wp n_trials model n_particles prior n_exp
                   heuristic_class true_model true_prior apply tskmon_client)
                _ _ _ _ Hrun) as (Hdt & Hn & Hm & HF).
  repeat split; try done.
  - rewrite Forall_forall in HF. by apply HF.
  - rewrite Forall_forall in HF. destruct (HF _ H) as [_ Hr].
    rewrite Forall_forall in Hr. by apply Hr.
  - intros name Hname.
    rewrite Forall_forall in HF. destruct (HF _ H) as [_ Hr].
    rewrite Forall_forall in Hr. specialize (Hr _ H0).
    rewrite <- Hr in Hname. clear -Hname.
    induction r as [|[n v] r IH]; [reflexivity|].
    simpl in Hname. apply not_elem_of_cons in Hname as [Hne Hname].
    rewrite assoc_cons_ne by done. by apply IH.
Qed.

Lemma multiple_drops_expparams_witness :
  exists tr perf w',
    run demo (perf_test_multiple 1 demo_model 100 1%nat 1 3%nat None None
                (apply_capability 0%nat) (Some 9%nat)) 0%nat
      = (tr, inr perf, w') /\
    ra2_dtype perf = PERFORMANCE_DTYPE.
Proof.
  eexists _, _, _. split; [vm_compute; reflexivity|].
  exact (proj1 (proj2 (proj2
    (multiple_drops_expparams demo 0%nat 1 demo_model 100 1%nat 1 3%nat
       None None (apply_capability 0%nat) (Some 9%nat) _ _ _ eq_refl)))).
Defined.

(** One trial of one experiment of a model with the experiment parameter
    [t]: the trial's record has the field [t], the array returned has not. *)
Lemma multiple_drops_expparams_example :
  (run demo (perf_test_multiple 1 demo_model 100 1%nat 1 3%nat None None
               (apply_capability 0%nat) (Some 9%nat)) 0%nat).1.2
  = inr (mk_recarray2 PERFORMANCE_DTYPE 1
           [[[("loss", F (1 # 16)); ("resample_count", I 2);
              ("elapsed_time", F 2); ("outcome", I 1)]]]).
Proof. vm_compute. reflexivity. Qed.

(** ** The harness and its progress reports *)












Lemma load_global_fn : load_global "fn" = Raise (NameError "fn").
Proof. reflexivity. Qed.


(** ** What the monitor of the harness implies *)






(** ** The harness and the progress thread together *)


Lemma main_events_snoc_main log e :
  main_events (log ++ [(MainThread, e)]) = main_events log ++ [e].
Proof. unfold main_events. by rewrite flat_map_app. Qed.

Lemma main_events_snoc_thread log e :
  main_events (log ++ [(ProgressThread, e)]) = main_events log.
Proof. unfold main_events. rewrite flat_map_app. simpl. by rewrite app_nil_r. Qed.





Lemma good_write_value m v :
  good (observe m (Ev (SetProgress v) (inr tt))) = true ->
  v = Z.of_nat (S (wrote m)).
Proof.
  unfold observe. simpl. intros H.
  apply andb_true_iff in H as [_ H]. by apply Z.eqb_eq in H.
Qed.





(** ** The claim about the progress reports *)



(** * Further properties of the code *)

(** ** Programs that handle no exception *)

Lemma propagates_bind {A B} (p : prog A) (f : A -> prog B) :
  propagates p -> (forall a, propagates (f a)) -> propagates (bind p f).
Proof.
  intros Hp Hf. induction p as [a|e|c k IH]; simpl; [apply Hf | exact Logic.I |].
  destruct Hp as [He Hk]. split.
  - intros e. by rewrite He.
  - intros x. apply IH, Hk.
Qed.

Lemma propagates_do c : propagates (do c).
Proof. unfold do. simpl. auto. Qed.

Lemma propagates_lift {A} (r : result A) : propagates (lift r).
Proof. by destruct r. Qed.

Lemma propagates_for_each {X S} (xs : list X) (body : X -> S -> prog S) s :
  (forall x s', propagates (body x s')) -> propagates (for_each xs body s).
Proof.
  intros Hb. revert s. induction xs as [|x xs IH]; intros s; simpl; [exact Logic.I|].
  fold (bind (body x s) (for_each xs body)). apply propagates_bind; auto.
Qed.

(** In a run of such a program no call follows a call that raised, and the
    exception of that call is the outcome. *)
Lemma propagates_run {A W} (h : handler W) (p : prog A) w tr res w' :
  propagates p -> run h p w = (tr, res, w') ->
  forall pre ev suf e,
    tr = pre ++ ev :: suf -> raised ev = Some e -> suf = [] /\ res = inl e.
Proof.
  revert w tr. induction p as [a|e0|c k IH]; simpl; intros w tr Hp.
  - intros [= <- <- <-] [|? ?] ? ? ? ?; discriminate.
  - intros [= <- <- <-] [|? ?] ? ? ? ?; discriminate.
  - destruct Hp as [He Hk].
    destruct (h c w) as [r w1]. destruct (run h (k r) w1) as [[tr1 res1] w2] eqn:E.
    intros [= <- <- <-] pre ev suf e Htr Hev.
    destruct pre as [|ev0 pre]; simpl in Htr.
    + injection Htr as <- <-. destruct r as [e1|x]; [|discriminate].
      simpl in Hev. injection Hev as <-.
      rewrite He in E. simpl in E. by injection E as <- <- <-.
    + injection Htr as <- ->. destruct r as [e1|x].
      * rewrite He in E. simpl in E. injection E as E _ _.
        by destruct pre.
      * exact (IH (inr x) _ _ (Hk x) E _ _ _ _ eq_refl Hev).
Qed.

Lemma timer_delta_t_propagates t : propagates (Timer.delta_t t).
Proof.
  unfold Timer.delta_t. destruct (Timer._toc t); simpl; auto.
Qed.

Lemma timing_propagates block :
  (forall t, propagates (block t)) -> propagates (timing block).
Proof.
  intros Hb. unfold timing, Timer.new, Timer.__init__, Timer.stop.
  apply propagates_bind.
  { apply propagates_bind; [exact (propagates_do Time) | intros tic; exact Logic.I]. }
  intros t. apply propagates_bind; [apply Hb|]. intros _.
  apply propagates_bind; [exact (propagates_do Time) | intros toc; exact Logic.I].
Qed.

Ltac propagates_call :=
  unfold do; simpl; split; [reflexivity | intros ?; exact Logic.I].

Ltac propagates_step :=
  apply propagates_bind;
  [first [propagates_call | apply propagates_lift | apply timer_delta_t_propagates]
  |intros ?].

Lemma perf_test_body_propagates model true_model true_mps updater heuristic idx perf :
  propagates (perf_test_body model true_model true_mps updater heuristic idx perf).
Proof.
  unfold perf_test_body.
  do 2 propagates_step.
  apply propagates_bind;
    [apply timing_propagates; intros _; propagates_call | intros t].
  do 9 propagates_step.
  apply propagates_for_each. intros x s'.
  propagates_step. apply propagates_lift.
Qed.

Lemma perf_test_propagates model n_particles prior n_exp heuristic_class
    true_model true_prior given :
  propagates (perf_test model n_particles prior n_exp heuristic_class
                true_model true_prior given).
Proof.
  unfold perf_test.
  apply propagates_bind; [destruct given; [exact Logic.I | propagates_call]|].
  intros true_mps. do 3 propagates_step.
  apply propagates_for_each. intros idx s. apply perf_test_body_propagates.
Qed.

(** [perf_test] handles no exception: when a collaborator raises, no call
    follows, and the trial raises the exception of the collaborator. *)
Theorem perf_test_stops_at_first_failure {W} (h : handler W) w model n_particles
    prior n_exp heuristic_class true_model true_prior given tr res w' :
  run h (perf_test model n_particles prior n_exp heuristic_class
           true_model true_prior given) w = (tr, res, w') ->
  forall pre ev suf e,
    tr = pre ++ ev :: suf -> raised ev = Some e -> suf = [] /\ res = inl e.
Proof.
  apply propagates_run, perf_test_propagates.
Qed.

Lemma perf_test_stops_at_first_failure_witness :
  exists tr res w' pre ev,
    run failing_update (perf_test demo_model 100 1%nat 2 3%nat None None None) 0%nat
      = (tr, res, w') /\
    tr = pre ++ [ev] /\
    raised ev = Some (Exception "update failed") /\
    res = inl (Exception "update failed").
Proof.
  pose (pre := [Ev (Sample 1%nat) (inr (Mat 1 [[1 # 2]]%Q));
                Ev (NewUpdater demo_model 100 1%nat) (inr 7%nat);
                Ev (NewHeuristic 3%nat 7%nat) (inr 8%nat);
                Ev (CallHeuristic 8%nat) (inr [("t", Vec [F 3])]);
                Ev (Simulate demo_model (Mat 1 [[1 # 2]]%Q) [("t", Vec [F 3])])
                   (inr (Mat 1 [[I 1]]));
                Ev Time (inr 0%Q)]).
  pose (ev := Ev (Update 7%nat (Mat 1 [[I 1]]) [("t", Vec [F 3])])
                 (inl (Exception "update failed"))).
  exists (pre ++ [ev]), (inl (Exception "update failed")), 1%nat, pre, ev.
  split; [vm_compute; reflexivity|]. split; [reflexivity|]. split; [reflexivity|].
  exact (proj2 (perf_test_stops_at_first_failure failing_update 0%nat demo_model
                  100 1%nat 2 3%nat None None None (pre ++ [ev])
                  (inl (Exception "update failed")) 1%nat eq_refl pre ev [] _
                  eq_refl eq_refl)).
Defined.

(** ** Arrays that cannot be allocated *)

Lemma zeros_rejects n dt :
  n < 0 \/ ~ NoDup (names_of dt) -> exists msg, zeros n dt = inl (ValueError msg).
Proof.
  intros H. unfold zeros. destruct (n <? 0) eqn:En; [eauto|].
  apply Z.ltb_ge in En. destruct H as [H|H]; [lia|].
  unfold valid_dtype. rewrite bool_decide_eq_false_2 by done. eauto.
Qed.

(** The array of a trial is allocated after the true parameters were
    sampled and before the updater is constructed: with a negative [n_exp],
    or with a model whose experiment parameters repeat a field name or use
    one of [loss], [resample_count], [elapsed_time] and [outcome], the
    trial raises, a [ValueError] when the sampling returned, and the only
    call made is the sampling of the true parameters, when none were
    given. *)
Theorem perf_test_allocation_first {W} (h : handler W) w model n_particles prior
    n_exp heuristic_class true_model true_prior given tr res w' :
  n_exp < 0 \/ ~ NoDup (names_of (PERFORMANCE_DTYPE ++ Model.expparams_dtype model)) ->
  run h (perf_test model n_particles prior n_exp heuristic_class
           true_model true_prior given) w = (tr, res, w') ->
  (exists e, res = inl e) /\
  (Forall returned tr -> exists msg, res = inl (ValueError msg)) /\
  match given with
  | Some _ => tr = []
  | None => exists r, tr = [Ev (Sample (default prior true_prior)) r]
  end.
Proof.
  intros Hbad. apply zeros_rejects in Hbad as [msg Hz].
  unfold perf_test. rewrite run_bind. destruct given as [mps|].
  - cbn [run]. rewrite run_bind, Hz. cbn [lift run]. intros [= <- <- <-].
    split; [eauto|]. split; [eauto | reflexivity].
  - unfold do at 1. cbn [run].
    destruct (h (Sample (default prior true_prior)) w) as [[e|mps] w1]; cbn [run].
    + intros [= <- <- <-]. split; [eauto|]. split; [|eauto].
      intros Hret. exact (not_returned_last [] _ _ _ Hret).
    + rewrite run_bind, Hz. cbn [lift run]. intros [= <- <- <-].
      split; [eauto|]. split; eauto.
Qed.

Lemma perf_test_allocation_first_witness :
  exists tr res w',
    run demo (perf_test demo_model 100 1%nat (-1) 3%nat None None None) 0%nat
      = (tr, res, w') /\
    exists r, tr = [Ev (Sample 1%nat) r].
Proof.
  eexists _, _, _. split; [vm_compute; reflexivity|].
  refine (proj2 (proj2 (perf_test_allocation_first demo 0%nat demo_model 100 1%nat
                          (-1) 3%nat None None None _ _ _ _ eq_refl))).
  left. lia.
Defined.

(** The array of the multi-trial harness is allocated first: with a
    negative [n_trials] or [n_exp] the harness raises [ValueError] before
    it creates a task, starts the progress thread or dispatches a trial. *)
Theorem multiple_rejects_negative_counts {W} (h : handler W) w n_trials model
    n_particles prior n_exp heuristic_class true_model true_prior apply
    tskmon_client :
  n_trials < 0 \/ n_exp < 0 ->
  run h (perf_test_multiple n_trials model n_particles prior n_exp
           heuristic_class true_model true_prior apply tskmon_client) w
  = ([], inl (ValueError "negative dimensions are not allowed"), w).
Proof.
  intros Hneg. unfold perf_test_multiple, zeros2.
  replace ((n_trials <? 0) || (n_exp <? 0)) with true; [reflexivity|].
  symmetry. apply orb_true_iff.
  destruct Hneg; [left | right]; by apply Z.ltb_lt.
Qed.

Lemma multiple_rejects_negative_counts_witness :
  run demo (perf_test_multiple (-1) demo_model 100 1%nat 2 3%nat None None
              (apply_capability 0%nat) (Some 9%nat)) 0%nat
  = ([], inl (ValueError "negative dimensions are not allowed"), 0%nat).
Proof.
  apply multiple_rejects_negative_counts. left. lia.
Defined.

(** ** [apply_serial.get] *)

(** [get] computes at most once.  When [get] returns, the handle is done
    and holds the value returned; if it was done before, nothing was
    called and it is unchanged; if it was not, the function in [_fn] was
    called once, with the arguments kept; and whoever calls [get] again,
    on the handle as [get] left it, is answered the same value without any
    call. *)
Theorem apply_serial_get_once {W} (h : handler W) w self tr v self' w' :
  run h (apply_serial.get self) w = (tr, inr (v, self'), w') ->
  apply_serial._done self' = true /\
  apply_serial._value self' = v /\
  (apply_serial._done self = true -> tr = [] /\ self' = self) /\
  (apply_serial._done self = false ->
   exists fn value,
     apply_serial._fn self = Some fn /\
     run h (invoke fn (apply_serial._args self) (apply_serial._kwargs self)) w
       = (tr, inr value, w') /\
     v = Some value) /\
  forall (W2 : Type) (h2 : handler W2) w2,
    run h2 (apply_serial.get self') w2 = ([], inr (v, self'), w2).
Proof.
  unfold apply_serial.get. destruct (apply_serial._done self) eqn:Hdone; simpl.
  - intros [= <- <- <- <-]. rewrite Hdone.
    split; [done|]. split; [done|]. split; [done|]. split; [done|].
    intros W2 h2 w2. simpl. reflexivity.
  - destruct (apply_serial._fn self) as [fn|] eqn:Hfn; simpl; [|discriminate].
    rewrite run_bind, run_bind.
    destruct (run h (invoke fn (apply_serial._args self) (apply_serial._kwargs self)) w)
      as [[tr1 [e|value]] w1] eqn:Hrun; [discriminate|].
    simpl. intros [= <- <- <- <-]. simpl.
    split; [done|]. split; [done|]. split; [done|].
    split; [|done]. intros _. exists fn, value. by rewrite !app_nil_r.
Qed.

Lemma apply_serial_get_once_witness :
  exists tr v self' w',
    run demo (apply_serial.get (serial_handle demo_trial)) 0%nat
      = (tr, inr (v, self'), w') /\
    apply_serial._done self' = true /\
    forall (W2 : Type) (h2 : handler W2) w2,
      run h2 (apply_serial.get self') w2 = ([], inr (v, self'), w2).
Proof.
  eexists _, _, _, _. split; [vm_compute; reflexivity|].
  destruct (apply_serial_get_once demo 0%nat (serial_handle demo_trial) _ _ _ _
              eq_refl) as (Hdone & _ & _ & _ & Hagain).
  exact (conj Hdone Hagain).
Defined.

(** ** The phases of [perf_test_multiple] *)

Lemma perf_test_multiple_phases n_trials model n_particles prior n_exp
    heuristic_class true_model true_prior apply tskmon_client :
  perf_test_multiple n_trials model n_particles prior n_exp heuristic_class
    true_model true_prior apply tskmon_client
  = (performance <- lift (zeros2 n_trials n_exp PERFORMANCE_DTYPE) ;;
     locals <- match tskmon_client with
               | Some client => start_progress client model n_trials
               | None => Ret (mk_locals Unbound Unbound Unbound)
               end ;;
     results <- dispatch apply
                  (mk_trial_args model n_particles prior n_exp heuristic_class
                     true_model true_prior) n_trials ;;
     performance <- collect locals results performance ;;
     tk <- load_fast "task" (task locals) ;;
     clean_up locals tk ;;
     Ret performance)%prog.
Proof. reflexivity. Qed.

Lemma run_bind_cases {A B W} (h : handler W) (p : prog A) (f : A -> prog B)
    w tr res w' :
  run h (bind p f) w = (tr, res, w') ->
  (exists e, run h p w = (tr, inl e, w') /\ res = inl e) \/
  (exists tr1 a w1 tr2,
      run h p w = (tr1, inr a, w1) /\ run h (f a) w1 = (tr2, res, w') /\
      tr = tr1 ++ tr2).
Proof.
  rewrite run_bind. destruct (run h p w) as [[tr1 [e|a]] w1].
  - intros [= <- <- <-]. left. eauto.
  - destruct (run h (f a) w1) as [[tr2 r] w2] eqn:E. intros [= <- <- <-].
    right. by exists tr1, a, w1, tr2.
Qed.

(** *** The calls a program can make *)

Lemma calls_only_run {A W} (P : call -> Prop) (h : handler W) (p : prog A)
    w tr res w' :
  calls_only P p -> run h p w = (tr, res, w') ->
  Forall (fun ev => P (call_of ev)) tr.
Proof.
  revert w tr. induction p as [a|e|c k IH]; simpl; intros w tr Hp.
  - intros [= <- <- <-]. constructor.
  - intros [= <- <- <-]. constructor.
  - destruct Hp as [Hc Hk]. destruct (h c w) as [r w1].
    destruct (run h (k r) w1) as [[tr1 res1] w2] eqn:E.
    intros [= <- <- <-]. constructor; [exact Hc|]. by eapply IH.
Qed.

Lemma calls_only_bind {A B} (P : call -> Prop) (p : prog A) (f : A -> prog B) :
  calls_only P p -> (forall a, calls_only P (f a)) -> calls_only P (bind p f).
Proof.
  intros Hp Hf. induction p as [a|e|c k IH]; simpl; [apply Hf | exact Logic.I |].
  destruct Hp as [Hc Hk]. split; [exact Hc|]. intros r. apply IH, Hk.
Qed.

Lemma calls_only_try_except {A} (P : call -> Prop) (p : prog A) (f : exn -> prog A) :
  calls_only P p -> (forall e, calls_only P (f e)) -> calls_only P (try_except p f).
Proof.
  intros Hp Hf. induction p as [a|e|c k IH]; simpl; [exact Logic.I | apply Hf |].
  destruct Hp as [Hc Hk]. split; [exact Hc|]. intros r. apply IH, Hk.
Qed.

Lemma calls_only_do (P : call -> Prop) c : P c -> calls_only P (do c).
Proof. intros Hc. unfold do. simpl. split; [exact Hc|]. by intros [e|x]. Qed.

Lemma calls_only_lift {A} (P : call -> Prop) (r : result A) : calls_only P (lift r).
Proof. by destruct r. Qed.

Lemma calls_only_for_each {X S} (P : call -> Prop) (xs : list X)
    (body : X -> S -> prog S) s :
  (forall x s', calls_only P (body x s')) -> calls_only P (for_each xs body s).
Proof.
  intros Hb. revert s. induction xs as [|x xs IH]; intros s; simpl; [exact Logic.I|].
  fold (bind (body x s) (for_each xs body)). apply calls_only_bind; auto.
Qed.

(** *** Runs in which every call returns *)

Ltac not_all_returned H :=
  exfalso; revert H; rewrite !Forall_cons; simpl; tauto.

Lemma returned_app tr1 tr2 :
  Forall returned (tr1 ++ tr2) <-> Forall returned tr1 /\ Forall returned tr2.
Proof. apply Forall_app. Qed.

Lemma start_progress_inr {W} (h : handler W) client model n_trials w tr locals w' :
  run h (start_progress client model n_trials) w = (tr, inr locals, w') ->
  Forall returned tr ->
  exists tk,
    tr = [Ev (NewTask client "QInfer Performance Testing"
                ("Testing " ++ Model.type_name model ++ "...") n_trials) (inr tk);
          Ev (ThreadStart (WebProgressThread.mk tk the_event)) (inr tt)] /\
    locals = started_locals tk.
Proof.
  unfold start_progress. simpl.
  destruct (h (NewTask _ _ _ _) w) as [[e|tk] w1]; simpl.
  - destruct (h (PrintMsg _ _) w1) as [[e'|[]] w2]; simpl;
      intros [= <- ? ?] Hret; not_all_returned Hret.
  - destruct (h (ThreadStart _) w1) as [[e|[]] w2]; simpl.
    + destruct (h (PrintMsg _ _) w2) as [[e'|[]] w3]; simpl;
        intros [= <- ? ?] Hret; not_all_returned Hret.
    + intros [= <- <- <-] _. by exists tk.
Qed.

Lemma dispatch_inr {W} (h : handler W) a fn n :
  forall k results0 w tr results w',
    run h (for_each (seq k n)
             (fun (idx : nat) results =>
                r <- call_apply (apply_capability a) fn ;; Ret (results ++ [r]))%prog
             results0) w = (tr, inr results, w') ->
    exists rs,
      length rs = n /\ tr = dispatch_events a fn rs /\
      results = results0 ++ map AsyncResultOf rs.
Proof.
  induction n as [|n IH]; intros k results0 w tr results w'; simpl.
  - intros [= <- <- <-]. exists []. by rewrite app_nil_r.
  - destruct (h (Apply a fn) w) as [[e|r] w1]; simpl; [discriminate|].
    destruct (run h (for_each (seq (S k) n) _ (results0 ++ [AsyncResultOf r])) w1)
      as [[tr1 res1] w2] eqn:E.
    intros [= <- -> <-].
    apply IH in E as (rs & Hlen & -> & ->).
    exists (r :: rs). simpl. split; [by rewrite Hlen|]. split; [done|].
    by rewrite <- app_assoc.
Qed.

Lemma collect_inr {W} (h : handler W) tk rs :
  forall k perf w tr perf' w',
    run h (for_each (zip (seq k (length rs)) (map AsyncResultOf rs))
             (collect_trial (started_locals tk)) perf) w = (tr, inr perf', w') ->
    exists trials,
      length trials = length rs /\ tr = collect_events k rs trials /\
      Forall (fits (ra2_ncols perf)) trials /\
      perf' = mk_recarray2 (ra2_dtype perf) (ra2_ncols perf)
                (store_trials (ra2_dtype perf) (ra2_ncols perf) k trials
                   (ra2_rows perf)).
Proof.
  induction rs as [|r rs IH]; intros k perf w tr perf' w'; simpl.
  - intros [= <- <- <-]. exists []. simpl. split; [done|]. split; [done|].
    split; [constructor|]. by destruct perf.
  - destruct (h (Get r) w) as [[e|trial] w1]; simpl; [discriminate|].
    destruct (setrow perf k trial) as [e|perf1] eqn:Hset; simpl; [discriminate|].
    destruct (h (SetProgress _) w1) as [[e|[]] w2]; simpl; [discriminate|].
    destruct (h (SetDirty true) w2) as [[e|[]] w3]; simpl; [discriminate|].
    destruct (h EventSet w3) as [[e|[]] w4]; simpl; [discriminate|].
    destruct (run h (for_each (zip (seq (S k) (length rs)) (map AsyncResultOf rs))
                       (collect_trial (started_locals tk)) perf1) w4)
      as [[tr1 res1] w5] eqn:E.
    intros [= <- -> <-].
    apply IH in E as (trials & Hlen & -> & Hfits & ->).
    unfold setrow in Hset.
    destruct (bool_decide (k < length (ra2_rows perf))%nat); [|discriminate].
    destruct (Nat.eqb (length (ra_rows trial)) (ra2_ncols perf)
              || Nat.eqb (length (ra_rows trial)) 1) eqn:Hfit; [|discriminate].
    injection Hset as <-. simpl in *.
    exists (trial :: trials). simpl. split; [by rewrite Hlen|]. split; [done|].
    split; [|done]. constructor; [|done].
    apply orb_true_iff in Hfit as [Hfit|Hfit]; apply Nat.eqb_eq in Hfit;
      [by left | by right].
Qed.

Lemma clean_up_inr {W} (h : handler W) tk w tr w' :
  run h (clean_up (started_locals tk) (Some tk)) w = (tr, inr tt, w') ->
  Forall returned tr ->
  tr = [Ev (SetDone true) (inr tt); Ev EventSet (inr tt);
        Ev (TaskDelete tk) (inr tt)].
Proof.
  unfold clean_up. simpl.
  destruct (h (SetDone true) w) as [[e|[]] w1]; simpl.
  { destruct (h (PrintMsg _ _) w1) as [[e'|[]] w2]; simpl;
      intros [= <- ?] Hret; not_all_returned Hret. }
  destruct (h EventSet w1) as [[e|[]] w2]; simpl.
  { destruct (h (PrintMsg _ _) w2) as [[e'|[]] w3]; simpl;
      intros [= <- ?] Hret; not_all_returned Hret. }
  destruct (h (TaskDelete tk) w2) as [[e|[]] w3]; simpl.
  { destruct (h (PrintMsg _ _) w3) as [[e'|[]] w4]; simpl;
      intros [= <- ?] Hret; not_all_returned Hret. }
  by intros [= <- <-] _.
Qed.

Lemma store_trials_rows dt n trials :
  forall k rows,
    (k + length trials <= length rows)%nat ->
    store_trials dt n k trials rows
    = take k rows ++ map (stored dt n) trials ++ drop (k + length trials) rows.
Proof.
  induction trials as [|t trials IH]; intros k rows Hle; simpl.
  - rewrite Nat.add_0_r. by rewrite take_drop.
  - simpl in Hle. rewrite IH by (rewrite length_insert; lia).
    rewrite (take_S_r _ _ (stored dt n t)) by (apply list_lookup_insert_eq; lia).
    rewrite take_insert_ge by lia.
    rewrite drop_insert_lt by lia.
    replace (S k + length trials)%nat with (k + S (length trials))%nat by lia.
    by rewrite <- app_assoc.
Qed.

(** ** The calls of the multi-trial harness, in order *)

(** When the harness is given a dispatch capability and a task monitor,
    returns, and no call has raised, its calls were, in this order: the
    creation of the task, with [n_trials] as its [max_progress]; the start
    of the progress thread; the dispatch of all [n_trials] trials, before
    any result is collected; then for [idx = 0, 1, ...] the collection of
    the result of trial [idx], in the order of dispatch, each followed by
    the report of [idx + 1]; then [done], the wake-up and the deletion of
    the task.  Row [idx] of the array returned is the result of trial
    [idx], reduced to the fields of [PERFORMANCE_DTYPE], and every result
    had [n_exp] records, or one. *)
Theorem multiple_call_order {W} (h : handler W) w n_trials model n_particles
    prior n_exp heuristic_class true_model true_prior a client tr perf w' :
  run h (perf_test_multiple n_trials model n_particles prior n_exp
           heuristic_class true_model true_prior (apply_capability a)
           (Some client)) w = (tr, inr perf, w') ->
  Forall returned tr ->
  exists tk rs trials,
    length rs = Z.to_nat n_trials /\ length trials = Z.to_nat n_trials /\
    tr = [Ev (NewTask client "QInfer Performance Testing"
                ("Testing " ++ Model.type_name model ++ "...") n_trials) (inr tk);
          Ev (ThreadStart (WebProgressThread.mk tk the_event)) (inr tt)]
         ++ dispatch_events a
              (mk_trial_args model n_particles prior n_exp heuristic_class
                 true_model true_prior) rs
         ++ collect_events 0 rs trials
         ++ [Ev (SetDone true) (inr tt); Ev EventSet (inr tt);
             Ev (TaskDelete tk) (inr tt)] /\
    Forall (fits (Z.to_nat n_exp)) trials /\
    perf = mk_recarray2 PERFORMANCE_DTYPE (Z.to_nat n_exp)
             (map (stored PERFORMANCE_DTYPE (Z.to_nat n_exp)) trials).
Proof.
  rewrite perf_test_multiple_phases. intros Hrun Hret.
  apply run_bind_inr in Hrun as (tr0 & perf0 & w0 & ta & H0 & Hrun & ->).
  apply run_lift_inr in H0 as (Hz & -> & ->). simpl in Hret.
  apply run_bind_inr in Hrun as (tr1 & locals & w1 & tb & H1 & Hrun & ->).
  apply returned_app in Hret as [Hret1 Hret].
  apply start_progress_inr in H1 as (tk & -> & ->); [|exact Hret1].
  apply run_bind_inr in Hrun as (tr2 & results & w2 & tc & H2 & Hrun & ->).
  apply returned_app in Hret as [_ Hret].
  apply dispatch_inr in H2 as (rs & Hlen & -> & ->).
  apply run_bind_inr in Hrun as (tr3 & perf1 & w3 & td & H3 & Hrun & ->).
  apply returned_app in Hret as [_ Hret].
  unfold collect, enumerate in H3. cbn [app] in H3. rewrite length_map in H3.
  apply collect_inr in H3 as (trials & Hlen' & -> & Hfits & ->).
  apply run_bind_inr in Hrun as (tr4 & tk' & w4 & te & H4 & Hrun & ->).
  apply run_ret_inr in H4 as (<- & -> & ->). simpl in Hret.
  apply run_bind_inr in Hrun as (tr5 & [] & w5 & tf & H5 & Hrun & ->).
  apply returned_app in Hret as [Hret5 _].
  apply clean_up_inr in H5 as ->; [|exact Hret5].
  apply run_ret_inr in Hrun as (<- & -> & ->).
  unfold zeros2 in Hz. destruct ((n_trials <? 0) || (n_exp <? 0)); [discriminate|].
  destruct (valid_dtype PERFORMANCE_DTYPE); [|discriminate].
  injection Hz as <-. simpl in *.
  exists tk, rs, trials.
  split; [done|]. split; [congruence|].
  split; [done|]. split; [done|].
  f_equal. rewrite store_trials_rows by (rewrite repeat_length; lia).
  rewrite drop_ge by (rewrite repeat_length; lia).
  by rewrite app_nil_r.
Qed.

Lemma multiple_call_order_witness :
  exists tr perf w' (rs : list AsyncResult) (trials : list recarray),
    run demo (perf_test_multiple 2 demo_model 100 1%nat 1 3%nat None None
                (apply_capability 0%nat) (Some 9%nat)) 0%nat
      = (tr, inr perf, w') /\
    length rs = 2%nat /\ length trials = 2%nat /\
    perf = mk_recarray2 PERFORMANCE_DTYPE 1
             (map (stored PERFORMANCE_DTYPE 1) trials).
Proof.
  destruct (multiple_call_order demo 0%nat 2 demo_model 100 1%nat 1 3%nat
              None None 0%nat 9%nat _ _ _ eq_refl)
    as (tk & rs & trials & Hrs & Htrials & _ & _ & Hperf).
  { vm_compute. repeat constructor. }
  eexists _, _, _, rs, trials. split; [reflexivity|].
  split; [exact Hrs|]. split; [exact Htrials|]. exact Hperf.
Defined.

(** ** The calls of each phase of [perf_test_multiple] *)

Lemma calls_only_for_each_in {X S} (P : call -> Prop) (Q : X -> Prop) (xs : list X)
    (body : X -> S -> prog S) s :
  Forall Q xs -> (forall x s', Q x -> calls_only P (body x s')) ->
  calls_only P (for_each xs body s).
Proof.
  intros HQ Hb. revert s. induction HQ as [|x xs Hx HQ IH]; intros s; simpl;
    [exact Logic.I|].
  fold (bind (body x s) (for_each xs body)). apply calls_only_bind; auto.
Qed.

Lemma propagates_for_each_in {X S} (Q : X -> Prop) (xs : list X)
    (body : X -> S -> prog S) s :
  Forall Q xs -> (forall x s', Q x -> propagates (body x s')) ->
  propagates (for_each xs body s).
Proof.
  intros HQ Hb. revert s. induction HQ as [|x xs Hx HQ IH]; intros s; simpl;
    [exact Logic.I|].
  fold (bind (body x s) (for_each xs body)). apply propagates_bind; auto.
Qed.

Lemma enumerate_async rs :
  Forall (fun x : nat * apply_result => is_async x.2)
    (enumerate (map AsyncResultOf rs)).
Proof.
  unfold enumerate. generalize 0%nat.
  induction rs as [|r rs IH]; intros k; simpl; constructor; [exact Logic.I|].
  apply IH.
Qed.

Ltac calls_call :=
  unfold do; simpl; split; [exact Logic.I | intros [?|?]; exact Logic.I].

Ltac calls_tree :=
  repeat (simpl; first [exact Logic.I | split; [exact Logic.I|]; intros [?|?]]).

Ltac propagates_tree :=
  repeat (simpl; first [exact Logic.I | split; [reflexivity|]; intros ?]).

Lemma start_progress_calls client model n_trials :
  calls_only (in_phase Starting) (start_progress client model n_trials).
Proof. unfold start_progress. calls_tree. Qed.

Lemma dispatch_calls a fn n_trials :
  calls_only (in_phase Dispatching) (dispatch (apply_capability a) fn n_trials).
Proof.
  unfold dispatch. apply calls_only_for_each. intros idx results. calls_tree.
Qed.

Lemma dispatch_propagates a fn n_trials :
  propagates (dispatch (apply_capability a) fn n_trials).
Proof.
  unfold dispatch. apply propagates_for_each. intros idx results. propagates_tree.
Qed.

Lemma collect_trial_calls locals idx r perf :
  calls_only (in_phase Collecting) (collect_trial locals (idx, AsyncResultOf r) perf).
Proof.
  unfold collect_trial.
  apply calls_only_bind; [calls_call | intros trial].
  apply calls_only_bind; [apply calls_only_lift | intros perf'].
  destruct (thread locals) as [|[th|]], (wake_event locals) as [|[ev|]]; calls_tree.
Qed.

Lemma collect_trial_propagates locals idx r perf :
  propagates (collect_trial locals (idx, AsyncResultOf r) perf).
Proof.
  unfold collect_trial.
  apply propagates_bind; [propagates_call | intros trial].
  apply propagates_bind; [apply propagates_lift | intros perf'].
  destruct (thread locals) as [|[th|]], (wake_event locals) as [|[ev|]];
    propagates_tree.
Qed.

Lemma collect_calls locals rs perf :
  calls_only (in_phase Collecting) (collect locals (map AsyncResultOf rs) perf).
Proof.
  unfold collect. eapply calls_only_for_each_in; [apply enumerate_async|].
  intros [idx [s|r]] perf' []. apply collect_trial_calls.
Qed.

Lemma collect_propagates locals rs perf :
  propagates (collect locals (map AsyncResultOf rs) perf).
Proof.
  unfold collect. eapply propagates_for_each_in; [apply enumerate_async|].
  intros [idx [s|r]] perf' []. apply collect_trial_propagates.
Qed.

Lemma clean_up_calls locals tk :
  calls_only (in_phase Cleaning) (clean_up locals tk).
Proof.
  unfold clean_up. destruct tk as [tk|]; [|exact Logic.I].
  destruct (thread locals) as [|[th|]], (wake_event locals) as [|[ev|]]; calls_tree.
Qed.

(** An event of a run belongs to the phase that made it. *)
Lemma phase_excludes ph (Q : call -> Prop) tr ev :
  Forall (fun ev' => in_phase ph (call_of ev')) tr -> ev ∈ tr ->
  Q (call_of ev) -> (forall c, in_phase ph c -> Q c -> False) -> False.
Proof.
  intros HF Hin HQ Hex. rewrite Forall_forall in HF. eauto.
Qed.

Lemma phase_avoids ph (Q : call -> Prop) tr :
  Forall (fun ev' => in_phase ph (call_of ev')) tr ->
  (forall c, in_phase ph c -> Q c -> False) ->
  Forall (fun ev' => ~ Q (call_of ev')) tr.
Proof.
  intros HF Hex. eapply Forall_impl; [exact HF|]. intros ev Hph HQ.
  exact (Hex _ Hph HQ).
Qed.

(** All runs of the dispatch of the trials. *)
Lemma dispatch_run {W} (h : handler W) a fn n_trials w tr res w' :
  run h (dispatch (apply_capability a) fn n_trials) w = (tr, res, w') ->
  match res with
  | inr results =>
      exists rs, results = map AsyncResultOf rs /\ length rs = Z.to_nat n_trials
  | inl e => exists ev, ev ∈ tr /\ raised ev = Some e
  end.
Proof.
  unfold dispatch, xrange. generalize 0%nat.
  assert (H : forall n k results0 w tr res w',
    run h (for_each (seq k n)
             (fun (idx : nat) results =>
                r <- call_apply (apply_capability a) fn ;; Ret (results ++ [r]))%prog
             results0) w = (tr, res, w') ->
    match res with
    | inr results =>
        exists rs, results = results0 ++ map AsyncResultOf rs /\ length rs = n
    | inl e => exists ev, ev ∈ tr /\ raised ev = Some e
    end).
  { clear. induction n as [|n IH]; intros k results0 w tr res w'; simpl.
    - intros [= <- <- <-]. exists []. by rewrite app_nil_r.
    - destruct (h (Apply a fn) w) as [[e|r] w1]; simpl.
      + intros [= <- <- <-]. eexists. split; [left | reflexivity].
      + destruct (run h (for_each (seq (S k) n) _ (results0 ++ [AsyncResultOf r])) w1)
          as [[tr1 res1] w2] eqn:E.
        intros [= <- <- <-]. apply IH in E. destruct res1 as [e|results].
        * destruct E as (ev & Hin & Hev). exists ev. split; [by right | done].
        * destruct E as (rs & -> & <-). exists (r :: rs). simpl.
          by rewrite <- app_assoc. }
  intros k Hrun. apply H in Hrun. destruct res as [e|results]; [done|].
  destruct Hrun as (rs & -> & <-). by exists rs.
Qed.

(** ** A trial that fails *)

(** When the dispatch or the collection of a trial raises, the harness
    raises that exception at once: no call follows, [thread.done] is not
    set and the task is not deleted. *)
Theorem multiple_trial_failure_skips_cleanup {W} (h : handler W) w n_trials model
    n_particles prior n_exp heuristic_class true_model true_prior a tskmon_client
    tr res w' :
  run h (perf_test_multiple n_trials model n_particles prior n_exp
           heuristic_class true_model true_prior (apply_capability a)
           tskmon_client) w = (tr, res, w') ->
  forall ev e,
    ev ∈ tr -> is_trial_call (call_of ev) -> raised ev = Some e ->
    res = inl e /\ (exists pre, tr = pre ++ [ev]) /\
    Forall (fun ev' => ~ is_cleanup_call (call_of ev')) tr.
Proof.
  rewrite perf_test_multiple_phases. intros Hrun ev e Hin Hcall Hraised.
  apply run_bind_cases in Hrun as [(e0 & H0 & ->)|(tr0 & perf0 & w0 & ta & H0 & Hrun & ->)].
  { destruct (zeros2 _ _ _); simpl in H0; injection H0 as <- _ _;
      by apply elem_of_nil in Hin. }
  assert (tr0 = []) as ->.
  { destruct (zeros2 _ _ _); simpl in H0; by injection H0 as <- _ _. }
  clear H0. simpl in Hin |- *.
  (* the start of the progress reports *)
  assert (Hstart : forall w tr1 r1 w1,
    run h match tskmon_client with
          | Some client => start_progress client model n_trials
          | None => Ret (mk_locals Unbound Unbound Unbound)
          end w = (tr1, r1, w1) ->
    Forall (fun ev' => in_phase Starting (call_of ev')) tr1).
  { intros ? ? ? ?. apply calls_only_run.
    destruct tskmon_client; [apply start_progress_calls | exact Logic.I]. }
  apply run_bind_cases in Hrun as [(e1 & H1 & ->)|(tr1 & locals & w1 & tb & H1 & Hrun & ->)].
  { exfalso. apply Hstart in H1.
    apply (phase_excludes _ is_trial_call _ _ H1 Hin Hcall). by intros []. }
  apply Hstart in H1. clear Hstart.
  apply elem_of_app in Hin as [Hin|Hin].
  { exfalso. apply (phase_excludes _ is_trial_call _ _ H1 Hin Hcall). by intros []. }
  assert (Hno1 := phase_avoids _ is_cleanup_call _ H1
                    ltac:(intros []; simpl; tauto)).
  (* the dispatch *)
  apply run_bind_cases in Hrun as [(e2 & H2 & ->)|(tr2 & results & w2 & tc & H2 & Hrun & ->)].
  { pose proof (calls_only_run _ _ _ _ _ _ _ (dispatch_calls _ _ _) H2) as Hc2.
    apply list_elem_of_split in Hin as (pre & suf & ->).
    destruct (propagates_run _ _ _ _ _ _ (dispatch_propagates _ _ _) H2
                _ _ _ _ eq_refl Hraised) as [-> [= ->]].
    split; [done|]. split; [exists (tr1 ++ pre); by rewrite <- app_assoc|].
    apply Forall_app. split; [done|].
    apply (phase_avoids _ _ _ Hc2). by intros []. }
  pose proof (calls_only_run _ _ _ _ _ _ _ (dispatch_calls _ _ _) H2) as Hc2.
  assert (Hno2 := phase_avoids _ is_cleanup_call _ Hc2
                    ltac:(intros []; simpl; tauto)).
  apply elem_of_app in Hin as [Hin|Hin].
  { apply list_elem_of_split in Hin as (pre & suf & ->).
    by destruct (propagates_run _ _ _ _ _ _ (dispatch_propagates _ _ _) H2
                   _ _ _ _ eq_refl Hraised) as [_ ?]. }
  apply dispatch_run in H2 as (rs & -> & _).
  (* the collection *)
  apply run_bind_cases in Hrun as [(e3 & H3 & ->)|(tr3 & perf1 & w3 & td & H3 & Hrun & ->)].
  { pose proof (calls_only_run _ _ _ _ _ _ _ (collect_calls _ _ _) H3) as Hc3.
    apply list_elem_of_split in Hin as (pre & suf & ->).
    destruct (propagates_run _ _ _ _ _ _ (collect_propagates _ _ _) H3
                _ _ _ _ eq_refl Hraised) as [-> [= ->]].
    split; [done|].
    split; [exists (tr1 ++ tr2 ++ pre); by rewrite <- !app_assoc|].
    apply Forall_app. split; [done|]. apply Forall_app. split; [done|].
    apply (phase_avoids _ _ _ Hc3). by intros []. }
  pose proof (calls_only_run _ _ _ _ _ _ _ (collect_calls _ _ _) H3) as Hc3.
  apply elem_of_app in Hin as [Hin|Hin].
  { apply list_elem_of_split in Hin as (pre & suf & ->).
    by destruct (propagates_run _ _ _ _ _ _ (collect_propagates _ _ _) H3
                   _ _ _ _ eq_refl Hraised) as [_ ?]. }
  (* the clean-up *)
  exfalso.
  apply run_bind_cases in Hrun as [(e4 & H4 & ->)|(tr4 & tk & w4 & te & H4 & Hrun & ->)].
  { destruct (task locals); simpl in H4; injection H4 as <- _ _;
      by apply elem_of_nil in Hin. }
  assert (tr4 = []) as ->.
  { destruct (task locals); simpl in H4; [discriminate | by injection H4 as <- _ _]. }
  simpl in Hin.
  apply run_bind_cases in Hrun as [(e5 & H5 & ->)|(tr5 & u & w5 & tf & H5 & Hrun & ->)].
  { pose proof (calls_only_run _ _ _ _ _ _ _ (clean_up_calls _ _) H5) as Hc5.
    apply (phase_excludes _ is_trial_call _ _ Hc5 Hin Hcall). by intros []. }
  pose proof (calls_only_run _ _ _ _ _ _ _ (clean_up_calls _ _) H5) as Hc5.
  simpl in Hrun. injection Hrun as <- _ _. rewrite app_nil_r in Hin.
  apply (phase_excludes _ is_trial_call _ _ Hc5 Hin Hcall). by intros [].
Qed.

Lemma multiple_trial_failure_skips_cleanup_witness :
  exists tr res w' ev,
    run failing_get (perf_test_multiple 2 demo_model 100 1%nat 1 3%nat None None
                       (apply_capability 0%nat) (Some 9%nat)) 0%nat
      = (tr, res, w') /\
    ev ∈ tr /\
    res = inl (Exception "trial failed") /\
    Forall (fun ev' => ~ is_cleanup_call (call_of ev')) tr.
Proof.
  pose (ev := Ev (Get 0%nat) (inl (Exception "trial failed"))).
  assert (Hin : ev ∈
    (run failing_get (perf_test_multiple 2 demo_model 100 1%nat 1 3%nat None None
                        (apply_capability 0%nat) (Some 9%nat)) 0%nat).1.1).
  { vm_compute. do 4 right. left. }
  destruct (multiple_trial_failure_skips_cleanup failing_get 0%nat 2 demo_model 100
              1%nat 1 3%nat None None 0%nat (Some 9%nat) _ _ _ eq_refl
              ev (Exception "trial failed") Hin Logic.I eq_refl)
    as (Hres & _ & Hno).
  eexists _, _, _, ev. split; [reflexivity|].
  split; [exact Hin|]. split; [exact Hres | exact Hno].
Defined.

(** ** Failures of the task monitor *)

Lemma perf_test_multiple_after_start n_trials model n_particles prior n_exp
    heuristic_class true_model true_prior apply tskmon_client :
  perf_test_multiple n_trials model n_particles prior n_exp heuristic_class
    true_model true_prior apply tskmon_client
  = (performance <- lift (zeros2 n_trials n_exp PERFORMANCE_DTYPE) ;;
     locals <- match tskmon_client with
               | Some client => start_progress client model n_trials
               | None => Ret (mk_locals Unbound Unbound Unbound)
               end ;;
     after_start apply
       (mk_trial_args model n_particles prior n_exp heuristic_class
          true_model true_prior) n_trials performance locals)%prog.
Proof. reflexivity. Qed.

(** Membership in a list that is written out. *)
Ltac elim_in H :=
  repeat (apply elem_of_cons in H as [->|H]); try (by apply elem_of_nil in H).

(** The events before the one singled out, when the list is written out. *)
Ltac give_prefix :=
  first [ by eexists [], _
        | by eexists [_], _
        | by eexists [_; _], _
        | by eexists [_; _; _], _ ].

Ltac answers h :=
  repeat match goal with
         | |- context [h ?c ?w] => destruct (h c w) as [[?|[]] ?]; simpl
         end.

(** All runs of the clean-up in which [thread.done = True] or
    [task.delete()] raises. *)
Lemma clean_up_failure {W} (h : handler W) locals tk w tr res w' :
  run h (clean_up locals tk) w = (tr, res, w') ->
  forall ev e,
    ev ∈ tr -> is_cleanup_call (call_of ev) -> raised ev = Some e ->
    exists pre r,
      tr = pre ++ [ev; Ev (PrintMsg "Exception cleaning up tskmon task." None) r] /\
      res = match r with inl e' => inl e' | inr _ => inr tt end.
Proof.
  unfold clean_up. destruct tk as [tk|]; simpl.
  2:{ intros [= <- <- <-] ev e Hin. by apply elem_of_nil in Hin. }
  destruct (thread locals) as [|[th|]], (wake_event locals) as [|[evt|]]; simpl;
    answers h; intros [= <- <- <-] ev ex Hin Hcall Hraised; elim_in Hin;
    simpl in Hcall, Hraised; try done; injection Hraised as <-; give_prefix.
Qed.

(** All runs of the start of the progress reports in which
    [new_task(...)] or [thread.start()] raises. *)
Lemma start_progress_failure {W} (h : handler W) client model n_trials w tr res w' :
  run h (start_progress client model n_trials) w = (tr, res, w') ->
  forall ev e,
    ev ∈ tr -> is_start_call (call_of ev) -> raised ev = Some e ->
    exists pre r,
      tr = pre ++ [ev; Ev (PrintMsg "Failed to start tskmon task: " (Some e)) r] /\
      Forall returned pre /\
      res = match r with inl e' => inl e' | inr _ => inr failed_locals end.
Proof.
  unfold start_progress. simpl.
  destruct (h (NewTask _ _ _ _) w) as [[e0|tk] w1]; simpl.
  - destruct (h (PrintMsg _ _) w1) as [[e'|[]] w2]; simpl;
      intros [= <- <- <-] ev e Hin Hcall Hraised; elim_in Hin;
      simpl in Hcall, Hraised; try done; injection Hraised as <-;
      eexists [], _; (split; [reflexivity|]); (split; [constructor | reflexivity]).
  - destruct (h (ThreadStart _) w1) as [[e0|[]] w2]; simpl.
    + destruct (h (PrintMsg _ _) w2) as [[e'|[]] w3]; simpl;
        intros [= <- <- <-] ev e Hin Hcall Hraised; elim_in Hin;
        simpl in Hcall, Hraised; try done; injection Hraised as <-;
        eexists [_], _; (split; [reflexivity|]);
        (split; [by repeat constructor | reflexivity]).
    + intros [= <- <- <-] ev e Hin Hcall Hraised; elim_in Hin;
        simpl in Hcall, Hraised; done.
Qed.

(** The phases after the start of the progress reports: the calls of each,
    and what the clean-up decides. *)
Lemma after_start_run {W} (h : handler W) a fn n_trials perf0 locals w tr res w' :
  run h (after_start (apply_capability a) fn n_trials perf0 locals) w
    = (tr, res, w') ->
  exists tr2 tr3 tr5,
    tr = tr2 ++ tr3 ++ tr5 /\
    Forall (fun ev => in_phase Dispatching (call_of ev)) tr2 /\
    Forall (fun ev => in_phase Collecting (call_of ev)) tr3 /\
    Forall (fun ev => in_phase Cleaning (call_of ev)) tr5 /\
    (tr5 = [] \/
     exists tk w4 r5 perf1,
       run h (clean_up locals tk) w4 = (tr5, r5, w') /\
       res = match r5 with inl e => inl e | inr _ => inr perf1 end).
Proof.
  unfold after_start. intros Hrun.
  apply run_bind_cases in Hrun
    as [(e2 & H2 & ->)|(tr2 & results & w2 & tc & H2 & Hrun & ->)].
  { pose proof (calls_only_run _ _ _ _ _ _ _ (dispatch_calls _ _ _) H2) as Hc2.
    exists tr, [], []. rewrite !app_nil_r. repeat split; auto. }
  pose proof (calls_only_run _ _ _ _ _ _ _ (dispatch_calls _ _ _) H2) as Hc2.
  apply dispatch_run in H2 as (rs & -> & _).
  apply run_bind_cases in Hrun
    as [(e3 & H3 & ->)|(tr3 & perf1 & w3 & td & H3 & Hrun & ->)].
  { pose proof (calls_only_run _ _ _ _ _ _ _ (collect_calls _ _ _) H3) as Hc3.
    exists tr2, tc, []. rewrite !app_nil_r. repeat split; auto. }
  pose proof (calls_only_run _ _ _ _ _ _ _ (collect_calls _ _ _) H3) as Hc3.
  apply run_bind_cases in Hrun
    as [(e4 & H4 & ->)|(tr4 & tk & w4 & te & H4 & Hrun & ->)].
  { exists tr2, tr3, []. rewrite !app_nil_r.
    assert (td = []) as ->.
    { destruct (task locals); simpl in H4; by injection H4 as <- _ _. }
    rewrite app_nil_r. repeat split; auto. }
  assert (tr4 = [] /\ w4 = w3) as [-> ->].
  { destruct (task locals); simpl in H4; [discriminate | by injection H4 as <- _ <-]. }
  apply run_bind_cases in Hrun
    as [(e5 & H5 & ->)|(tr5 & u & w5 & tf & H5 & Hrun & ->)].
  { pose proof (calls_only_run _ _ _ _ _ _ _ (clean_up_calls _ _) H5) as Hc5.
    exists tr2, tr3, te. simpl. repeat split; auto.
    right. exists tk, w3, (inl e5), perf1. by split. }
  pose proof (calls_only_run _ _ _ _ _ _ _ (clean_up_calls _ _) H5) as Hc5.
  simpl in Hrun. injection Hrun as <- <- <-.
  exists tr2, tr3, tr5. simpl. rewrite app_nil_r. repeat split; auto.
  right. exists tk, w3, (inr u), perf1. by split.
Qed.

(** A failure of the clean-up is swallowed: when [thread.done = True] or
    [task.delete()] raises, the harness prints a message, and when the
    printing returns the harness returns the array. *)
Theorem multiple_swallows_cleanup_failure {W} (h : handler W) w n_trials model
    n_particles prior n_exp heuristic_class true_model true_prior a tskmon_client
    tr res w' :
  run h (perf_test_multiple n_trials model n_particles prior n_exp
           heuristic_class true_model true_prior (apply_capability a)
           tskmon_client) w = (tr, res, w') ->
  forall ev e,
    ev ∈ tr -> is_cleanup_call (call_of ev) -> raised ev = Some e ->
    exists pre r,
      tr = pre ++ [ev; Ev (PrintMsg "Exception cleaning up tskmon task." None) r] /\
      match r with
      | inr _ => exists perf, res = inr perf
      | inl e' => res = inl e'
      end.
Proof.
  rewrite perf_test_multiple_after_start. intros Hrun ev e Hin Hcall Hraised.
  apply run_bind_cases in Hrun as [(e0 & H0 & ->)|(tr0 & perf0 & w0 & ta & H0 & Hrun & ->)].
  { destruct (zeros2 _ _ _); simpl in H0; injection H0 as <- _ _;
      by apply elem_of_nil in Hin. }
  assert (tr0 = []) as ->.
  { destruct (zeros2 _ _ _); simpl in H0; by injection H0 as <- _ _. }
  clear H0. simpl in Hin |- *.
  assert (Hstart : forall w tr1 r1 w1,
    run h match tskmon_client with
          | Some client => start_progress client model n_trials
          | None => Ret (mk_locals Unbound Unbound Unbound)
          end w = (tr1, r1, w1) ->
    Forall (fun ev' => in_phase Starting (call_of ev')) tr1).
  { intros ? ? ? ?. apply calls_only_run.
    destruct tskmon_client; [apply start_progress_calls | exact Logic.I]. }
  apply run_bind_cases in Hrun as [(e1 & H1 & ->)|(tr1 & locals & w1 & tb & H1 & Hrun & ->)].
  { exfalso. apply Hstart in H1.
    apply (phase_excludes _ is_cleanup_call _ _ H1 Hin Hcall). by intros []. }
  apply Hstart in H1. clear Hstart.
  apply after_start_run in Hrun as (tr2 & tr3 & tr5 & -> & Hc2 & Hc3 & Hc5 & Hclean).
  apply elem_of_app in Hin as [Hin|Hin].
  { exfalso. apply (phase_excludes _ is_cleanup_call _ _ H1 Hin Hcall). by intros []. }
  apply elem_of_app in Hin as [Hin|Hin].
  { exfalso. apply (phase_excludes _ is_cleanup_call _ _ Hc2 Hin Hcall). by intros []. }
  apply elem_of_app in Hin as [Hin|Hin].
  { exfalso. apply (phase_excludes _ is_cleanup_call _ _ Hc3 Hin Hcall). by intros []. }
  destruct Hclean as [->|(tk & w4 & r5 & perf1 & H5 & ->)];
    [by apply elem_of_nil in Hin|].
  destruct (clean_up_failure _ _ _ _ _ _ _ H5 _ _ Hin Hcall Hraised)
    as (pre & r & -> & ->).
  exists (tr1 ++ tr2 ++ tr3 ++ pre), r. split; [by rewrite <- !app_assoc|].
  destruct r as [e'|[]]; eauto.
Qed.

Lemma multiple_swallows_cleanup_failure_witness :
  exists tr perf w' ev,
    run failing_delete (perf_test_multiple 1 demo_model 100 1%nat 1 3%nat None None
                          (apply_capability 0%nat) (Some 9%nat)) 0%nat
      = (tr, inr perf, w') /\
    ev ∈ tr /\ raised ev = Some (Exception "no connection") /\
    exists pre r,
      tr = pre ++ [ev; Ev (PrintMsg "Exception cleaning up tskmon task." None) r].
Proof.
  pose (ev := Ev (TaskDelete 5%nat) (inl (Exception "no connection"))).
  assert (Hin : ev ∈
    (run failing_delete (perf_test_multiple 1 demo_model 100 1%nat 1 3%nat None None
                           (apply_capability 0%nat) (Some 9%nat)) 0%nat).1.1).
  { vm_compute. do 9 right. left. }
  destruct (multiple_swallows_cleanup_failure failing_delete 0%nat 1 demo_model 100
              1%nat 1 3%nat None None 0%nat (Some 9%nat) _ _ _ eq_refl
              ev (Exception "no connection") Hin Logic.I eq_refl)
    as (pre & r & Htr & _).
  eexists _, _, _, ev. split; [reflexivity|].
  split; [exact Hin|]. split; [reflexivity|]. exists pre, r. exact Htr.
Defined.

(** The collection of the trials when no progress is reported: when every
    call returns and every trial fits, it returns. *)
Lemma collect_unreported {W} (h : handler W) rs :
  forall k perf w tr res w',
    run h (for_each (zip (seq k (length rs)) (map AsyncResultOf rs))
             (collect_trial failed_locals) perf) w = (tr, res, w') ->
    (k + length rs <= length (ra2_rows perf))%nat ->
    Forall returned tr -> Forall (get_fits (ra2_ncols perf)) tr ->
    exists perf', res = inr perf'.
Proof.
  induction rs as [|r rs IH]; intros k perf w tr res w'; simpl.
  - intros [= <- <- <-]. eauto.
  - destruct (h (Get r) w) as [[e|trial] w1]; simpl.
    { intros [= <- <- <-] _ Hret. not_all_returned Hret. }
    unfold setrow. intros Hrun Hle.
    rewrite bool_decide_eq_true_2 in Hrun by lia.
    destruct (Nat.eqb (length (ra_rows trial)) (ra2_ncols perf)
              || Nat.eqb (length (ra_rows trial)) 1) eqn:Hfit; simpl in Hrun.
    + match type of Hrun with
      | context [run h (for_each ?xs ?body ?s) w1] =>
          destruct (run h (for_each xs body s) w1) as [[tr1 res1] w2] eqn:E
      end.
      injection Hrun as <- <- <-. intros Hret Hfits.
      apply Forall_cons in Hret as [_ Hret]. apply Forall_cons in Hfits as [_ Hfits].
      apply IH in E; [done| |done|done].
      simpl. rewrite length_insert. lia.
    + injection Hrun as <- <- <-. intros _ Hfits.
      apply Forall_cons in Hfits as [Hfits _]. simpl in Hfits.
      apply orb_false_iff in Hfit as [H1 H2].
      apply Nat.eqb_neq in H1, H2. by destruct Hfits.
Qed.

(** The harness after a failed start of the progress reports: it only
    dispatches and collects, and returns when every call returns and every
    trial fits. *)
Lemma after_failed_start {W} (h : handler W) a fn n_trials n_exp perf0 w tr res w' :
  zeros2 n_trials n_exp PERFORMANCE_DTYPE = inr perf0 ->
  run h (after_start (apply_capability a) fn n_trials perf0 failed_locals) w
    = (tr, res, w') ->
  Forall (fun ev => is_trial_call (call_of ev)) tr /\
  (Forall returned tr -> Forall (get_fits (Z.to_nat n_exp)) tr ->
   exists perf, res = inr perf).
Proof.
  intros Hz. unfold after_start. intros Hrun.
  assert (Hshape : ra2_ncols perf0 = Z.to_nat n_exp /\
                   length (ra2_rows perf0) = Z.to_nat n_trials).
  { unfold zeros2 in Hz. destruct ((n_trials <? 0) || (n_exp <? 0)); [discriminate|].
    destruct (valid_dtype PERFORMANCE_DTYPE); [|discriminate].
    injection Hz as <-. simpl. by rewrite repeat_length. }
  destruct Hshape as [Hcols Hrows].
  assert (Htrial2 : forall tr2,
    Forall (fun ev => in_phase Dispatching (call_of ev)) tr2 ->
    Forall (fun ev => is_trial_call (call_of ev)) tr2).
  { intros tr2 H. eapply Forall_impl; [exact H|].
    intros [c r] Hc. by destruct c. }
  assert (Htrial3 : forall w tr3 rs perf res3 w3,
    run h (collect failed_locals (map AsyncResultOf rs) perf) w = (tr3, res3, w3) ->
    Forall (fun ev => is_trial_call (call_of ev)) tr3).
  { intros w0 tr3 rs perf res3 w3. apply calls_only_run.
    unfold collect. eapply calls_only_for_each_in; [apply enumerate_async|].
    intros [idx [s|r]] perf' []. unfold collect_trial.
    apply calls_only_bind; [calls_call | intros trial].
    apply calls_only_bind; [apply calls_only_lift | intros perf'']. exact Logic.I. }
  apply run_bind_cases in Hrun
    as [(e2 & H2 & ->)|(tr2 & results & w2 & tc & H2 & Hrun & ->)].
  { pose proof (calls_only_run _ _ _ _ _ _ _ (dispatch_calls _ _ _) H2) as Hc2.
    split; [by apply Htrial2|]. intros Hret _.
    apply dispatch_run in H2 as (ev & Hin & Hev).
    rewrite Forall_forall in Hret. specialize (Hret _ Hin).
    destruct ev as [c [e|x]]; [destruct Hret | discriminate]. }
  pose proof (calls_only_run _ _ _ _ _ _ _ (dispatch_calls _ _ _) H2) as Hc2.
  apply dispatch_run in H2 as (rs & -> & Hlen).
  apply run_bind_cases in Hrun
    as [(e3 & H3 & ->)|(tr3 & perf1 & w3 & td & H3 & Hrun & ->)].
  { split; [apply Forall_app; split; [by apply Htrial2 | by eapply Htrial3]|].
    intros Hret Hfits. apply Forall_app in Hret as [_ Hret].
    apply Forall_app in Hfits as [_ Hfits].
    unfold collect, enumerate in H3. rewrite length_map in H3.
    apply collect_unreported in H3 as [perf' ?]; [done|lia|done|by rewrite Hcols]. }
  simpl in Hrun. injection Hrun as <- <- <-. rewrite app_nil_r.
  split; [apply Forall_app; split; [by apply Htrial2 | by eapply Htrial3]|].
  eauto.
Qed.

(** A failure to start the progress reports is survived: when
    [new_task(...)] or [thread.start()] raises, the harness prints the
    exception and goes on without reports.  After the message it only
    dispatches and collects the trials, it calls neither the task nor the
    thread again; and when the printing and these calls return, and every
    trial collected has [n_exp] records, or one, the harness returns the
    array. *)
Theorem multiple_survives_start_failure {W} (h : handler W) w n_trials model
    n_particles prior n_exp heuristic_class true_model true_prior a client
    tr res w' :
  run h (perf_test_multiple n_trials model n_particles prior n_exp
           heuristic_class true_model true_prior (apply_capability a)
           (Some client)) w = (tr, res, w') ->
  forall ev e,
    ev ∈ tr -> is_start_call (call_of ev) -> raised ev = Some e ->
    exists pre r suf,
      tr = pre ++ [ev; Ev (PrintMsg "Failed to start tskmon task: " (Some e)) r]
           ++ suf /\
      Forall returned pre /\
      Forall (fun ev' => is_trial_call (call_of ev')) suf /\
      (r = inr tt -> Forall returned suf ->
       Forall (get_fits (Z.to_nat n_exp)) suf -> exists perf, res = inr perf).
Proof.
  rewrite perf_test_multiple_after_start. intros Hrun ev e Hin Hcall Hraised.
  apply run_bind_cases in Hrun as [(e0 & H0 & ->)|(tr0 & perf0 & w0 & ta & H0 & Hrun & ->)].
  { destruct (zeros2 _ _ _); simpl in H0; injection H0 as <- _ _;
      by apply elem_of_nil in Hin. }
  apply run_lift_inr in H0 as (Hz & -> & ->). simpl in Hin |- *.
  apply run_bind_cases in Hrun as [(e1 & H1 & ->)|(tr1 & locals & w1 & tb & H1 & Hrun & ->)].
  { destruct (start_progress_failure _ _ _ _ _ _ _ _ H1 _ _ Hin Hcall Hraised)
      as (pre & r & -> & Hpre & Hres).
    exists pre, r, []. split; [reflexivity|]. split; [done|].
    split; [constructor|]. intros ->. discriminate. }
  apply elem_of_app in Hin as [Hin|Hin].
  2:{ exfalso.
      apply after_start_run in Hrun as (tr2 & tr3 & tr5 & -> & Hc2 & Hc3 & Hc5 & _).
      apply elem_of_app in Hin as [Hin|Hin];
        [apply (phase_excludes _ is_start_call _ _ Hc2 Hin Hcall); by intros []|].
      apply elem_of_app in Hin as [Hin|Hin];
        [apply (phase_excludes _ is_start_call _ _ Hc3 Hin Hcall); by intros []|].
      apply (phase_excludes _ is_start_call _ _ Hc5 Hin Hcall). by intros []. }
  destruct (start_progress_failure _ _ _ _ _ _ _ _ H1 _ _ Hin Hcall Hraised)
    as (pre & r & -> & Hpre & Hres).
  destruct r as [e'|[]]; [discriminate|]. injection Hres as ->.
  destruct (after_failed_start _ _ _ _ _ _ _ _ _ _ Hz Hrun) as [Htrial Hok].
  exists pre, (inr tt), tb. split; [by rewrite <- app_assoc|].
  split; [done|]. split; [done|]. intros _. exact Hok.
Qed.

Lemma multiple_survives_start_failure_witness :
  exists tr perf w' ev suf,
    run failing_new_task (perf_test_multiple 2 demo_model 100 1%nat 1 3%nat None None
                            (apply_capability 0%nat) (Some 9%nat)) 0%nat
      = (tr, inr perf, w') /\
    ev ∈ tr /\ raised ev = Some (Exception "no connection") /\
    Forall (fun ev' => is_trial_call (call_of ev')) suf /\
    exists pre r,
      tr = pre ++ [ev; Ev (PrintMsg "Failed to start tskmon task: "
                             (Some (Exception "no connection"))) r] ++ suf.
Proof.
  pose (ev := Ev (NewTask 9%nat "QInfer Performance Testing" "Testing DemoModel..." 2)
                 (inl (Exception "no connection"))).
  assert (Hin : ev ∈
    (run failing_new_task (perf_test_multiple 2 demo_model 100 1%nat 1 3%nat None None
                             (apply_capability 0%nat) (Some 9%nat)) 0%nat).1.1).
  { vm_compute. left. }
  destruct (multiple_survives_start_failure failing_new_task 0%nat 2 demo_model 100
              1%nat 1 3%nat None None 0%nat 9%nat _ _ _ eq_refl
              ev (Exception "no connection") Hin Logic.I eq_refl)
    as (pre & r & suf & Htr & _ & Htrial & _).
  eexists _, _, _, ev, suf. split; [reflexivity|].
  split; [exact Hin|]. split; [reflexivity|]. split; [exact Htrial|].
  exists pre, r. exact Htr.
Defined.

(** ** The calls of the harness, counted *)

Lemma tally_snoc P tr e : tally P (tr ++ [e]) = (tally P tr + if P e then 1 else 0)%nat.
Proof. induction tr as [|x tr IH]; simpl; [lia|]. rewrite IH. lia. Qed.

Lemma tally_pos P tr : (1 <= tally P tr)%nat -> exists e, e ∈ tr /\ P e = true.
Proof.
  induction tr as [|x tr IH]; simpl; [lia|]. destruct (P x) eqn:E.
  - intros _. exists x. split; [left | done].
  - intros H. destruct (IH H) as (e & Hin & He). exists e. split; [by right | done].
Qed.

Lemma stage_inv n g r tr : stage g r tr -> (r <= g)%nat -> (g <= n)%nat -> trials_inv n tr.
Proof. unfold stage, trials_inv. intros (Hg & Hr & Hd) Hrg Hgn. lia. Qed.

(** A call that is neither a collection nor a write of [dirty] or [done]. *)
Lemma stage_quiet g r tr c x :
  quiet c = true -> (forall b, c <> SetDone b) ->
  stage g r tr -> stage g r (tr ++ [Ev c x]).
Proof.
  unfold stage, gets, reports, dones. intros Hq Hd (Hg & Hr & Hn).
  rewrite !tally_snoc.
  destruct c; try discriminate; simpl; try lia.
  exfalso. eapply Hd. reflexivity.
Qed.

Lemma stage_collect g r tr a x :
  stage g r tr -> stage (S g) r (tr ++ [Ev (Get a) (inr x)]).
Proof.
  unfold stage, gets, reports, dones. intros (Hg & Hr & Hn).
  rewrite !tally_snoc. simpl. lia.
Qed.

Lemma stage_get_failed g r tr a e :
  stage g r tr -> stage g r (tr ++ [Ev (Get a) (inl e)]).
Proof.
  unfold stage, gets, reports, dones. intros (Hg & Hr & Hn).
  rewrite !tally_snoc. simpl. lia.
Qed.

Lemma stage_write g r tr v x :
  stage g r tr -> stage g r (tr ++ [Ev (SetProgress v) x]).
Proof.
  unfold stage, gets, reports, dones. intros (Hg & Hr & Hn).
  rewrite !tally_snoc. simpl. lia.
Qed.

Lemma stage_report g r tr b x :
  stage g r tr -> stage g (S r) (tr ++ [Ev (SetDirty b) x]).
Proof.
  unfold stage, gets, reports, dones. intros (Hg & Hr & Hn).
  rewrite !tally_snoc. destruct b; simpl; lia.
Qed.

(** After the last trial: calls that are no collection and no write of
    [dirty] keep the invariant. *)
Lemma trials_inv_end n tr c x :
  quiet c = true -> gets tr = n -> trials_inv n tr -> trials_inv n (tr ++ [Ev c x]) /\
  gets (tr ++ [Ev c x]) = n.
Proof.
  intros Hq Hn (Hr & Hg & Hd). unfold trials_inv, gets, reports, dones in *.
  rewrite !tally_snoc.
  destruct c; try discriminate; simpl; lia.
Qed.

Ltac stage_quiet_inv HA :=
  eapply stage_inv;
    [eapply stage_quiet; [reflexivity | by intros | exact HA] | lia | lia].

Ltac stage_do HA x HA' :=
  apply wp_do;
    [ eapply stage_inv; [exact HA | lia | lia]
    | intros ?; stage_quiet_inv HA
    | intros x;
      match goal with
      | |- context [?tr ++ [Ev ?c (inr x)]] =>
          assert (HA' : stage _ _ (tr ++ [Ev c (inr x)]))
            by (eapply stage_quiet; [reflexivity | by intros | exact HA])
      end
    | try (intros; exact Logic.I) ].

Ltac stage_ret HA := apply wp_ret; [eapply stage_inv; [exact HA | lia | lia]|].
Ltac stage_raise HA := apply wp_raise; [eapply stage_inv; [exact HA | lia | lia]|].

(** The harness sets [dirty] at most once per trial collected, collects at
    most [n_trials] trials and sets [done] only after the last. *)
Lemma perf_test_multiple_trials n_trials model n_particles prior n_exp
    heuristic_class true_model true_prior apply tskmon_client :
  wp (trials_inv (Z.to_nat n_trials))
    (perf_test_multiple n_trials model n_particles prior n_exp heuristic_class
       true_model true_prior apply tskmon_client) []
    (fun _ _ => True) any_exn.
Proof.
  set (n := Z.to_nat n_trials).
  assert (H0 : stage 0 0 []) by done.
  rewrite perf_test_multiple_phases.
  apply wp_bind, wp_lift; [by eapply stage_inv; [exact H0 | lia | lia] | | done].
  intros perf0 _.
  (* the task and the thread *)
  apply wp_bind.
  assert (Hlocals : forall post : list event -> tskmon_locals -> Prop,
    (forall tr locals, stage 0 0 tr -> post tr locals) ->
    wp (trials_inv n)
      match tskmon_client with
      | Some client => start_progress client model n_trials
      | None => Ret (mk_locals Unbound Unbound Unbound)
      end [] post any_exn).
  { intros post Hpost. destruct tskmon_client as [client|].
    2:{ stage_ret H0. by apply Hpost. }
    assert (Hexc : forall tr ex, stage 0 0 tr ->
      wp (trials_inv n)
        (do (PrintMsg "Failed to start tskmon task: " (Some ex)) ;;
         Ret (mk_locals (Bound None) (Bound None) (Bound None)))%prog
        tr post any_exn).
    { intros tr ex HA. apply wp_bind. stage_do HA u HA'.
      stage_ret HA'. by apply Hpost. }
    unfold start_progress. apply wp_try_except. apply wp_bind. stage_do H0 tsk H1.
    - apply wp_bind. stage_do H1 u H2.
      + stage_ret H2. by apply Hpost.
      + intros e. apply Hexc. eapply stage_quiet; [reflexivity | by intros | exact H1].
    - intros e. apply Hexc. eapply stage_quiet; [reflexivity | by intros | exact H0]. }
  apply Hlocals; clear Hlocals. intros tr1 locals H1.
  (* the dispatch *)
  apply wp_bind. unfold dispatch.
  eapply wp_mono; [| |apply (wp_for_each (trials_inv n)
    (fun (xs : list nat) tr (results : list apply_result) =>
       stage 0 0 tr /\ Forall is_async results /\
       (length results + length xs = n)%nat) _ any_exn)]; cycle 1.
  { auto. }
  { intros tr results (HA & _). eapply stage_inv; [exact HA | lia | lia]. }
  { intros x xs tr results (HA & Hasync & Hlen). apply wp_bind.
    destruct apply as [|a]; unfold call_apply.
    - apply wp_bind. unfold apply_serial.new, apply_serial.__init__.
      apply wp_bind. rewrite load_global_fn. by stage_raise HA.
    - apply wp_bind. stage_do HA r HA'.
      stage_ret HA'. stage_ret HA'.
      split; [exact HA'|]. split; [apply Forall_app; split; [done|by constructor]|].
      rewrite length_app. simpl in *. lia. }
  { split; [exact H1|]. split; [constructor|].
    unfold xrange. rewrite length_seq. simpl. reflexivity. }
  cbv beta. intros tr2 results (H2 & Hasync & Hlen).
  simpl in Hlen. rewrite Nat.add_0_r in Hlen.
  (* the collection *)
  apply wp_bind. unfold collect.
  eapply wp_mono; [| |apply (wp_for_each (trials_inv n)
    (fun (xs : list (nat * apply_result)) tr (_ : recarray2) =>
       exists idx,
         Forall is_async (map snd xs) /\
         (idx + length xs = n)%nat /\ stage idx idx tr) _ any_exn)];
    cycle 1.
  { auto. }
  { intros tr s (idx & _ & Hidx & HA). eapply stage_inv; [exact HA | lia | lia]. }
  { intros [i result] xs tr s (idx & Hsnd & Hidx & HA).
    simpl in Hsnd, Hidx.
    apply Forall_cons in Hsnd as [Hres Hsnd].
    destruct result as [sr|ar]; [destruct Hres|]. unfold collect_trial.
    simpl call_get.
    apply wp_bind, wp_do.
    - eapply stage_inv; [exact HA | lia | lia].
    - intros [e|x].
      + eapply stage_inv; [exact (stage_get_failed _ _ _ _ _ HA) | lia | lia].
      + eapply stage_inv; [exact (stage_collect _ _ _ _ _ HA) | lia | lia].
    - intros trial. pose proof (stage_collect _ _ _ ar trial HA) as HA1.
      apply wp_bind, wp_lift;
        [eapply stage_inv; [exact HA1 | lia | lia] | intros s' _ | done].
      apply wp_bind.
      destruct (thread locals) as [|[th|]]; simpl load_fast.
      + by stage_raise HA1.
      + stage_ret HA1.
        pose proof (fun r => stage_write _ _ _ (Z.of_nat i + 1) r HA1) as HA2.
        apply wp_bind, wp_do.
        * eapply stage_inv; [exact HA1 | lia | lia].
        * intros r. eapply stage_inv; [exact (HA2 r) | lia | lia].
        * intros u2.
          pose proof (fun r => stage_report _ _ _ true r (HA2 (inr u2))) as HA3.
          apply wp_bind, wp_do.
          -- eapply stage_inv; [exact (HA2 _) | lia | lia].
          -- intros r. eapply stage_inv; [exact (HA3 r) | lia | lia].
          -- intros u3. specialize (HA3 (inr u3)).
             apply wp_bind.
             destruct (wake_event locals) as [|[ev|]]; simpl load_fast.
             ++ by stage_raise HA3.
             ++ stage_ret HA3. apply wp_bind. stage_ret HA3.
                apply wp_bind. stage_do HA3 u4 HA4.
                stage_ret HA4. exists (S idx). split; [done|]. split; [lia | done].
             ++ stage_ret HA3. apply wp_bind. by stage_raise HA3.
          -- done.
        * done.
      + stage_ret HA1. stage_ret HA1.
        exists (S idx). split; [done|]. split; [lia|].
        destruct HA1 as (? & ? & ?). unfold stage. repeat split; [done | lia | done].
    - done. }
  { exists 0%nat. unfold enumerate.
    rewrite snd_zip by (rewrite length_seq; lia).
    rewrite length_zip, length_seq, Nat.min_id.
    split; [exact Hasync|]. split; [exact Hlen | exact H2]. }
  cbv beta. intros tr3 perf (idx & _ & Hidx & H3).
  simpl in Hidx. rewrite Nat.add_0_r in Hidx. subst idx.
  (* the end of the task: all trials are collected *)
  assert (Hend : trials_inv n tr3 /\ gets tr3 = n).
  { split; [eapply stage_inv; [exact H3 | lia | lia] | apply H3]. }
  clear H3 H2 H1 H0.
  assert (Hcall : forall c tr (post : list event -> resp c -> Prop)
                         (epost : list event -> exn -> Prop),
    quiet c = true -> trials_inv n tr /\ gets tr = n ->
    (forall x tr', trials_inv n tr' /\ gets tr' = n -> post tr' x) ->
    (forall e tr', trials_inv n tr' /\ gets tr' = n -> epost tr' e) ->
    wp (trials_inv n) (do c) tr post epost).
  { intros c tr post epost Hq [Hi Hg] Hpost Hepost.
    apply wp_do; [exact Hi | | |].
    - intros r. by apply trials_inv_end.
    - intros x. apply Hpost. by apply trials_inv_end.
    - intros e. apply Hepost. by apply trials_inv_end. }
  apply wp_bind.
  destruct (task locals) as [|[tk|]]; simpl load_fast.
  - apply wp_raise; [apply Hend | done].
  - apply wp_ret; [apply Hend|]. apply wp_bind. unfold clean_up.
    assert (Hexc : forall tr, trials_inv n tr /\ gets tr = n ->
      wp (trials_inv n)
        (do (PrintMsg "Exception cleaning up tskmon task." None)) tr
        (fun tr' _ => wp (trials_inv n) (Ret perf) tr' (fun _ _ => True) any_exn)
        any_exn).
    { intros tr HA. apply Hcall; [done | exact HA | | done].
      intros [] tr' HA'. apply wp_ret; [apply HA' | done]. }
    apply wp_try_except. apply wp_bind.
    destruct (thread locals) as [|[th|]]; simpl load_fast.
    + apply wp_raise; [apply Hend|]. by apply Hexc.
    + apply wp_ret; [apply Hend|].
      apply wp_bind. apply wp_ret; [apply Hend|].
      apply wp_bind. apply Hcall; [done | exact Hend | | intros e tr' HA; by apply Hexc].
      intros [] tr4 H4. apply wp_bind.
      destruct (wake_event locals) as [|[ev|]]; simpl load_fast.
      * apply wp_raise; [apply H4|]. by apply Hexc.
      * apply wp_ret; [apply H4|].
        apply wp_bind. apply wp_ret; [apply H4|].
        apply wp_bind.
        apply Hcall; [done | exact H4 | | intros e tr' HA; by apply Hexc].
        intros [] tr5 H5.
        apply Hcall; [done | exact H5 | | intros e tr' HA; by apply Hexc].
        intros [] tr6 H6. apply wp_ret; [apply H6 | done].
      * apply wp_ret; [apply H4|].
        apply wp_bind. apply wp_raise; [apply H4|]. by apply Hexc.
    + apply wp_ret; [apply Hend|].
      apply wp_bind. apply wp_raise; [apply Hend|]. by apply Hexc.
  - apply wp_ret; [apply Hend|]. apply wp_bind. unfold clean_up.
    apply wp_ret; [apply Hend|]. apply wp_ret; [apply Hend | done].
Qed.

(** ** The harness and the thread, interleaved: what is delivered *)

(** Whatever the schedule, the calls of the harness are calls of its
    program: what the program logic says of the program holds of them. *)
Lemma schedule_keeps_wp {A W} inv (h : handler W) post epost sched :
  forall cfg : config A W,
    wp inv (c_main cfg) (main_events (c_log cfg)) post epost ->
    wp inv (c_main (run_schedule h sched cfg))
      (main_events (c_log (run_schedule h sched cfg))) post epost.
Proof.
  induction sched as [|who sched IH]; intros cfg Hwp; [done|].
  simpl. destruct (step h who cfg) as [cfg'|] eqn:Hstep; [|by apply IH].
  apply IH. unfold step in Hstep. destruct who.
  - destruct (c_main cfg) as [a|e|c k]; try discriminate.
    destruct (exec h c (c_mem cfg) (c_world cfg)) as [[[r m] w]|]; [|discriminate].
    injection Hstep as <-. simpl. rewrite main_events_snoc_main.
    simpl in Hwp. apply Hwp.
  - destruct (c_thread cfg) as [|self [[|]|e|c k]| |]; try discriminate;
      try (by injection Hstep as <-).
    destruct (exec h c (c_mem cfg) (c_world cfg)) as [[[r m] w]|]; [|discriminate].
    injection Hstep as <-. simpl. by rewrite main_events_snoc_thread.
Qed.

Lemma delivered_snoc_main log e : delivered (log ++ [(MainThread, e)]) = delivered log.
Proof.
  unfold delivered, thread_events. rewrite flat_map_app. simpl. by rewrite app_nil_r.
Qed.

Lemma delivered_snoc_thread log e :
  delivered (log ++ [(ProgressThread, e)])
  = delivered log ++ match kind_of e with Push v None => [v] | _ => [] end.
Proof.
  unfold delivered, thread_events, deliveries. rewrite !flat_map_app. simpl.
  by rewrite !app_nil_r.
Qed.

Lemma thread_at_run_iteration self : thread_at Idle (run_iteration self).
Proof.
  unfold run_iteration. simpl. repeat split; try done.
Qed.

Lemma credit_le s d r dirty : credit s d r dirty -> (d <= r)%nat.
Proof. destruct s, dirty; simpl; lia. Qed.

(** The thread, standing at [s] with the credit of [s], is in order. *)
Lemma thread_credit_at s d r n_done dirty self p :
  thread_at s p -> credit s d r dirty ->
  thread_credit d r n_done dirty (Running self p).
Proof.
  intros Hat Hc. destruct p as [[|]|e|c k]; unfold thread_credit; try (by exists s).
  destruct Hat.
Qed.

(** The credit survives what the harness does. *)
Lemma thread_credit_mono d r r' n_done n_done' dirty dirty' t :
  thread_credit d r n_done dirty t ->
  (r <= r')%nat -> (n_done <= n_done')%nat ->
  (dirty' = true -> dirty = true \/ (r + 1 <= r')%nat) ->
  thread_credit d r' n_done' dirty' t.
Proof.
  intros Ht Hr Hn Hd.
  assert (Hidle : credit Idle d r dirty -> credit Idle d r' dirty').
  { simpl. destruct dirty'; [|destruct dirty; lia].
    destruct (Hd eq_refl) as [->|?]; lia. }
  assert (Hany : forall s, credit s d r dirty -> credit s d r' dirty').
  { intros [| |]; [exact Hidle | simpl; lia | simpl; lia]. }
  destruct t as [|self p| |e]; unfold thread_credit in *.
  - by apply Hidle.
  - destruct p as [[|]|e|c k];
      try (destruct Ht as (s & Hat & Hc); exists s; split; [done | by apply Hany]).
    destruct Ht as [? ?]. split; [lia | by apply Hidle].
  - destruct Ht as [? ?]. split; [lia | by apply Hidle].
  - lia.
Qed.

(** What a call does to [done] and [dirty]. *)
Lemma exec_flags {W} (h : handler W) c m w r m' w' :
  exec h c m w = Some (r, m', w') ->
  (WebProgressThread.done (m_attrs m') = true ->
   WebProgressThread.done (m_attrs m) = true \/ is_done_set (Ev c r) = true) /\
  (WebProgressThread.dirty (m_attrs m') = true ->
   WebProgressThread.dirty (m_attrs m) = true \/ is_report (Ev c r) = true).
Proof.
  unfold exec, access.
  destruct c; simpl;
    try (destruct (h _ w) as [rr ww]);
    try (destruct (m_flag m); [|discriminate]);
    intros [= <- <- <-]; simpl;
    (split; intros H; first [by left | subst; by right]).
Qed.

(** A step of the harness keeps the invariant, whatever the program of the
    harness. *)
Lemma main_step_credit {A W} (h : handler W) (cfg cfg' : config A W) :
  credit_inv cfg -> step h MainThread cfg = Some cfg' -> credit_inv cfg'.
Proof.
  intros [Hdone Hth] Hstep. unfold step in Hstep.
  destruct (c_main cfg) as [a|e|c k] eqn:Hmain; try discriminate.
  destruct (exec h c (c_mem cfg) (c_world cfg)) as [[[r m] w]|] eqn:Hexec;
    [|discriminate].
  injection Hstep as <-. unfold credit_inv. simpl.
  rewrite main_events_snoc_main, delivered_snoc_main.
  destruct (exec_flags _ _ _ _ _ _ _ Hexec) as [Hd Hy].
  unfold dones, reports in *. rewrite !tally_snoc.
  split.
  { intros H. destruct (Hd H) as [H1| ->]; [specialize (Hdone H1)|]; lia. }
  assert (Hth' : thread_credit (length (delivered (c_log cfg)))
                   (tally is_report (main_events (c_log cfg)) +
                    (if is_report (Ev c r) then 1 else 0))
                   (tally is_done_set (main_events (c_log cfg)) +
                    (if is_done_set (Ev c r) then 1 else 0))
                   (WebProgressThread.dirty (m_attrs m)) (c_thread cfg)).
  { eapply thread_credit_mono; [exact Hth | lia | lia |].
    intros H. destruct (Hy H) as [H1| ->]; [by left | right; lia]. }
  unfold spawn. destruct c; try exact Hth'.
  destruct (is_inr r); try exact Hth'.
  destruct (c_thread cfg); try exact Hth'.
  unfold thread_credit in Hth'. eapply thread_credit_at; [apply thread_at_run_iteration | exact Hth'].
Qed.

(** A step of the progress thread keeps the invariant. *)
Lemma thread_step_credit {A W} (h : handler W) (cfg cfg' : config A W) :
  credit_inv cfg -> step h ProgressThread cfg = Some cfg' -> credit_inv cfg'.
Proof.
  intros [Hdone Hth] Hstep. unfold step in Hstep.
  destruct (c_thread cfg) as [|self p| |e] eqn:Hthr; try discriminate.
  destruct p as [[|]|e|c k].
  - (* the next turn of the loop *)
    injection Hstep as <-. unfold credit_inv. simpl. split; [exact Hdone|].
    unfold thread_credit in Hth. simpl in Hth. destruct Hth as (s & -> & Hc).
    eapply thread_credit_at; [apply thread_at_run_iteration | exact Hc].
  - (* return *)
    injection Hstep as <-. unfold credit_inv. simpl. by split.
  - (* an exception *)
    injection Hstep as <-. unfold credit_inv. simpl. split; [exact Hdone|].
    unfold thread_credit in *. destruct Hth as (s & _ & Hc). by eapply credit_le.
  - destruct (exec h c (c_mem cfg) (c_world cfg)) as [[[r m] w]|] eqn:Hexec;
      [|discriminate].
    injection Hstep as <-. unfold credit_inv. simpl.
    rewrite main_events_snoc_thread, delivered_snoc_thread.
    unfold thread_credit in Hth. destruct Hth as (s & Hat & Hc).
    unfold exec, access in Hexec.
    destruct c; simpl in Hat; try (by destruct Hat); simpl in Hexec.
    + (* task.update(progress=...) *)
      destruct (h _ (c_world cfg)) as [rr ww]. injection Hexec as <- <- <-.
      destruct Hat as (-> & Hok & Hfail). split; [exact Hdone|].
      destruct rr as [e|[]]; simpl.
      * rewrite app_nil_r. eapply thread_credit_at; [apply Hfail|].
        simpl in *. destruct (WebProgressThread.dirty _); lia.
      * rewrite length_app. simpl.
        eapply thread_credit_at; [exact Hok|]. simpl in *. lia.
    + (* print ex *)
      injection Hexec as <- <- <-. destruct Hat as (-> & Hok).
      split; [exact Hdone|]. simpl. rewrite app_nil_r.
      by eapply thread_credit_at.
    + (* self.dirty = False *)
      injection Hexec as <- <- <-. destruct Hat as (-> & -> & Hok).
      split; [exact Hdone|]. simpl. rewrite app_nil_r.
      eapply thread_credit_at; [exact Hok|]. simpl in *. lia.
    + (* self.progress *)
      injection Hexec as <- <- <-. destruct Hat as (-> & Hok).
      split; [exact Hdone|]. simpl. rewrite app_nil_r.
      eapply thread_credit_at; [apply Hok | exact Hc].
    + (* self.dirty *)
      injection Hexec as <- <- <-. destruct Hat as (-> & Htrue & Hfalse).
      split; [exact Hdone|]. simpl. rewrite app_nil_r.
      destruct (WebProgressThread.dirty (m_attrs (c_mem cfg))) eqn:Hdy.
      * eapply thread_credit_at; [exact Htrue|]. simpl in *. lia.
      * by eapply thread_credit_at.
    + (* self.done *)
      injection Hexec as <- <- <-. destruct Hat as (-> & Hret & Hfalse).
      split; [exact Hdone|]. simpl. rewrite app_nil_r.
      destruct (WebProgressThread.done (m_attrs (c_mem cfg))) eqn:Hdn.
      * rewrite Hret. unfold thread_credit. split; [by apply Hdone | exact Hc].
      * by eapply thread_credit_at.
    + (* wake_event.clear() *)
      injection Hexec as <- <- <-. destruct Hat as (-> & Hok).
      split; [exact Hdone|]. simpl. rewrite app_nil_r.
      by eapply thread_credit_at.
    + (* wake_event.wait() *)
      destruct (m_flag (c_mem cfg)); [|discriminate].
      injection Hexec as <- <- <-. destruct Hat as (-> & Hok).
      split; [exact Hdone|]. simpl. rewrite app_nil_r.
      by eapply thread_credit_at.
Qed.

Lemma schedule_credit {A W} (h : handler W) sched (cfg : config A W) :
  credit_inv cfg -> credit_inv (run_schedule h sched cfg).
Proof.
  revert cfg. induction sched as [|who sched IH]; intros cfg Hinv; [done|].
  simpl. destruct (step h who cfg) as [cfg'|] eqn:Hstep; [|by apply IH].
  apply IH. destruct who; [by eapply main_step_credit | by eapply thread_step_credit].
Qed.

Lemma initial_credit {A W} (p : prog A) (w : W) : credit_inv (initial p w).
Proof. unfold credit_inv, initial, thread_credit. simpl. split; [done | lia]. Qed.

Lemma thread_credit_le d r n_done dirty t :
  thread_credit d r n_done dirty t -> (d <= r)%nat.
Proof.
  destruct t as [|self p| |e]; unfold thread_credit.
  - apply (credit_le Idle).
  - destruct p as [[|]|e|c k];
      try (intros (s & _ & Hc); by eapply credit_le).
    intros [_ Hc]. by eapply (credit_le Idle).
  - intros [_ Hc]. by eapply (credit_le Idle).
  - done.
Qed.

(** However the harness and the progress thread are interleaved and
    whatever the collaborators answer, [task.update] has returned at most
    as many times as the harness has set [dirty], which is at most the
    number of trials collected so far, which is at most [n_trials]: the
    task accepts at most one report per trial. *)
Theorem deliveries_bounded {W} (h : handler W) w sched
    n_trials model n_particles prior n_exp heuristic_class true_model
    true_prior apply tskmon_client :
  let cfg :=
    run_schedule h sched
      (initial (perf_test_multiple n_trials model n_particles prior n_exp
                  heuristic_class true_model true_prior apply tskmon_client) w) in
  (length (delivered (c_log cfg)) <= reports (main_events (c_log cfg)))%nat /\
  (reports (main_events (c_log cfg)) <= gets (main_events (c_log cfg)))%nat /\
  (gets (main_events (c_log cfg)) <= Z.to_nat n_trials)%nat.
Proof.
  intros cfg.
  assert (Hc : credit_inv cfg) by apply schedule_credit, initial_credit.
  assert (Hwp : wp (trials_inv (Z.to_nat n_trials)) (c_main cfg)
                  (main_events (c_log cfg)) (fun _ _ => True) any_exn).
  { apply schedule_keeps_wp. apply perf_test_multiple_trials. }
  apply wp_inv in Hwp as (Hr & Hg & _). destruct Hc as [_ Hth].
  split; [by eapply thread_credit_le | by split].
Qed.

(** The progress thread returns only after the harness has set [done],
    which it does only after it has collected all [n_trials] trials. *)
Theorem thread_returns_after_done {W} (h : handler W) w sched
    n_trials model n_particles prior n_exp heuristic_class true_model
    true_prior apply tskmon_client :
  let cfg :=
    run_schedule h sched
      (initial (perf_test_multiple n_trials model n_particles prior n_exp
                  heuristic_class true_model true_prior apply tskmon_client) w) in
  c_thread cfg = Finished ->
  (exists r, Ev (SetDone true) r ∈ main_events (c_log cfg)) /\
  gets (main_events (c_log cfg)) = Z.to_nat n_trials.
Proof.
  intros cfg Hfin.
  assert (Hc : credit_inv cfg) by apply schedule_credit, initial_credit.
  assert (Hwp : wp (trials_inv (Z.to_nat n_trials)) (c_main cfg)
                  (main_events (c_log cfg)) (fun _ _ => True) any_exn).
  { apply schedule_keeps_wp. apply perf_test_multiple_trials. }
  apply wp_inv in Hwp as (_ & _ & Hall). destruct Hc as [_ Hth].
  rewrite Hfin in Hth. unfold thread_credit in Hth. destruct Hth as [Hdone _].
  split; [|by apply Hall].
  apply tally_pos in Hdone as ([c r] & Hin & He).
  unfold is_done_set in He. simpl in He.
  destruct c; try discriminate. destruct b; [|discriminate]. by exists r.
Qed.

Lemma thread_returns_after_done_witness :
  c_thread
    (run_schedule demo orderly_schedule
       (initial (perf_test_multiple 1 demo_model 100 1%nat 1 3%nat None None
                   (apply_capability 0%nat) (Some 9%nat)) 0%nat)) = Finished /\
  gets (main_events (c_log
    (run_schedule demo orderly_schedule
       (initial (perf_test_multiple 1 demo_model 100 1%nat 1 3%nat None None
                   (apply_capability 0%nat) (Some 9%nat)) 0%nat)))) = 1%nat.
Proof.
  split; [vm_compute; reflexivity|].
  refine (proj2 (thread_returns_after_done demo 0%nat orderly_schedule 1 demo_model
                   100 1%nat 1 3%nat None None (apply_capability 0%nat)
                   (Some 9%nat) _)).
  vm_compute. reflexivity.
Defined.
